(** * Launch preparation of a network chain (package [networkchain])

    A shallow embedding of [networkchain.go] and [prepare.go]: the binary
    build with its cache ([Chain.Build]), the source fetch ([fetchSource]),
    the construction of a chain from a source and options ([New]), and the
    preparation of a chain from its genesis information ([Chain.Prepare],
    [buildGenesis], [applyGenesisValidators],
    [updateConfigFromGenesisValidators]); of the campaign transactions of
    package [network] ([CreateCampaign], [InitializeMainnet],
    [UpdateCampaign]); and of the source analysis of package [cosmosanalysis]
    ([findImplementationInFiles], [ValidateGoMod], [FindAppFilePath]).

    Go code that returns [(T, error)] becomes a computation in a state and
    error monad over an explicit world: the files, the genesis document, the
    node configuration, the binaries on disk, the binary cache and the trace
    of calls made to the collaborators. *)

From stdpp Require Import gmap strings list fin_maps pretty sorting.
From Stdlib Require Import ZArith Lia.


Local Open Scope Z_scope.

(** ** Errors *)

(** Go [error] values. [ErrNotFound] is [exec.ErrNotFound]; [ErrWrap] is a
    wrapped error ([errors.Wrap], [exec.Error]), which [errors.Is] unwraps. *)
Inductive error : Type :=
| ErrNotFound
| ErrMsg (msg : string)
| ErrWrap (e : error) (msg : string).

(** [errors.Is(err, exec.ErrNotFound)] *)
Fixpoint errors_Is_ErrNotFound (e : error) : bool :=
  match e with
  | ErrNotFound => true
  | ErrMsg _ => false
  | ErrWrap e' _ => errors_Is_ErrNotFound e'
  end.

Inductive result (A : Type) : Type :=
| Ok (a : A)
| Err (e : error).
Arguments Ok {A} a.
Arguments Err {A} e.

Definition is_Err {A} (r : result A) : Prop :=
  match r with Ok _ => False | Err _ => True end.

(** ** The state and error monad *)

Definition M (S A : Type) : Type := S -> result A * S.

Definition ret {S A} (a : A) : M S A := fun s => (Ok a, s).
Definition fail {S A} (e : error) : M S A := fun s => (Err e, s).
Definition bind {S A B} (m : M S A) (k : A -> M S B) : M S B :=
  fun s => match m s with
           | (Ok a, s') => k a s'
           | (Err e, s') => (Err e, s')
           end.
(** A pure fallible value, as a computation. *)
Definition lift {S A} (r : result A) : M S A := fun s => (r, s).
(** [errors.Wrap(err, msg)] around a whole computation. *)
Definition wrap {S A} (msg : string) (m : M S A) : M S A :=
  fun s => match m s with
           | (Ok a, s') => (Ok a, s')
           | (Err e, s') => (Err (ErrWrap e msg), s')
           end.

Notation "x <- m ;; k" := (bind m (fun x => k))
  (at level 100, m at next level, right associativity).
Notation "m ;;; k" := (bind m (fun _ => k))
  (at level 100, right associativity).

(** ** Data *)

Definition bytes : Type := list Byte.byte.
(** [sdk.Coins], kept as the list of (denomination, amount). *)
Definition Coins : Type := list (string * Z).

(** [launchtypes.Peer]: an id and a connection, which is a protobuf oneof. A
    connection that is neither a TCP address nor an HTTP tunnel (nil, or
    another case) is [Peer_NoConnection]. *)
Inductive Peer_Connection : Type :=
| Peer_TcpAddress (TcpAddress : string)
| Peer_HttpTunnel (Name Address : string)
| Peer_NoConnection.

Record launchtypes_Peer : Type := mkPeer {
  Id : string;
  Connection : Peer_Connection
}.

Record GenesisAccount : Type := mkGenesisAccount {
  acc_Address : string;
  acc_Coins : Coins
}.

Record VestingAccount : Type := mkVestingAccount {
  vest_Address : string;
  vest_TotalBalance : Coins;
  vest_Vesting : Coins;
  vest_EndTime : Z
}.

Record GenesisValidator : Type := mkGenesisValidator {
  Gentx : bytes;
  Peer : launchtypes_Peer
}.

Record GenesisInformation : Type := mkGenesisInformation {
  GenesisAccounts : list GenesisAccount;
  VestingAccounts : list VestingAccount;
  GenesisValidators : list GenesisValidator
}.

Record TunneledPeer : Type := mkTunneledPeer {
  Name : string;
  Address : string;
  NodeID : string;
  LocalPort : string
}.

Record Config : Type := mkConfig {
  TunneledPeers : list TunneledPeer
}.

(** The fields of [Chain] that are plain data. [launchID] is a [uint64]. *)
Record Chain : Type := mkChain {
  id : string;
  launchID : N;
  path : string;
  home : string;
  url : string;
  hash : string;
  genesisURL : string;
  genesisHash : string;
  launchTime : Z;
  isInitialized : bool;
  ref : string
}.

Inductive Status : Type := StatusOngoing | StatusDone.

(** A value of the [config.toml] tree, addressed by its dotted key. *)
Inductive TomlValue : Type :=
| TomlString (s : string)
| TomlBool (b : bool).

Global Instance TomlValue_eq_dec : EqDecision TomlValue.
Proof. solve_decision. Defined.

(** The genesis document, as far as the chain commands touch it. *)
Record Genesis : Type := mkGenesis {
  gen_accounts : list (string * Coins);
  gen_vesting : list (string * Coins * Coins * Z);
  gen_gentxs : list bytes;
  gen_time : Z
}.

Definition genesis_default : Genesis :=
  {| gen_accounts := []; gen_vesting := []; gen_gentxs := []; gen_time := 0 |}.

(** What [os.Stat] says of a path. *)
Inductive StatResult : Type :=
| StatOk
| StatNotExist
| StatError (e : error).

(** A binary found on the search path: its checksum can be computed, or
    reading it fails. *)
Inductive BinFile : Type :=
| BinSum (sum : string)
| BinUnreadable (e : error).

(** ** Calls to the collaborators

    Every call that leaves the package (the chain runtime and its commands,
    the file system, the TOML library, the event bus, the checksum and cache
    helpers) is recorded in the world's trace, in order. *)
Inductive Call : Type :=
| CHome
| CBinary
| CBuild
| CCommands
| CGenesisPath
| CGentxsPath
| CConfigTOMLPath
| CSPNConfigPath
| CInit
| CInitGenesis
| CDetectPrefix
| CAddGenesisAccount (address : string) (coins : Coins)
| CAddVestingAccount (address : string) (total vesting : Coins) (endTime : Z)
| CCollectGentxs
| CValidateGenesis
| CUnsafeReset
| CSetGenesisTime (genesisPath : string) (t : Z)
| CStat (name : string)
| CRemoveAll (name : string)
| CMkdirAll (name : string)
| CWriteFile (name : string) (data : bytes)
| CLoadFile (name : string)
| COpenFile (name : string)
| CWriteTo (tree : gmap string TomlValue)
| CSetSPNConfig (cfg : Config) (name : string)
| CBinaryChecksum (name : string)
| CCheckBinaryCache (launch : N) (binaryHash sourceHash : string)
| CCacheBinary (launch : N) (binaryHash sourceHash : string)
| CSend (status : Status) (msg : string)
| CPrintf (format : string) (args : list string).

(** ** The world *)

(** The part of the world the code never changes: where the chain runtime
    keeps its files, the name of its binary, the address prefix of the chain,
    what a build leaves on the search path (the name of the binary, and the
    file found under that name afterwards, if any), whether the cache file
    can be read, and which calls fail. [e_fails] is asked at every call that
    can return an error, with the trace of the calls made so far. *)
Record Env : Type := mkEnv {
  e_fails : list Call -> Call -> option error;
  e_home : string;
  e_genesis_path : string;
  e_gentxs_path : string;
  e_config_path : string;
  e_spn_path : string;
  e_binary : string;
  e_prefix : string;
  e_built : string * option BinFile;
  e_cache_err : option error
}.

Record World : Type := mkWorld {
  w_env : Env;
  w_trace : list Call;
  (** what [os.Stat] says of the chain home *)
  w_home_stat : StatResult;
  w_genesis : Genesis;
  (** the files written with [ioutil.WriteFile], by path *)
  w_files : gmap string bytes;
  (** the content of [config.toml], by dotted key *)
  w_config : gmap string TomlValue;
  (** the content of the file of tunneled peers, if written *)
  w_spn : option Config;
  (** the validator key of the node: the number of keys generated so far,
      0 when there is none *)
  w_valkey : N;
  (** the height of the chain state kept locally *)
  w_chain_state : N;
  (** the binaries on the search path, by name *)
  w_binaries : gmap string BinFile;
  (** the cached binaries: (launch id, source hash) to binary checksum *)
  w_cache : gmap (N * string) string
}.

Definition set_trace (t : list Call) (w : World) : World :=
  {| w_env := w_env w; w_trace := t; w_home_stat := w_home_stat w;
     w_genesis := w_genesis w; w_files := w_files w; w_config := w_config w;
     w_spn := w_spn w; w_valkey := w_valkey w;
     w_chain_state := w_chain_state w; w_binaries := w_binaries w;
     w_cache := w_cache w |}.
Definition set_home_stat (s : StatResult) (w : World) : World :=
  {| w_env := w_env w; w_trace := w_trace w; w_home_stat := s;
     w_genesis := w_genesis w; w_files := w_files w; w_config := w_config w;
     w_spn := w_spn w; w_valkey := w_valkey w;
     w_chain_state := w_chain_state w; w_binaries := w_binaries w;
     w_cache := w_cache w |}.
Definition set_genesis (g : Genesis) (w : World) : World :=
  {| w_env := w_env w; w_trace := w_trace w; w_home_stat := w_home_stat w;
     w_genesis := g; w_files := w_files w; w_config := w_config w;
     w_spn := w_spn w; w_valkey := w_valkey w;
     w_chain_state := w_chain_state w; w_binaries := w_binaries w;
     w_cache := w_cache w |}.
Definition set_files (f : gmap string bytes) (w : World) : World :=
  {| w_env := w_env w; w_trace := w_trace w; w_home_stat := w_home_stat w;
     w_genesis := w_genesis w; w_files := f; w_config := w_config w;
     w_spn := w_spn w; w_valkey := w_valkey w;
     w_chain_state := w_chain_state w; w_binaries := w_binaries w;
     w_cache := w_cache w |}.
Definition set_config (c : gmap string TomlValue) (w : World) : World :=
  {| w_env := w_env w; w_trace := w_trace w; w_home_stat := w_home_stat w;
     w_genesis := w_genesis w; w_files := w_files w; w_config := c;
     w_spn := w_spn w; w_valkey := w_valkey w;
     w_chain_state := w_chain_state w; w_binaries := w_binaries w;
     w_cache := w_cache w |}.
Definition set_spn (s : option Config) (w : World) : World :=
  {| w_env := w_env w; w_trace := w_trace w; w_home_stat := w_home_stat w;
     w_genesis := w_genesis w; w_files := w_files w; w_config := w_config w;
     w_spn := s; w_valkey := w_valkey w;
     w_chain_state := w_chain_state w; w_binaries := w_binaries w;
     w_cache := w_cache w |}.
Definition set_valkey (k : N) (w : World) : World :=
  {| w_env := w_env w; w_trace := w_trace w; w_home_stat := w_home_stat w;
     w_genesis := w_genesis w; w_files := w_files w; w_config := w_config w;
     w_spn := w_spn w; w_valkey := k;
     w_chain_state := w_chain_state w; w_binaries := w_binaries w;
     w_cache := w_cache w |}.
Definition set_chain_state (h : N) (w : World) : World :=
  {| w_env := w_env w; w_trace := w_trace w; w_home_stat := w_home_stat w;
     w_genesis := w_genesis w; w_files := w_files w; w_config := w_config w;
     w_spn := w_spn w; w_valkey := w_valkey w;
     w_chain_state := h; w_binaries := w_binaries w;
     w_cache := w_cache w |}.
Definition set_binaries (b : gmap string BinFile) (w : World) : World :=
  {| w_env := w_env w; w_trace := w_trace w; w_home_stat := w_home_stat w;
     w_genesis := w_genesis w; w_files := w_files w; w_config := w_config w;
     w_spn := w_spn w; w_valkey := w_valkey w;
     w_chain_state := w_chain_state w; w_binaries := b;
     w_cache := w_cache w |}.
Definition set_cache (c : gmap (N * string) string) (w : World) : World :=
  {| w_env := w_env w; w_trace := w_trace w; w_home_stat := w_home_stat w;
     w_genesis := w_genesis w; w_files := w_files w; w_config := w_config w;
     w_spn := w_spn w; w_valkey := w_valkey w;
     w_chain_state := w_chain_state w; w_binaries := w_binaries w;
     w_cache := c |}.

(** Records a call in the trace. *)
Definition log (c : Call) (w : World) : World :=
  set_trace (w_trace w ++ [c]) w.

(** A call that cannot return an error: it is recorded and has its effect. *)
Definition call_total {A} (c : Call) (eff : World -> A * World) : M World A :=
  fun w => let '(a, w') := eff (log c w) in (Ok a, w').

(** A call that can return an error: it is recorded; when the environment
    makes it fail it returns the error and has no effect. *)
Definition call {A} (c : Call) (eff : World -> A * World) : M World A :=
  fun w => match e_fails (w_env w) (w_trace w) c with
           | Some e => (Err e, log c w)
           | None => call_total c eff w
           end.

(** A call that only reads. *)
Definition reading {A} (f : World -> A) : World -> A * World :=
  fun w => (f w, w).
(** A call that only writes. *)
Definition writing (f : World -> World) : World -> unit * World :=
  fun w => (tt, f w).

(** ** The collaborators *)

(** *** The chain runtime ([chain.Chain]) and its commands *)

(** Modelled from the spec: the chain runtime [chain.Chain] is not under src/.
    Home, Binary, GenesisPath, GentxsPath and ConfigTOMLPath give the home
    directory, the name of the binary and the paths of the files of the chain;
    Commands gives the runner of the chain commands. Each can fail with an
    error of the runtime. *)
Definition chain_Home : M World string :=
  call CHome (reading (fun w => e_home (w_env w))).
Definition chain_Binary : M World string :=
  call CBinary (reading (fun w => e_binary (w_env w))).
Definition chain_GenesisPath : M World string :=
  call CGenesisPath (reading (fun w => e_genesis_path (w_env w))).
Definition chain_GentxsPath : M World string :=
  call CGentxsPath (reading (fun w => e_gentxs_path (w_env w))).
Definition chain_ConfigTOMLPath : M World string :=
  call CConfigTOMLPath (reading (fun w => e_config_path (w_env w))).
Definition chain_Commands : M World unit :=
  call CCommands (writing (fun w => w)).

(** What a build leaves on the search path. *)
Definition install (b : string * option BinFile) (bins : gmap string BinFile)
  : gmap string BinFile :=
  match b.2 with
  | Some f => <[b.1 := f]> bins
  | None => delete b.1 bins
  end.

(** Modelled from the spec: the Build of the chain runtime is not under src/.
    It builds the binary from the source and returns its name. *)
Definition chain_Build : M World string :=
  call CBuild (fun w =>
    ((e_built (w_env w)).1,
     set_binaries (install (e_built (w_env w)) (w_binaries w)) w)).

Definition add_account (address : string) (coins : Coins) (g : Genesis) : Genesis :=
  {| gen_accounts := gen_accounts g ++ [(address, coins)];
     gen_vesting := gen_vesting g; gen_gentxs := gen_gentxs g;
     gen_time := gen_time g |}.
Definition add_vesting (address : string) (total vesting : Coins) (endTime : Z)
    (g : Genesis) : Genesis :=
  {| gen_accounts := gen_accounts g;
     gen_vesting := gen_vesting g ++ [(address, total, vesting, endTime)];
     gen_gentxs := gen_gentxs g; gen_time := gen_time g |}.
Definition with_gentxs (txs : list bytes) (g : Genesis) : Genesis :=
  {| gen_accounts := gen_accounts g; gen_vesting := gen_vesting g;
     gen_gentxs := txs; gen_time := gen_time g |}.
Definition with_time (t : Z) (g : Genesis) : Genesis :=
  {| gen_accounts := gen_accounts g; gen_vesting := gen_vesting g;
     gen_gentxs := gen_gentxs g; gen_time := t |}.

(** [name] is the directory [dir] or lies under it. *)
Definition under (dir name : string) : bool :=
  bool_decide (name = dir) || String.prefix (dir +:+ "/") name.

(** The order of two files by their names. *)
Definition name_le (kv1 kv2 : string * bytes) : Prop :=
  String.leb kv1.1 kv2.1 = true.
Global Instance name_le_dec : RelDecision name_le.
Proof. intros kv1 kv2. unfold name_le. apply _. Defined.

(** The contents of the files under a directory, in the order of their
    names. *)
Definition files_under (dir : string) (files : gmap string bytes) : list bytes :=
  (merge_sort name_le
     (map_to_list (filter (fun kv : string * bytes => under dir kv.1 = true) files))).*2.

(** Modelled from the spec: the commands of the chain runtime are not under
    src/. AddGenesisAccount makes a funded account entry, AddVestingAccount
    an entry that carries total balance, vesting amount and end time,
    CollectGentxs folds the join transactions of the gentx directory into the
    genesis, ValidateGenesis checks the genesis, UnsafeReset drops the chain
    state accumulated locally. *)
Definition cmd_AddGenesisAccount (address : string) (coins : Coins) : M World unit :=
  call (CAddGenesisAccount address coins)
       (writing (fun w => set_genesis (add_account address coins (w_genesis w)) w)).
Definition cmd_AddVestingAccount (address : string) (total vesting : Coins)
    (endTime : Z) : M World unit :=
  call (CAddVestingAccount address total vesting endTime)
       (writing (fun w =>
          set_genesis (add_vesting address total vesting endTime (w_genesis w)) w)).
Definition cmd_CollectGentxs : M World unit :=
  call CCollectGentxs
       (writing (fun w =>
          set_genesis
            (with_gentxs (files_under (e_gentxs_path (w_env w)) (w_files w))
                         (w_genesis w)) w)).
Definition cmd_ValidateGenesis : M World unit :=
  call CValidateGenesis (writing (fun w => w)).
Definition cmd_UnsafeReset : M World unit :=
  call CUnsafeReset (writing (set_chain_state 0%N)).

(** *** Other methods of [Chain], not under src/ *)

Definition default_config : gmap string TomlValue :=
  <["p2p.persistent_peers" := TomlString EmptyString]>
    (<["p2p.allow_duplicate_ip" := TomlBool false]> ∅).

(** Modelled from the spec: [Chain.Init] is not under src/. It performs the
    full initialization: it generates a fresh local validator key and the
    default configuration, under a home directory that exists afterwards. *)
Definition c_Init (c : Chain) : M World unit :=
  call CInit
       (writing (fun w =>
          set_valkey (w_valkey w + 1)%N
            (set_config default_config
               (set_genesis genesis_default (set_home_stat StatOk w))))).

(** Modelled from the spec: [Chain.initGenesis] is not under src/. It
    re-derives the local genesis defaults; it does not touch the validator
    key. *)
Definition c_initGenesis (c : Chain) : M World unit :=
  call CInitGenesis (writing (set_genesis genesis_default)).

(** Modelled from the spec: [Chain.detectPrefix] is not under src/; it gives
    the address prefix of the target chain. *)
Definition c_detectPrefix (c : Chain) : M World string :=
  call CDetectPrefix (reading (fun w => e_prefix (w_env w))).

(** Modelled from the spec: [Chain.SPNConfigPath] and [SetSPNConfig] are not
    under src/; they give the path of the record file of the local tunnel
    bindings and write that file. *)
Definition c_SPNConfigPath (c : Chain) : M World string :=
  call CSPNConfigPath (reading (fun w => e_spn_path (w_env w))).
Definition SetSPNConfig (cfg : Config) (name : string) : M World unit :=
  call (CSetSPNConfig cfg name) (writing (set_spn (Some cfg))).

(** Modelled from the spec: [cosmosutil.SetGenesisTime] is not under src/; it
    sets the genesis time of the genesis document. *)
Definition cosmosutil_SetGenesisTime (genesisPath : string) (t : Z) : M World unit :=
  call (CSetGenesisTime genesisPath t)
       (writing (fun w => set_genesis (with_time t (w_genesis w)) w)).

(** *** The file system, the TOML library, the event bus, the output *)

(** [os.Stat]: the only path the code asks about is the chain home. The
    error is part of the value, as the caller switches on it. *)
Definition os_Stat (name : string) : M World StatResult :=
  call_total (CStat name) (reading w_home_stat).
Definition os_RemoveAll (name : string) : M World unit :=
  call (CRemoveAll name)
       (writing (fun w =>
          set_files (filter (fun kv : string * bytes => under name kv.1 = false)
                            (w_files w)) w)).
Definition os_MkdirAll (name : string) : M World unit :=
  call (CMkdirAll name) (writing (fun w => w)).
Definition ioutil_WriteFile (name : string) (data : bytes) : M World unit :=
  call (CWriteFile name data)
       (writing (fun w => set_files (<[name := data]> (w_files w)) w)).
(** [filepath.Join] of a clean directory path and a file name. *)
Definition filepath_Join (dir name : string) : string := dir +:+ "/" +:+ name.

(** [toml.LoadFile]: the only file the code loads is [config.toml]. *)
Definition toml_LoadFile (name : string) : M World (gmap string TomlValue) :=
  call (CLoadFile name) (reading w_config).
(** [os.OpenFile(name, os.O_RDWR|os.O_TRUNC, 0644)] truncates the file. *)
Definition os_OpenFile (name : string) : M World unit :=
  call (COpenFile name) (writing (set_config ∅)).
Definition toml_WriteTo (tree : gmap string TomlValue) : M World unit :=
  call (CWriteTo tree) (writing (set_config tree)).

(** Modelled from the spec: the event bus is not under src/. It is a sink of
    progress notifications; sending returns no error. *)
Definition ev_Send (status : Status) (msg : string) : M World unit :=
  call_total (CSend status msg) (writing (fun w => w)).
Definition fmt_Printf (format : string) (args : list string) : M World unit :=
  call_total (CPrintf format args) (writing (fun w => w)).

(** [strconv.Itoa]. The argument below is a slice index plus 22000, which
    never leaves the range of [int]. *)
Definition strconv_Itoa (n : Z) : string := pretty n.

(** [strings.Join] *)
Fixpoint strings_Join (elems : list string) (sep : string) : string :=
  match elems with
  | [] => EmptyString
  | x :: rest =>
      match rest with
      | [] => x
      | _ :: _ => x +:+ sep +:+ strings_Join rest sep
      end
  end.

(** *** The checksum of a binary and the cache of built binaries *)

(** Modelled from the spec: [checksum.BinaryChecksum] is not under src/. It
    recomputes the checksum of the binary currently on disk; it fails with an
    error of the tool-not-found class when no binary of that name is found,
    and with another error when the binary cannot be read. With an error it
    returns the empty checksum. *)
Definition checksum_BinaryChecksum (name : string) : M World (string * option error) :=
  call_total (CBinaryChecksum name)
    (reading (fun w =>
       match w_binaries w !! name with
       | Some (BinSum sum) => (sum, None)
       | Some (BinUnreadable e) => (EmptyString, Some e)
       | None => (EmptyString, Some ErrNotFound)
       end)).

(** Modelled from the spec: [CheckBinaryCacheForLaunchID] is not under src/.
    The lookup is a hit when a record exists for the exact pair of launch
    identity and source hash and its checksum is the given one. It returns an
    error when the cache file cannot be read. *)
Definition CheckBinaryCacheForLaunchID (launch : N) (binaryHash sourceHash : string)
  : M World bool :=
  fun w =>
    let w' := log (CCheckBinaryCache launch binaryHash sourceHash) w in
    match e_cache_err (w_env w) with
    | Some e => (Err e, w')
    | None =>
        (Ok (bool_decide (w_cache w !! (launch, sourceHash) = Some binaryHash)), w')
    end.

(** Modelled from the spec: [CacheBinaryForLaunchID] is not under src/. It
    stores the record of launch identity, source hash and binary checksum. *)
Definition CacheBinaryForLaunchID (launch : N) (binaryHash sourceHash : string)
  : M World unit :=
  fun w =>
    let w' := log (CCacheBinary launch binaryHash sourceHash) w in
    match e_cache_err (w_env w) with
    | Some e => (Err e, w')
    | None => (Ok tt, set_cache (<[(launch, sourceHash) := binaryHash]> (w_cache w)) w')
    end.

(** ** networkchain.go *)

(** Lines 248-265 of [Build]: the check of the binary cache, made when the
    chain has a launch id. [Some binaryName] when [Build] returns there. *)
Definition checkBinaryCache (c : Chain) : M World (option string) :=
  if (launchID c =? 0)%N then ret None
  else
    binaryName <- chain_Binary ;;
    r <- checksum_BinaryChecksum binaryName ;;
    match r.2 with
    | Some err => if negb (errors_Is_ErrNotFound err) then fail err else ret tt
    | None => ret tt
    end ;;;
    binaryMatch <- CheckBinaryCacheForLaunchID (launchID c) r.1 (hash c) ;;
    if binaryMatch then ret (Some binaryName) else ret None.

(** Lines 267-282 of [Build]: the build, and the record of its checksum. *)
Definition buildAndCache (c : Chain) : M World string :=
  binaryName <- chain_Build ;;
  r <- checksum_BinaryChecksum binaryName ;;
  match r.2 with
  | Some err => fail err
  | None => ret tt
  end ;;;
  CacheBinaryForLaunchID (launchID c) r.1 (hash c) ;;;
  ret binaryName.

(** [Build] builds chain sources, also checks if source was already built. *)
Definition Build (c : Chain) : M World string :=
  cached <- checkBinaryCache c ;;
  match cached with
  | Some binaryName => ret binaryName
  | None => buildAndCache c
  end.

Definition IsHomeDirExist (c : Chain) : M World bool :=
  home <- chain_Home ;;
  st <- os_Stat home ;;
  match st with
  | StatNotExist => ret false
  | StatOk => ret true
  | StatError e => fail e
  end.

(** ** prepare.go *)

Section PrepareGo.

(** [cosmosutil.VerifyPeerFormat], [cosmosutil.ChangeAddressPrefix] and the
    constant [clispinner.OK] are not under src/. *)
Variable VerifyPeerFormat : launchtypes_Peer -> bool.
Variable ChangeAddressPrefix : string -> string -> result string.
Variable clispinner_OK : string.


(** The loop of [applyGenesisAccounts]. *)
Fixpoint applyGenesisAccounts_loop (genesisAccs : list GenesisAccount)
    (addressPrefix : string) : M World unit :=
  match genesisAccs with
  | [] => ret tt
  | acc :: rest =>
      address <- lift (ChangeAddressPrefix (acc_Address acc) addressPrefix) ;;
      cmd_AddGenesisAccount address (acc_Coins acc) ;;;
      applyGenesisAccounts_loop rest addressPrefix
  end.

Definition applyGenesisAccounts (genesisAccs : list GenesisAccount)
    (addressPrefix : string) : M World unit :=
  chain_Commands ;;;
  applyGenesisAccounts_loop genesisAccs addressPrefix.

(** The loop of [applyVestingAccounts]. *)
Fixpoint applyVestingAccounts_loop (vestingAccs : list VestingAccount)
    (addressPrefix : string) : M World unit :=
  match vestingAccs with
  | [] => ret tt
  | acc :: rest =>
      address <- lift (ChangeAddressPrefix (vest_Address acc) addressPrefix) ;;
      cmd_AddVestingAccount address (vest_TotalBalance acc) (vest_Vesting acc)
                            (vest_EndTime acc) ;;;
      applyVestingAccounts_loop rest addressPrefix
  end.

Definition applyVestingAccounts (vestingAccs : list VestingAccount)
    (addressPrefix : string) : M World unit :=
  chain_Commands ;;;
  applyVestingAccounts_loop vestingAccs addressPrefix.

(** The name of the i-th gentx file: [fmt.Sprintf("gentx%d.json", i)]. *)
Definition gentxName (i : nat) : string :=
  "gentx" +:+ strconv_Itoa (Z.of_nat i) +:+ ".json".

(** The loop that writes the gentxs, from index [i] on. *)
Fixpoint writeGentxs (gentxDir : string) (i : nat) (vals : list GenesisValidator)
  : M World unit :=
  match vals with
  | [] => ret tt
  | val :: rest =>
      let gentxPath := filepath_Join gentxDir (gentxName i) in
      ioutil_WriteFile gentxPath (Gentx val) ;;;
      writeGentxs gentxDir (S i) rest
  end.

(** The peer string of a direct peer, [fmt.Sprintf("%s@%s", ...)], and of a
    tunneled peer, [fmt.Sprintf("%s@127.0.0.1:%s", ...)]. *)
Definition directAddress (nodeID tcpAddress : string) : string :=
  nodeID +:+ "@" +:+ tcpAddress.
Definition tunnelAddress (nodeID localPort : string) : string :=
  nodeID +:+ "@127.0.0.1:" +:+ localPort.

(** The loop of [updateConfigFromGenesisValidators], from index [i] on, with
    the two slices it appends to. *)
Fixpoint peersLoop (i : nat) (vals : list GenesisValidator)
    (p2pAddresses : list string) (tunnelAddresses : list TunneledPeer)
  : result (list string * list TunneledPeer) :=
  match vals with
  | [] => Ok (p2pAddresses, tunnelAddresses)
  | val :: rest =>
      if negb (VerifyPeerFormat (Peer val)) then
        Err (ErrMsg ("invalid peer: " +:+ Id (Peer val)))
      else
        match Connection (Peer val) with
        | Peer_TcpAddress tcpAddress =>
            peersLoop (S i) rest
              (p2pAddresses ++ [directAddress (Id (Peer val)) tcpAddress])
              tunnelAddresses
        | Peer_HttpTunnel name address =>
            let tunneledPeer :=
              {| Name := name; Address := address; NodeID := Id (Peer val);
                 LocalPort := strconv_Itoa (Z.of_nat i + 22000) |} in
            peersLoop (S i) rest
              (p2pAddresses ++
                 [tunnelAddress (NodeID tunneledPeer) (LocalPort tunneledPeer)])
              (tunnelAddresses ++ [tunneledPeer])
        | Peer_NoConnection => Err (ErrMsg "invalid peer type")
        end
  end.

(** [updateConfigFromGenesisValidators] adds the peer addresses into the
    config.toml of the chain. *)
Definition updateConfigFromGenesisValidators (c : Chain)
    (genesisVals : list GenesisValidator) : M World unit :=
  r <- lift (peersLoop 0 genesisVals [] []) ;;
  let p2pAddresses := r.1 in
  let tunnelAddresses := r.2 in
  (if (0 <? length p2pAddresses)%nat then
     configPath <- chain_ConfigTOMLPath ;;
     configToml <- toml_LoadFile configPath ;;
     let configToml :=
       <["p2p.persistent_peers" := TomlString (strings_Join p2pAddresses ",")]>
         configToml in
     let configToml :=
       if (0 <? length tunnelAddresses)%nat
       then <["p2p.allow_duplicate_ip" := TomlBool true]> configToml
       else configToml in
     os_OpenFile configPath ;;;
     toml_WriteTo configToml
   else ret tt) ;;;
  (if (0 <? length tunnelAddresses)%nat then
     tunneledPeersConfigPath <- c_SPNConfigPath c ;;
     SetSPNConfig {| TunneledPeers := tunnelAddresses |} tunneledPeersConfigPath
   else ret tt).

(** [applyGenesisValidators] gathers the validator gentxs into the genesis
    and adds peers in config. *)
Definition applyGenesisValidators (c : Chain)
    (genesisVals : list GenesisValidator) : M World unit :=
  match genesisVals with
  | [] => ret tt
  | _ :: _ =>
      gentxDir <- chain_GentxsPath ;;
      os_RemoveAll gentxDir ;;;
      os_MkdirAll gentxDir ;;;
      writeGentxs gentxDir 0 genesisVals ;;;
      chain_Commands ;;;
      cmd_CollectGentxs ;;;
      updateConfigFromGenesisValidators c genesisVals
  end.

(** [buildGenesis] builds the genesis for the chain from the launch approved
    requests. *)
Definition buildGenesis (c : Chain) (gi : GenesisInformation) : M World unit :=
  ev_Send StatusOngoing "Building the genesis" ;;;
  addressPrefix <- wrap "error detecting chain prefix" (c_detectPrefix c) ;;
  wrap "error applying genesis accounts to genesis"
       (applyGenesisAccounts (GenesisAccounts gi) addressPrefix) ;;;
  wrap "error applying vesting accounts to genesis"
       (applyVestingAccounts (VestingAccounts gi) addressPrefix) ;;;
  wrap "error applying genesis validators to genesis"
       (applyGenesisValidators c (GenesisValidators gi)) ;;;
  genesisPath <- wrap "genesis of the blockchain can't be read" chain_GenesisPath ;;
  wrap "genesis time can't be set"
       (cosmosutil_SetGenesisTime genesisPath (launchTime c)) ;;;
  ev_Send StatusDone "Genesis built".

(** The entry branch of [Prepare], chosen from what [os.Stat] says of the
    chain home; it gives the name of the binary. *)
Definition prepareEntry (c : Chain) (st : StatResult) : M World string :=
  match st with
  | StatNotExist =>
      c_Init c ;;;
      chain_Binary
  | StatError err => fail err
  | StatOk =>
      ev_Send StatusOngoing "Building the blockchain" ;;;
      binaryName <- chain_Build ;;
      ev_Send StatusDone "Blockchain build complete" ;;;
      ev_Send StatusOngoing "Initializing the genesis" ;;;
      c_initGenesis c ;;;
      ev_Send StatusDone "Genesis initialized" ;;;
      ret binaryName
  end.

(** What [Prepare] does after the entry branch, lines 73-96: it builds the
    genesis, validates it, resets the saved state and prints how to start the
    node. *)
Definition prepareFinish (c : Chain) (gi : GenesisInformation)
    (chainHome binaryName : string) : M World unit :=
  buildGenesis c gi ;;;
  chain_Commands ;;;
  cmd_ValidateGenesis ;;;
  cmd_UnsafeReset ;;;
  fmt_Printf "%s Chain is prepared for launch\n" [clispinner_OK] ;;;
  fmt_Printf "\nYou can start your node by running the following command:\n" [] ;;;
  fmt_Printf "\t%s start --home %s\n" [binaryName; chainHome].

(** [Prepare] prepares the chain to be launched from genesis information. *)
Definition Prepare (c : Chain) (gi : GenesisInformation) : M World unit :=
  chainHome <- chain_Home ;;
  st <- os_Stat chainHome ;;
  binaryName <- prepareEntry c st ;;
  prepareFinish c gi chainHome binaryName.

End PrepareGo.

(** ** fetchSource (networkchain.go) *)

(** [git.CloneOptions], the fields the code sets. *)
Record CloneOptions : Type := mkCloneOptions {
  URL : string;
  ReferenceName : string;
  SingleBranch : bool
}.

(** A cloned [git.Repository]: the hash of its HEAD, and the commits its
    revisions resolve to ([ResolveRevision]). *)
Record Repository : Type := mkRepository {
  repo_head : string;
  repo_revisions : gmap string string
}.

Inductive GitCall : Type :=
| GMkdirTemp
| GMkdirAll (name : string)
| GPlainClone (name : string) (o : CloneOptions)
| GWorktree
| GResolveRevision (rev : string)
| GCheckout (name : string) (commit : string)
| GHead.

(** The world of a fetch: which calls fail, the calls made, the directory
    [os.MkdirTemp] creates, what a clone with given options obtains from the
    remote (nothing when the remote or the reference does not exist), and the
    commit checked out in each local work tree. *)
Record Git : Type := mkGit {
  g_fails : list GitCall -> GitCall -> option error;
  g_trace : list GitCall;
  g_temp : string;
  g_remote : CloneOptions -> option Repository;
  g_worktrees : gmap string string
}.

Definition g_log (c : GitCall) (g : Git) : Git :=
  {| g_fails := g_fails g; g_trace := g_trace g ++ [c]; g_temp := g_temp g;
     g_remote := g_remote g; g_worktrees := g_worktrees g |}.
Definition g_checkout (name commit : string) (g : Git) : Git :=
  {| g_fails := g_fails g; g_trace := g_trace g; g_temp := g_temp g;
     g_remote := g_remote g;
     g_worktrees := <[name := commit]> (g_worktrees g) |}.

(** A call of the fetch: recorded, failing when the environment says so, and
    otherwise giving the result [body] computes. *)
Definition g_call {A} (c : GitCall) (body : M Git A) : M Git A :=
  fun g => match g_fails g (g_trace g) c with
           | Some e => (Err e, g_log c g)
           | None => body (g_log c g)
           end.

Definition os_MkdirTemp : M Git string :=
  g_call GMkdirTemp (fun g => (Ok (g_temp g), g)).
Definition g_MkdirAll (name : string) : M Git unit :=
  g_call (GMkdirAll name) (ret tt).
(** [git.PlainCloneContext]: clones into [name] and checks out the HEAD of
    the clone. The handle it returns remembers its work tree. *)
Definition git_PlainCloneContext (name : string) (o : CloneOptions)
  : M Git (string * Repository) :=
  g_call (GPlainClone name o)
    (fun g => match g_remote g o with
              | Some repo => (Ok (name, repo), g_checkout name (repo_head repo) g)
              | None => (Err (ErrMsg "repository not found"), g)
              end).
Definition repo_Worktree (repo : string * Repository) : M Git string :=
  g_call GWorktree (ret repo.1).
Definition repo_ResolveRevision (repo : string * Repository) (rev : string)
  : M Git string :=
  g_call (GResolveRevision rev)
    (match repo_revisions repo.2 !! rev with
     | Some h => ret h
     | None => fail (ErrMsg "reference not found")
     end).
Definition wt_Checkout (wt : string) (commit : string) : M Git unit :=
  g_call (GCheckout wt commit) (fun g => (Ok tt, g_checkout wt commit g)).
Definition repo_Head (repo : string * Repository) : M Git string :=
  g_call GHead (ret (repo_head repo.2)).

Definition is_empty_string (s : string) : bool :=
  match s with EmptyString => true | String _ _ => false end.

(** The clone options of [fetchSource]: the clone is restricted to the
    reference when one is given. *)
Definition cloneOptions (url ref : string) : CloneOptions :=
  if is_empty_string ref
  then {| URL := url; ReferenceName := EmptyString; SingleBranch := false |}
  else {| URL := url; ReferenceName := ref; SingleBranch := true |}.

(** [fetchSource] fetches the chain source from url and returns a temporary
    path where source is saved, and the hash of the source. *)
Definition fetchSource (url ref customHash : string) : M Git (string * string) :=
  path <- os_MkdirTemp ;;
  g_MkdirAll path ;;;
  let gitoptions := cloneOptions url ref in
  repo <- git_PlainCloneContext path gitoptions ;;
  if negb (is_empty_string customHash) then
    let hash := customHash in
    wt <- repo_Worktree repo ;;
    githash <- repo_ResolveRevision repo customHash ;;
    wt_Checkout wt githash ;;;
    ret (path, hash)
  else
    githash <- repo_Head repo ;;
    ret (path, githash).

(** ** What the properties speak of *)

(** [keeps I m]: the world after [m] is related by [I] to the world before,
    whether [m] fails or not. *)
Definition keeps (I : World -> World -> Prop) {A} (m : M World A) : Prop :=
  forall w, I w (m w).2.

(** "The part [f] of the world is the same." *)
Definition same {X} (f : World -> X) : World -> World -> Prop :=
  fun w w' => f w' = f w.

(** "The trace grew, by calls that satisfy [p]." *)
Definition emits (p : Call -> bool) : World -> World -> Prop :=
  fun w w' => exists evs, w_trace w' = w_trace w ++ evs /\
                          Forall (fun c => p c = true) evs.

(** [fails m]: the computation returns an error, in every world. *)
Definition fails {S A} (m : M S A) : Prop := forall s, is_Err (m s).1.

(** The calls [buildGenesis] can make. *)
Definition genesis_calls (c : Call) : bool :=
  match c with
  | CSend _ _ | CDetectPrefix | CCommands | CAddGenesisAccount _ _
  | CAddVestingAccount _ _ _ _ | CGentxsPath | CRemoveAll _ | CMkdirAll _
  | CWriteFile _ _ | CCollectGentxs | CConfigTOMLPath | CLoadFile _
  | COpenFile _ | CWriteTo _ | CSPNConfigPath | CSetSPNConfig _ _
  | CGenesisPath | CSetGenesisTime _ _ => true
  | _ => false
  end.

(** The calls [Prepare] can make when the chain home exists. *)
Definition rebuild_calls (c : Call) : bool :=
  match c with
  | CHome | CStat _ | CBuild | CInitGenesis | CValidateGenesis | CUnsafeReset
  | CPrintf _ _ => true
  | _ => genesis_calls c
  end.

(** The calls made between two worlds, the second reached from the first. *)
Definition new_calls (w w' : World) : list Call :=
  drop (length (w_trace w)) (w_trace w').

(** A validator whose peer descriptor is malformed: the format check rejects
    it, or its connection is neither a direct address nor a tunnel. *)
Definition malformed (VerifyPeerFormat : launchtypes_Peer -> bool)
    (val : GenesisValidator) : Prop :=
  VerifyPeerFormat (Peer val) = false \/
  Connection (Peer val) = Peer_NoConnection.

(** ** A concrete world, for the examples *)

(** Modelled from the spec: [cosmosutil.VerifyPeerFormat] is not under src/. A
    descriptor is well formed when it matches the direct-address or the
    tunnel topology. *)
Definition VerifyPeerFormat_topology (p : launchtypes_Peer) : bool :=
  match Connection p with
  | Peer_TcpAddress _ | Peer_HttpTunnel _ _ => true
  | Peer_NoConnection => false
  end.

(** A stand-in for [cosmosutil.ChangeAddressPrefix] in the examples. *)
Definition reprefix (address addressPrefix : string) : result string :=
  Ok (addressPrefix +:+ ":" +:+ address).

Definition no_failure {C} : list C -> C -> option error := fun _ _ => None.

Definition env0 : Env :=
  {| e_fails := no_failure;
     e_home := "/spn/1";
     e_genesis_path := "/spn/1/config/genesis.json";
     e_gentxs_path := "/spn/1/config/gentx";
     e_config_path := "/spn/1/config/config.toml";
     e_spn_path := "/spn/1/spn.yml";
     e_binary := "chaind";
     e_prefix := "cosmos";
     e_built := ("chaind", Some (BinSum "5e1f"));
     e_cache_err := None |}.

(** A prepared node: its home exists, it has a validator key, the default
    genesis and configuration; no binary is cached. *)
Definition world0 : World :=
  {| w_env := env0; w_trace := []; w_home_stat := StatOk;
     w_genesis := genesis_default; w_files := ∅; w_config := default_config;
     w_spn := None; w_valkey := 1%N; w_chain_state := 0%N;
     w_binaries := ∅; w_cache := ∅ |}.

Definition chain0 : Chain :=
  {| id := "spn-1"; launchID := 1%N; path := "/tmp/src"; home := "/spn/1";
     url := "https://example.com/chain.git"; hash := "c0ffee";
     genesisURL := EmptyString; genesisHash := EmptyString;
     launchTime := 1700000000; isInitialized := false; ref := EmptyString |}.

Definition gentx_of (s : string) : bytes := String.list_byte_of_string s.

Definition val_direct : GenesisValidator :=
  {| Gentx := gentx_of "tx-direct";
     Peer := {| Id := "V1"; Connection := Peer_TcpAddress "1.2.3.4:26656" |} |}.
Definition val_tunnel : GenesisValidator :=
  {| Gentx := gentx_of "tx-tunnel";
     Peer := {| Id := "V2";
                Connection := Peer_HttpTunnel "relayA" "https://relay-a" |} |}.
Definition val_malformed : GenesisValidator :=
  {| Gentx := gentx_of "tx-malformed";
     Peer := {| Id := "V3"; Connection := Peer_NoConnection |} |}.

(** One account, one well-formed validator and one malformed validator. *)
Definition gi_malformed : GenesisInformation :=
  {| GenesisAccounts := [ {| acc_Address := "spn1qq"; acc_Coins := [("stake", 100)] |} ];
     VestingAccounts := [];
     GenesisValidators := [val_direct; val_malformed] |}.

(** No record of the cache holds the empty checksum. *)
Definition cache_sums_nonempty (w : World) : Prop :=
  map_Forall (fun (_ : N * string) (sum : string) => sum <> EmptyString) (w_cache w).

(** The checksums of the world are not empty: those of the cache, of the
    binaries on the search path and of the binary a build leaves there. *)
Definition wf_world (w : World) : Prop :=
  cache_sums_nonempty w /\
  map_Forall (fun (_ : string) (f : BinFile) => f <> BinSum EmptyString) (w_binaries w) /\
  (e_built (w_env w)).2 <> Some (BinSum EmptyString).

(** The world of [world0] after a build of [chain0] was cached: the binary is
    on the search path and the cache records its checksum. *)
Definition world_cached : World :=
  set_cache (<[(1%N, "c0ffee") := "5e1f"]> ∅)
    (set_binaries (<["chaind" := BinSum "5e1f"]> ∅) world0).

(** An ad-hoc chain, tied to no launch: its launch id is zero. *)
Definition chain_adhoc : Chain :=
  {| id := "adhoc"; launchID := 0%N; path := "/tmp/src"; home := "/spn/0";
     url := "https://example.com/chain.git"; hash := "c0ffee";
     genesisURL := EmptyString; genesisHash := EmptyString;
     launchTime := 0; isInitialized := false; ref := EmptyString |}.

(** A world where the build leaves its binary outside the search path: no
    call fails, but no binary named [chaind] is found, before or after. *)
Definition world_nopath : World :=
  {| w_env :=
       {| e_fails := no_failure; e_home := "/spn/1";
          e_genesis_path := "/spn/1/config/genesis.json";
          e_gentxs_path := "/spn/1/config/gentx";
          e_config_path := "/spn/1/config/config.toml";
          e_spn_path := "/spn/1/spn.yml";
          e_binary := "chaind"; e_prefix := "cosmos";
          e_built := ("chaind", None); e_cache_err := None |};
     w_trace := []; w_home_stat := StatOk; w_genesis := genesis_default;
     w_files := ∅; w_config := default_config; w_spn := None;
     w_valkey := 1%N; w_chain_state := 0%N; w_binaries := ∅; w_cache := ∅ |}.

(** The local port of the validator of index [i]: [strconv.Itoa(i + 22000)]. *)
Definition localPort (i : nat) : string := strconv_Itoa (Z.of_nat i + 22000).

(** The local tunnel binding of the validator of index [i], a tunnel named
    [name] at [address]. *)
Definition tunnelOf (i : nat) (val : GenesisValidator) (name address : string)
  : TunneledPeer :=
  {| Name := name; Address := address; NodeID := Id (Peer val);
     LocalPort := localPort i |}.

(** The peer string of the validator of index [i]. *)
Definition peerString (i : nat) (val : GenesisValidator) : string :=
  match Connection (Peer val) with
  | Peer_TcpAddress tcpAddress => directAddress (Id (Peer val)) tcpAddress
  | Peer_HttpTunnel _ _ => tunnelAddress (Id (Peer val)) (localPort i)
  | Peer_NoConnection => EmptyString
  end.

Definition is_tunnel (val : GenesisValidator) : Prop :=
  exists name address, Connection (Peer val) = Peer_HttpTunnel name address.

(** The three validators of the scenario: one direct, two tunneled. *)
Definition scenario (V1id V2id V3id addressA addressB : string)
  : list GenesisValidator :=
  [ {| Gentx := gentx_of "tx1";
       Peer := {| Id := V1id; Connection := Peer_TcpAddress "1.2.3.4:26656" |} |};
    {| Gentx := gentx_of "tx2";
       Peer := {| Id := V2id; Connection := Peer_HttpTunnel "relayA" addressA |} |};
    {| Gentx := gentx_of "tx3";
       Peer := {| Id := V3id; Connection := Peer_HttpTunnel "relayB" addressB |} |} ].

(** The world of [world0] after the peers of one tunneled validator were
    configured. *)
Definition world_tunneled : World :=
  (updateConfigFromGenesisValidators VerifyPeerFormat_topology chain0
     [val_tunnel] world0).2.

(** The calls that write a file with [ioutil.WriteFile]. *)
Definition is_write (c : Call) : bool :=
  match c with CWriteFile _ _ => true | _ => false end.

(** Every call. *)
Definition any_call (c : Call) : bool := true.

(** The three lines [Prepare] prints at the end. *)
Definition prepared_output (clispinner_OK binaryName chainHome : string) : list Call :=
  [ CPrintf "%s Chain is prepared for launch\n" [clispinner_OK];
    CPrintf "\nYou can start your node by running the following command:\n" [];
    CPrintf "\t%s start --home %s\n" [binaryName; chainHome] ].

(** The calls that read or write the binary cache, or compute a checksum. *)
Definition is_cache_call (c : Call) : bool :=
  match c with
  | CBinaryChecksum _ | CCheckBinaryCache _ _ _ | CCacheBinary _ _ _ => true
  | _ => false
  end.

(** Genesis information with an account, a vesting account, a direct and a
    tunneled validator. *)
Definition gi0 : GenesisInformation :=
  {| GenesisAccounts := [ {| acc_Address := "spn1qq"; acc_Coins := [("stake", 100)] |} ];
     VestingAccounts :=
       [ {| vest_Address := "spn1zz"; vest_TotalBalance := [("stake", 50)];
            vest_Vesting := [("stake", 30)]; vest_EndTime := 1800000000 |} ];
     GenesisValidators := [val_direct; val_tunnel] |}.

(** A node that was never prepared: no home, no validator key. *)
Definition world_fresh : World :=
  set_home_stat StatNotExist (set_valkey 0%N world0).

(** A remote with two commits; its HEAD is the second. A clone of the whole
    remote resolves both commits. *)
Definition repo0 : Repository :=
  {| repo_head := "bbbb";
     repo_revisions := <["aaaa" := "aaaa"]> (<["bbbb" := "bbbb"]> ∅) |}.

Definition git0 : Git :=
  {| g_fails := no_failure; g_trace := []; g_temp := "/tmp/0";
     g_remote := fun o =>
       if bool_decide (URL o = "https://example.com/chain.git")
       then Some repo0 else None;
     g_worktrees := ∅ |}.

(** ** More of what the properties speak of *)

(** The environment makes no call fail. *)
Definition no_call_fails (w : World) : Prop :=
  forall t c, e_fails (w_env w) t c = None.

(** The genesis account [acc] re-encodes to the entry [o] of the genesis. *)
Definition reencoded_account (ChangeAddressPrefix : string -> string -> result string)
    (addressPrefix : string) (acc : GenesisAccount) (o : string * Coins) : Prop :=
  ChangeAddressPrefix (acc_Address acc) addressPrefix = Ok o.1 /\ o.2 = acc_Coins acc.

(** The vesting account [acc] re-encodes to the entry [o] of the genesis. *)
Definition reencoded_vesting (ChangeAddressPrefix : string -> string -> result string)
    (addressPrefix : string) (acc : VestingAccount)
    (o : string * Coins * Coins * Z) : Prop :=
  ChangeAddressPrefix (vest_Address acc) addressPrefix = Ok o.1.1.1 /\
  o.1.1.2 = vest_TotalBalance acc /\ o.1.2 = vest_Vesting acc /\
  o.2 = vest_EndTime acc.

(** The world after the call that adds one account, one vesting account. *)
Definition added_account (w : World) (o : string * Coins) : World :=
  set_genesis (add_account o.1 o.2 (w_genesis (log (CAddGenesisAccount o.1 o.2) w)))
              (log (CAddGenesisAccount o.1 o.2) w).
Definition added_vesting (w : World) (o : string * Coins * Coins * Z) : World :=
  set_genesis
    (add_vesting o.1.1.1 o.1.1.2 o.1.2 o.2
       (w_genesis (log (CAddVestingAccount o.1.1.1 o.1.1.2 o.1.2 o.2) w)))
    (log (CAddVestingAccount o.1.1.1 o.1.1.2 o.1.2 o.2) w).

Definition account_call (o : string * Coins) : Call := CAddGenesisAccount o.1 o.2.
Definition vesting_call (o : string * Coins * Coins * Z) : Call :=
  CAddVestingAccount o.1.1.1 o.1.1.2 o.1.2 o.2.

(** A stand-in for [cosmosutil.ChangeAddressPrefix] in the examples, which
    rejects the empty address. *)
Definition reprefix_strict (address addressPrefix : string) : result string :=
  if is_empty_string address then Err (ErrMsg "empty address")
  else Ok (addressPrefix +:+ ":" +:+ address).

Definition acc_alice : GenesisAccount :=
  {| acc_Address := "spn1alice"; acc_Coins := [("stake", 100)] |}.
Definition acc_bad : GenesisAccount :=
  {| acc_Address := EmptyString; acc_Coins := [("stake", 1)] |}.
Definition acc_bob : GenesisAccount :=
  {| acc_Address := "spn1bob"; acc_Coins := [("stake", 7)] |}.
Definition vest_carol : VestingAccount :=
  {| vest_Address := "spn1carol"; vest_TotalBalance := [("stake", 50)];
     vest_Vesting := [("stake", 30)]; vest_EndTime := 1800000000 |}.


(** The calls [applyGenesisValidators] can make. *)
Definition validators_calls (c : Call) : bool :=
  match c with
  | CGentxsPath | CRemoveAll _ | CMkdirAll _ | CWriteFile _ _ | CCommands
  | CCollectGentxs | CConfigTOMLPath | CLoadFile _ | COpenFile _ | CWriteTo _
  | CSPNConfigPath | CSetSPNConfig _ _ => true
  | _ => false
  end.

(** The calls [buildGenesis] makes apart from those for the validators. *)
Definition plain_genesis_calls (c : Call) : bool :=
  match c with
  | CSend _ _ | CDetectPrefix | CCommands | CAddGenesisAccount _ _
  | CAddVestingAccount _ _ _ _ | CGenesisPath | CSetGenesisTime _ _ => true
  | _ => false
  end.

(** Genesis information without validators. *)
Definition gi_accounts_only : GenesisInformation :=
  {| GenesisAccounts := [acc_alice; acc_bob];
     VestingAccounts := [vest_carol];
     GenesisValidators := [] |}.

(** The tunnel bindings of the tunneled validators of a list whose first
    index is [i], in the order of the list. *)
Fixpoint tunnelBindings (i : nat) (vals : list GenesisValidator) : list TunneledPeer :=
  match vals with
  | [] => []
  | val :: rest =>
      match Connection (Peer val) with
      | Peer_HttpTunnel name address =>
          tunnelOf i val name address :: tunnelBindings (S i) rest
      | _ => tunnelBindings (S i) rest
      end
  end.

(** The calls that read the path of the SPN configuration and write it. *)
Definition is_spn_call (c : Call) : bool :=
  match c with CSPNConfigPath | CSetSPNConfig _ _ => true | _ => false end.

(** The error of [updateConfigFromGenesisValidators] for a malformed
    validator: the format check comes first. *)
Definition peerError (VerifyPeerFormat : launchtypes_Peer -> bool)
    (val : GenesisValidator) : error :=
  if negb (VerifyPeerFormat (Peer val))
  then ErrMsg ("invalid peer: " +:+ Id (Peer val))
  else ErrMsg "invalid peer type".

(** The paths of the gentx files written for a list of validators. *)
Definition gentxFiles (dir : string) (vals : list GenesisValidator)
  : list (string * bytes) :=
  imap (fun i val => (filepath_Join dir (gentxName i), Gentx val)) vals.

(** An environment in which writing a TOML tree fails and nothing else. *)
Definition write_fails (t : list Call) (c : Call) : option error :=
  match c with CWriteTo _ => Some (ErrMsg "disk full") | _ => None end.

(** A node prepared before for other validators: a gentx file and tunnel
    bindings of that time are still there, beside a file of the
    application. *)
Definition world_stale : World :=
  {| w_env := env0; w_trace := []; w_home_stat := StatOk;
     w_genesis := genesis_default;
     w_files := <["/spn/1/config/gentx/gentx7.json" := gentx_of "stale"]>
                  (<["/spn/1/config/app.toml" := gentx_of "app"]> ∅);
     w_config := <["rpc.laddr" := TomlString "tcp://0.0.0.0:26657"]> default_config;
     w_spn := Some {| TunneledPeers :=
                        [ {| Name := "old"; Address := "https://old";
                             NodeID := "V9"; LocalPort := "22004" |} ] |};
     w_valkey := 1%N; w_chain_state := 0%N;
     w_binaries := ∅; w_cache := ∅ |}.

(** The prepared node on a disk that is full. *)
Definition world_disk_full : World :=
  {| w_env := {| e_fails := write_fails;
                 e_home := "/spn/1";
                 e_genesis_path := "/spn/1/config/genesis.json";
                 e_gentxs_path := "/spn/1/config/gentx";
                 e_config_path := "/spn/1/config/config.toml";
                 e_spn_path := "/spn/1/spn.yml";
                 e_binary := "chaind";
                 e_prefix := "cosmos";
                 e_built := ("chaind", Some (BinSum "5e1f"));
                 e_cache_err := None |};
     w_trace := []; w_home_stat := StatOk;
     w_genesis := genesis_default; w_files := ∅; w_config := default_config;
     w_spn := None; w_valkey := 1%N; w_chain_state := 0%N;
     w_binaries := ∅; w_cache := ∅ |}.

(** A node whose home directory cannot be examined. *)
Definition world_denied : World :=
  {| w_env := env0; w_trace := []; w_home_stat := StatError (ErrMsg "permission denied");
     w_genesis := genesis_default; w_files := ∅; w_config := default_config;
     w_spn := None; w_valkey := 1%N; w_chain_state := 0%N;
     w_binaries := ∅; w_cache := ∅ |}.

(** ** New and its options (networkchain.go) *)

(** [chain.LogLvl] *)
Inductive LogLvl : Type := LogSilent | LogRegular | LogVerbose.

(** The options [New] gives to [chain.New]. *)
Inductive chain_Option : Type :=
| chain_ID (chainID : string)
| chain_HomePath (homePath : string)
| chain_LogLevel (level : LogLvl)
| chain_KeyringBackend (backend : string).

(** The handle [chain.New] returns; the code reads its version only. *)
Record chain_Chain : Type := mkchain_Chain {
  app_path : string;
  app_options : list chain_Option;
  Version : string
}.

(** [events.Bus], a channel of events that may be nil, and
    [cosmosaccount.Registry]. *)
Definition Bus : Type := option string.
Definition Registry : Type := string.

(** The [Chain] with the fields that only [New] and its options set, beside
    the plain data of [Chain]: the keyring backend ([chaincmd.KeyringBackend],
    a string), the handle of the chain runtime, the event bus and the account
    registry. *)
Record ChainHandle : Type := mkChainHandle {
  data : Chain;
  keyringBackend : string;
  chain : option chain_Chain;
  ev : Bus;
  ar : Registry
}.

(** [networktypes.ChainLaunch], the fields [SourceLaunch] reads. *)
Record ChainLaunch : Type := mkChainLaunch {
  launch_ID : N;
  launch_ChainID : string;
  launch_SourceURL : string;
  launch_SourceHash : string;
  launch_GenesisURL : string;
  launch_GenesisHash : string;
  launch_LaunchTime : Z
}.

(** [&Chain{ar: ar}]: every other field has its zero value. *)
Definition zero_Chain : Chain :=
  {| id := EmptyString; launchID := 0%N; path := EmptyString; home := EmptyString;
     url := EmptyString; hash := EmptyString; genesisURL := EmptyString;
     genesisHash := EmptyString; launchTime := 0; isInitialized := false;
     ref := EmptyString |}.
Definition zero_ChainHandle (ar : Registry) : ChainHandle :=
  {| data := zero_Chain; keyringBackend := EmptyString; chain := None; ev := None;
     ar := ar |}.

(** Assignments to the fields of a [Chain]. *)
Definition set_data (f : Chain -> Chain) (c : ChainHandle) : ChainHandle :=
  {| data := f (data c); keyringBackend := keyringBackend c; chain := chain c;
     ev := ev c; ar := ar c |}.
Definition set_id (v : string) (c : Chain) : Chain :=
  {| id := v; launchID := launchID c; path := path c; home := home c; url := url c;
     hash := hash c; genesisURL := genesisURL c; genesisHash := genesisHash c;
     launchTime := launchTime c; isInitialized := isInitialized c; ref := ref c |}.
Definition set_launchID (v : N) (c : Chain) : Chain :=
  {| id := id c; launchID := v; path := path c; home := home c; url := url c;
     hash := hash c; genesisURL := genesisURL c; genesisHash := genesisHash c;
     launchTime := launchTime c; isInitialized := isInitialized c; ref := ref c |}.
Definition set_path (v : string) (c : Chain) : Chain :=
  {| id := id c; launchID := launchID c; path := v; home := home c; url := url c;
     hash := hash c; genesisURL := genesisURL c; genesisHash := genesisHash c;
     launchTime := launchTime c; isInitialized := isInitialized c; ref := ref c |}.
Definition set_home (v : string) (c : Chain) : Chain :=
  {| id := id c; launchID := launchID c; path := path c; home := v; url := url c;
     hash := hash c; genesisURL := genesisURL c; genesisHash := genesisHash c;
     launchTime := launchTime c; isInitialized := isInitialized c; ref := ref c |}.
Definition set_url (v : string) (c : Chain) : Chain :=
  {| id := id c; launchID := launchID c; path := path c; home := home c; url := v;
     hash := hash c; genesisURL := genesisURL c; genesisHash := genesisHash c;
     launchTime := launchTime c; isInitialized := isInitialized c; ref := ref c |}.
Definition set_hash (v : string) (c : Chain) : Chain :=
  {| id := id c; launchID := launchID c; path := path c; home := home c; url := url c;
     hash := v; genesisURL := genesisURL c; genesisHash := genesisHash c;
     launchTime := launchTime c; isInitialized := isInitialized c; ref := ref c |}.
Definition set_genesisURL (v : string) (c : Chain) : Chain :=
  {| id := id c; launchID := launchID c; path := path c; home := home c; url := url c;
     hash := hash c; genesisURL := v; genesisHash := genesisHash c;
     launchTime := launchTime c; isInitialized := isInitialized c; ref := ref c |}.
Definition set_genesisHash (v : string) (c : Chain) : Chain :=
  {| id := id c; launchID := launchID c; path := path c; home := home c; url := url c;
     hash := hash c; genesisURL := genesisURL c; genesisHash := v;
     launchTime := launchTime c; isInitialized := isInitialized c; ref := ref c |}.
Definition set_launchTime (v : Z) (c : Chain) : Chain :=
  {| id := id c; launchID := launchID c; path := path c; home := home c; url := url c;
     hash := hash c; genesisURL := genesisURL c; genesisHash := genesisHash c;
     launchTime := v; isInitialized := isInitialized c; ref := ref c |}.
Definition set_ref (v : string) (c : Chain) : Chain :=
  {| id := id c; launchID := launchID c; path := path c; home := home c; url := url c;
     hash := hash c; genesisURL := genesisURL c; genesisHash := genesisHash c;
     launchTime := launchTime c; isInitialized := isInitialized c; ref := v |}.
Definition set_keyringBackend (v : string) (c : ChainHandle) : ChainHandle :=
  {| data := data c; keyringBackend := v; chain := chain c; ev := ev c; ar := ar c |}.
Definition set_chain (v : option chain_Chain) (c : ChainHandle) : ChainHandle :=
  {| data := data c; keyringBackend := keyringBackend c; chain := v; ev := ev c;
     ar := ar c |}.
Definition set_ev (v : Bus) (c : ChainHandle) : ChainHandle :=
  {| data := data c; keyringBackend := keyringBackend c; chain := chain c; ev := v;
     ar := ar c |}.

(** [SourceOption] sets the source for the blockchain, [Option] sets other
    initialization options: functions that assign fields of the [Chain]. *)
Definition SourceOption : Type := ChainHandle -> ChainHandle.
Definition Option : Type := ChainHandle -> ChainHandle.

(** [plumbing.NewBranchReferenceName] and [plumbing.NewTagReferenceName] of
    go-git. *)
Definition plumbing_NewBranchReferenceName (name : string) : string :=
  "refs/heads/" +:+ name.
Definition plumbing_NewTagReferenceName (name : string) : string :=
  "refs/tags/" +:+ name.

Definition SourceRemote (url : string) : SourceOption :=
  fun c => set_data (set_url url) c.
Definition SourceRemoteBranch (url branch : string) : SourceOption :=
  fun c => set_data (set_ref (plumbing_NewBranchReferenceName branch))
             (set_data (set_url url) c).
Definition SourceRemoteTag (url tag : string) : SourceOption :=
  fun c => set_data (set_ref (plumbing_NewTagReferenceName tag))
             (set_data (set_url url) c).
Definition SourceRemoteHash (url hash : string) : SourceOption :=
  fun c => set_data (set_hash hash) (set_data (set_url url) c).

Definition WithHome (path : string) : Option :=
  fun c => set_data (set_home path) c.
Definition WithKeyringBackend (keyringBackend : string) : Option :=
  fun c => set_keyringBackend keyringBackend c.
Definition WithGenesisFromURL (genesisURL : string) : Option :=
  fun c => set_data (set_genesisURL genesisURL) c.
Definition CollectEvents (ev : Bus) : Option :=
  fun c => set_ev ev c.

(** The calls [New] makes beside those of the fetch. *)
Inductive NewCall : Type :=
| NSend (bus : Bus) (status : Status) (msg : string)
| NIsOnGitpod
| NChainNew (appPath : string) (options : list chain_Option).

(** The world of [New]: the world of the fetch, the calls made, whether the
    process runs on Gitpod, and what [chain.New] returns for a source path and
    options. *)
Record NewWorld : Type := mkNewWorld {
  n_git : Git;
  n_trace : list NewCall;
  n_onGitpod : bool;
  n_chain_New : string -> list chain_Option -> result chain_Chain
}.

Definition n_log (c : NewCall) (s : NewWorld) : NewWorld :=
  {| n_git := n_git s; n_trace := n_trace s ++ [c]; n_onGitpod := n_onGitpod s;
     n_chain_New := n_chain_New s |}.

(** A computation of the fetch, run in the world of [New]. *)
Definition in_git {A} (m : M Git A) : M NewWorld A :=
  fun s => let r := m (n_git s) in
           (r.1, {| n_git := r.2; n_trace := n_trace s; n_onGitpod := n_onGitpod s;
                    n_chain_New := n_chain_New s |}).

(** [c.ev.Send(events.New(status, msg))] *)
Definition n_Send (bus : Bus) (status : Status) (msg : string) : M NewWorld unit :=
  fun s => (Ok tt, n_log (NSend bus status msg) s).
Definition gitpod_IsOnGitpod : M NewWorld bool :=
  fun s => (Ok (n_onGitpod s), n_log NIsOnGitpod s).
Definition chain_New (appPath : string) (options : list chain_Option)
  : M NewWorld chain_Chain :=
  fun s => (n_chain_New s appPath options, n_log (NChainNew appPath options) s).

Section NewGo.

(** [ChainHome], [chaincmd.KeyringBackendTest], the test
    [Version.IsFamily(cosmosver.Stargate)] on the version of a chain and
    [sperrors.ErrOnlyStargateSupported] are not under src/. *)
Variable ChainHome : N -> string.
Variable KeyringBackendTest : string.
Variable IsFamily_Stargate : string -> bool.
Variable ErrOnlyStargateSupported : error.

(** [SourceLaunch] returns a source option for initializing a chain from a
    launch. *)
Definition SourceLaunch (launch : ChainLaunch) : SourceOption :=
  fun c =>
    set_data (fun d =>
      set_launchTime (launch_LaunchTime launch)
        (set_home (ChainHome (launch_ID launch))
           (set_genesisHash (launch_GenesisHash launch)
              (set_genesisURL (launch_GenesisURL launch)
                 (set_hash (launch_SourceHash launch)
                    (set_url (launch_SourceURL launch)
                       (set_launchID (launch_ID launch)
                          (set_id (launch_ChainID launch) d)))))))) c.

(** The chain as the source and the options configure it, lines 128-134 of
    [New]. *)
Definition configured (ar : Registry) (source : SourceOption) (options : list Option)
  : ChainHandle :=
  fold_left (fun c apply => apply c) options (source (zero_ChainHandle ar)).

(** [New] initializes a network blockchain from source and options. *)
Definition New (ar : Registry) (source : SourceOption) (options : list Option)
  : M NewWorld ChainHandle :=
  let c := configured ar source options in
  n_Send (ev c) StatusOngoing "Fetching the source code" ;;;
  fetched <- in_git (fetchSource (url (data c)) (ref (data c)) (hash (data c))) ;;
  let c := set_data (set_hash fetched.2) (set_data (set_path fetched.1) c) in
  n_Send (ev c) StatusDone "Source code fetched" ;;;
  n_Send (ev c) StatusOngoing "Setting up the blockchain" ;;;
  let chainOption :=
    [chain_ID (id (data c)); chain_HomePath (home (data c));
     chain_LogLevel LogSilent] in
  onGitpod <- gitpod_IsOnGitpod ;;
  let c := if onGitpod then set_keyringBackend KeyringBackendTest c else c in
  let chainOption := chainOption ++ [chain_KeyringBackend (keyringBackend c)] in
  chain <- chain_New (path (data c)) chainOption ;;
  if negb (IsFamily_Stargate (Version chain)) then fail ErrOnlyStargateSupported
  else
    let c := set_chain (Some chain) c in
    n_Send (ev c) StatusDone "Blockchain set up" ;;;
    ret c.

(** The keyring backend [New] settles on, lines 154-156, and the options it
    gives to [chain.New], lines 146-158. *)
Definition settled_backend (c0 : ChainHandle) (s : NewWorld) : string :=
  if n_onGitpod s then KeyringBackendTest else keyringBackend c0.
Definition chain_options (c0 : ChainHandle) (s : NewWorld) : list chain_Option :=
  [chain_ID (id (data c0)); chain_HomePath (home (data c0));
   chain_LogLevel LogSilent; chain_KeyringBackend (settled_backend c0 s)].

(** [SourceURL] and [SourceHash]. *)
Definition SourceURL (c : ChainHandle) : string := url (data c).
Definition SourceHash (c : ChainHandle) : string := hash (data c).

End NewGo.

(** The calls of [chain.New]. *)
Definition is_chain_New (c : NewCall) : bool :=
  match c with NChainNew _ _ => true | _ => false end.

(** A world for [New]: not on Gitpod, the remote of [git0], and a
    [chain.New] that finds the version "v0.44.3" in every source. *)
Definition new0 : NewWorld :=
  {| n_git := git0; n_trace := []; n_onGitpod := false;
     n_chain_New := fun appPath options =>
       Ok {| app_path := appPath; app_options := options; Version := "v0.44.3" |} |}.
Definition new_gitpod : NewWorld :=
  {| n_git := git0; n_trace := []; n_onGitpod := true;
     n_chain_New := n_chain_New new0 |}.
Definition stargate_from_v040 (version : string) : bool :=
  negb (String.prefix "v0.3" version).
Definition launch0 : ChainLaunch :=
  {| launch_ID := 1%N; launch_ChainID := "spn-1";
     launch_SourceURL := "https://example.com/chain.git";
     launch_SourceHash := "aaaa";
     launch_GenesisURL := EmptyString; launch_GenesisHash := EmptyString;
     launch_LaunchTime := 1700000000 |}.
Definition ChainHome0 (launchID : N) : string := "/spn/" +:+ pretty launchID.
(** A [chain.New] that finds a version of the Launchpad family. *)
Definition new_launchpad : NewWorld :=
  {| n_git := git0; n_trace := []; n_onGitpod := false;
     n_chain_New := fun appPath options =>
       Ok {| app_path := appPath; app_options := options; Version := "v0.39.2" |} |}.
Definition ErrOnlyStargateSupported0 : error :=
  ErrMsg "only stargate chains are supported".

(** ** Campaigns (package [network], after prepare.go) *)

(** [campaigntypes.Shares] is a list of coins, as [sdk.Coins]; [Empty] says
    that the list has no element. *)
Definition Shares : Type := Coins.
Definition Coins_Empty (coins : Coins) : bool :=
  match coins with [] => true | _ :: _ => false end.

(** [updateProp] represents the update campaign proposal. *)
Record updateProp : Type := mkupdateProp {
  name : string;
  metadata : bytes;
  totalShares : Shares;
  totalSupply : Coins
}.

(** [Prop], an update campaign proposal option. *)
Definition CampaignProp : Type := updateProp -> updateProp.


(** The messages of the campaign module the code makes, with the arguments
    of their constructors ([campaigntypes.NewMsg...]). *)
Inductive Msg : Type :=
| MsgCreateCampaign (coordinator campaignName : string) (supply : Coins)
                    (meta : bytes)
| MsgInitializeMainnet (coordinator : string) (campaignID : N)
                       (sourceURL sourceHash mainnetChainID : string)
| MsgEditCampaign (coordinator campaignName : string) (campaignID : N) (meta : bytes)
| MsgUpdateTotalShares (coordinator : string) (campaignID : N) (shares : Shares)
| MsgUpdateTotalSupply (coordinator : string) (campaignID : N) (supply : Coins).

(** The response of a broadcast, as far as the code decodes it: the campaign
    id of a [MsgCreateCampaignResponse] and the mainnet id of a
    [MsgInitializeMainnetResponse], or the error of [Decode]. *)
Record Response : Type := mkResponse {
  Decode_CampaignID : result N;
  Decode_MainnetID : result N
}.

Inductive NetCall : Type :=
| NetSend (bus : Bus) (status : Status) (msg : string)
| NetBroadcastTx (accountName : string) (msgs : list Msg).

(** The world of the network client: the calls made, and what the chain
    answers to a broadcast, given the calls made before. *)
Record NetWorld : Type := mkNetWorld {
  nw_trace : list NetCall;
  nw_BroadcastTx : list NetCall -> string -> list Msg -> result Response
}.

Definition nw_log (c : NetCall) (s : NetWorld) : NetWorld :=
  {| nw_trace := nw_trace s ++ [c]; nw_BroadcastTx := nw_BroadcastTx s |}.

(** [Network], the fields the code reads: the event bus, and the name and the
    address, for a prefix, of the account. *)
Record Network : Type := mkNetwork {
  net_ev : Bus;
  account_Name : string;
  account_Address : string -> string
}.

Definition net_Send (bus : Bus) (status : Status) (msg : string) : M NetWorld unit :=
  fun s => (Ok tt, nw_log (NetSend bus status msg) s).
Definition cosmos_BroadcastTx (accountName : string) (msgs : list Msg)
  : M NetWorld Response :=
  fun s => (nw_BroadcastTx s (nw_trace s) accountName msgs,
            nw_log (NetBroadcastTx accountName msgs) s).

Section Campaigns.

(** The address prefix [networktypes.SPN] is not under src/. *)
Variable networktypes_SPN : string.

(** [CreateCampaign] creates a campaign in Starport Network. *)
Definition CreateCampaign (n : Network) (campaignName meta : string)
    (supply : Coins) : M NetWorld N :=
  net_Send (net_ev n) StatusOngoing ("Creating campaign " +:+ campaignName) ;;;
  let msgCreateCampaign :=
    MsgCreateCampaign (account_Address n networktypes_SPN) campaignName supply
                      (String.list_byte_of_string meta) in
  res <- cosmos_BroadcastTx (account_Name n) [msgCreateCampaign] ;;
  lift (Decode_CampaignID res).

(** [InitializeMainnet] initializes the mainnet of the campaign. *)
Definition InitializeMainnet (n : Network) (campaignID : N)
    (sourceURL sourceHash mainnetChainID : string) : M NetWorld N :=
  net_Send (net_ev n) StatusOngoing "Initializing the mainnet campaign" ;;;
  let msg := MsgInitializeMainnet (account_Address n networktypes_SPN) campaignID
                                  sourceURL sourceHash mainnetChainID in
  res <- cosmos_BroadcastTx (account_Name n) [msg] ;;
  mainnetID <- lift (Decode_MainnetID res) ;;
  net_Send (net_ev n) StatusDone
           ("Campaign " +:+ pretty campaignID +:+ " initialized on mainnet") ;;;
  ret mainnetID.

(** The proposal made of the options, lines 454-458 of [UpdateCampaign]. *)
Definition proposal (props : list CampaignProp) : updateProp :=
  fold_left (fun p apply => apply p) props
    {| name := EmptyString; metadata := []; totalShares := []; totalSupply := [] |}.

(** The messages of [UpdateCampaign], lines 462-484. *)
Definition updateMsgs (account : string) (campaignID : N) (p : updateProp) : list Msg :=
  let msgs := [] in
  let msgs :=
    if negb (is_empty_string (name p)) || (0 <? length (metadata p))%nat
    then msgs ++ [MsgEditCampaign account (name p) campaignID (metadata p)]
    else msgs in
  let msgs :=
    if negb (Coins_Empty (totalShares p))
    then msgs ++ [MsgUpdateTotalShares account campaignID (totalShares p)]
    else msgs in
  let msgs :=
    if negb (Coins_Empty (totalSupply p))
    then msgs ++ [MsgUpdateTotalSupply account campaignID (totalSupply p)]
    else msgs in
  msgs.

(** [UpdateCampaign] updates the campaign name or metadata. *)
Definition UpdateCampaign (n : Network) (campaignID : N) (props : list CampaignProp)
  : M NetWorld unit :=
  let p := proposal props in
  net_Send (net_ev n) StatusOngoing
           ("Updating the campaign " +:+ pretty campaignID) ;;;
  let account := account_Address n networktypes_SPN in
  let msgs := updateMsgs account campaignID p in
  cosmos_BroadcastTx (account_Name n) msgs ;;;
  net_Send (net_ev n) StatusDone ("Campaign " +:+ pretty campaignID +:+ " updated").

End Campaigns.

(** The kind of a message of an update. *)
Definition is_edit (m : Msg) : bool :=
  match m with MsgEditCampaign _ _ _ _ => true | _ => false end.
Definition is_shares (m : Msg) : bool :=
  match m with MsgUpdateTotalShares _ _ _ => true | _ => false end.
Definition is_supply (m : Msg) : bool :=
  match m with MsgUpdateTotalSupply _ _ _ => true | _ => false end.

(** The broadcasts among calls. *)
Definition is_broadcast (c : NetCall) : bool :=
  match c with NetBroadcastTx _ _ => true | _ => false end.

(** A network client, a chain that accepts every broadcast and answers with
    the campaign id 7, and one whose answer cannot be decoded. *)
Definition network0 : Network :=
  {| net_ev := Some "bus"; account_Name := "alice";
     account_Address := fun prefix => prefix +:+ "1alice" |}.
Definition networld0 : NetWorld :=
  {| nw_trace := [];
     nw_BroadcastTx := fun _ _ _ =>
       Ok {| Decode_CampaignID := Ok 7%N; Decode_MainnetID := Ok 3%N |} |}.
Definition networld_garbled : NetWorld :=
  {| nw_trace := [];
     nw_BroadcastTx := fun _ _ _ =>
       Ok {| Decode_CampaignID := Err (ErrMsg "cannot decode");
             Decode_MainnetID := Err (ErrMsg "cannot decode") |} |}.
Definition networld_down : NetWorld :=
  {| nw_trace := [];
     nw_BroadcastTx := fun _ _ _ => Err (ErrMsg "connection refused") |}.

(** The calls [Prepare] makes before it validates the genesis: every call
    but the validation, the reset of the saved state and the output. *)
Definition before_validation (c : Call) : bool :=
  match c with
  | CValidateGenesis | CUnsafeReset | CPrintf _ _ => false
  | _ => true
  end.

(** A node that has run: its chain state is not the initial one. *)
Definition world_running : World :=
  {| w_env := env0; w_trace := []; w_home_stat := StatOk;
     w_genesis := genesis_default; w_files := ∅; w_config := default_config;
     w_spn := None; w_valkey := 1%N; w_chain_state := 42%N;
     w_binaries := ∅; w_cache := ∅ |}.

(** The options of [New] that networkchain.go provides. *)
Inductive provided_Option : Option -> Prop :=
| provided_WithHome homePath : provided_Option (WithHome homePath)
| provided_WithKeyringBackend backend : provided_Option (WithKeyringBackend backend)
| provided_WithGenesisFromURL genesisURL0 :
    provided_Option (WithGenesisFromURL genesisURL0)
| provided_CollectEvents bus : provided_Option (CollectEvents bus).

(** * Static analysis of chain sources (package [cosmosanalysis]) *)

Definition cosmosModulePath : string := "github.com/cosmos/cosmos-sdk".
Definition tendermintModulePath : string := "github.com/tendermint/tendermint".
Definition appFileName : string := "app.go".

Definition appImplementation : list string :=
  ["Name"; "BeginBlocker"; "EndBlocker"].

(** [implementation] tracks the implementation of an interface for a given
    struct. *)
Notation "'implementation'" := (gmap string bool).

(** The type expression of a receiver, as far as the code tells expressions
    apart: an identifier, a star expression, anything else. *)
Inductive ast_Expr : Type :=
| ast_Ident (Name : string)
| ast_StarExpr (X : ast_Expr)
| ast_OtherExpr.

(** A function declaration ([ast.FuncDecl]): the type of its receiver
    ([Recv.List[0].Type]) when it is a method, and its name. *)
Record ast_FuncDecl : Type := mkFuncDecl {
  Recv : option ast_Expr;
  FuncName : string
}.

(** A file as [ast.Inspect] goes through it: the function declarations among
    its nodes, in the order of the traversal. On every other node the function
    given to [ast.Inspect] returns at once. *)
Definition ast_File : Type := list ast_FuncDecl.

(** [newImplementation] returns a new object to parse implementation of an
    interface. *)
Definition newImplementation (interfaceList : list string) : implementation :=
  fold_left (fun impl m => <[m := false]> impl) interfaceList ∅.

(** [checkImplementation] checks if the entire implementation is satisfied.
    The loop goes through the entries of the map, in an order Go leaves
    open; its result does not depend on the order. *)
Definition checkImplementation (r : implementation) : bool :=
  forallb (fun kv : string * bool => kv.2) (map_to_list r).

(** The function [findImplementationInFiles] gives to [ast.Inspect], on a
    function declaration. [None] is a panic: the type assertion of [sexp.X]
    to an identifier has no second result. *)
Definition inspectFuncDecl (interfaceList : list string)
    (structImplementations : gmap string implementation) (methodDecl : ast_FuncDecl)
  : option (gmap string implementation) :=
  match Recv methodDecl with
  | None => Some structImplementations
  | Some t =>
      let methodName := FuncName methodDecl in
      let mark (structName : string) :=
        let structImplementations :=
          match structImplementations !! structName with
          | Some _ => structImplementations
          | None => <[structName := newImplementation interfaceList]> structImplementations
          end in
        <[structName :=
            <[methodName := true]> (default ∅ (structImplementations !! structName))]>
          structImplementations in
      match t with
      | ast_Ident structName => Some (mark structName)
      | ast_StarExpr (ast_Ident structName) => Some (mark structName)
      | ast_StarExpr _ => None
      | ast_OtherExpr => Some structImplementations
      end
  end.

(** The traversal of the declarations of the files. *)
Fixpoint inspectDecls (interfaceList : list string) (decls : list ast_FuncDecl)
    (structImplementations : gmap string implementation)
  : option (gmap string implementation) :=
  match decls with
  | [] => Some structImplementations
  | d :: rest =>
      match inspectFuncDecl interfaceList structImplementations d with
      | Some structImplementations => inspectDecls interfaceList rest structImplementations
      | None => None
      end
  end.

(** [findImplementationInFiles]; [None] when it panics. The names are found
    in the order of a loop over a map, which Go leaves open. *)
Definition findImplementationInFiles (files : list ast_File)
    (interfaceList : list string) : option (list string) :=
  match inspectDecls interfaceList (concat files) ∅ with
  | None => None
  | Some structImplementations =>
      Some (fmap fst
              (filter (fun kv : string * implementation =>
                         checkImplementation kv.2 = true)
                      (map_to_list structImplementations)))
  end.

(** [ValidateGoMod] checks if the cosmos-sdk and the tendermint packages are
    imported. The module file is given by the paths of its requirements
    ([r.Mod.Path] for [r] in [module.Require]). The error names the first
    module of a loop over a map, in an order Go leaves open. *)
Definition ValidateGoMod (requires : list string) : result unit :=
  let moduleCheck : gmap string bool :=
    <[cosmosModulePath := true]> (<[tendermintModulePath := true]> ∅) in
  let moduleCheck := fold_left (fun mc r => delete r mc) requires moduleCheck in
  match map_to_list moduleCheck with
  | (m, _) :: _ =>
      Err (ErrMsg ("invalid go module, missing " +:+ m +:+ " package dependency"))
  | [] => Ok tt
  end.

(** What [filepath.Walk] gives to its function for one file or directory: the
    path, the error of the walk if any, whether it is a directory, the
    extension of its name ([filepath.Ext(info.Name())]), and what
    [parser.ParseFile] returns for it. *)
Record WalkEntry : Type := mkWalkEntry {
  walk_path : string;
  walk_err : option error;
  walk_IsDir : bool;
  walk_Ext : string;
  walk_ParseFile : result ast_File
}.

(** The function [FindAppFilePath] gives to [filepath.Walk]: the outer
    [None] is a panic, an error stops the walk. *)
Definition visitAppFile (found : list string) (entry : WalkEntry)
  : option (result (list string)) :=
  match walk_err entry with
  | Some err => Some (Err err)
  | None =>
      if walk_IsDir entry || negb (bool_decide (walk_Ext entry = ".go"))
      then Some (Ok found)
      else
        match walk_ParseFile entry with
        | Err err => Some (Err err)
        | Ok f =>
            match findImplementationInFiles [f] appImplementation with
            | None => None
            | Some currFound =>
                if (0 <? length currFound)%nat
                then Some (Ok (found ++ [walk_path entry]))
                else Some (Ok found)
            end
        end
  end.

Fixpoint walkAppFiles (entries : list WalkEntry) (found : list string)
  : option (result (list string)) :=
  match entries with
  | [] => Some (Ok found)
  | entry :: rest =>
      match visitAppFile found entry with
      | Some (Ok found) => walkAppFiles rest found
      | other => other
      end
  end.

Section FindAppFile.

(** [filepath.Base] *)
Variable filepath_Base : string -> string.

(** The loop over the files found, lines 209-217 of [FindAppFilePath]. *)
Fixpoint pickAppGo (found : list string) (appFilePath : string) : result string :=
  match found with
  | [] => Ok appFilePath
  | p :: rest =>
      if bool_decide (filepath_Base p = appFileName) then
        if negb (is_empty_string appFilePath)
        then Err (ErrMsg "multiple app.go files found")
        else pickAppGo rest p
      else pickAppGo rest appFilePath
  end.

(** What [FindAppFilePath] returns for the files found, lines 203-224. *)
Definition chooseAppFile (found : list string) : result string :=
  match found with
  | [] => Err (ErrMsg "app file not found")
  | [p] => Ok p
  | _ =>
      match pickAppGo found EmptyString with
      | Err err => Err err
      | Ok appFilePath =>
          if negb (is_empty_string appFilePath) then Ok appFilePath
          else Err (ErrMsg "multiple app files found, but no app.go file")
      end
  end.

(** [FindAppFilePath] looks for the app file that implements the interfaces
    listed in [appImplementation], over the files and directories of the walk
    of the chain root; [None] when it panics. *)
Definition FindAppFilePath (entries : list WalkEntry) : option (result string) :=
  match walkAppFiles entries [] with
  | None => None
  | Some (Err err) => Some (Err err)
  | Some (Ok found) => Some (chooseAppFile found)
  end.

End FindAppFile.

(** ** What the properties of the analysis speak of *)

(** The struct a method declaration belongs to, when the code finds one: the
    receiver type is an identifier or a pointer to an identifier. *)
Definition receiverName (d : ast_FuncDecl) : option string :=
  match Recv d with
  | Some (ast_Ident structName) => Some structName
  | Some (ast_StarExpr (ast_Ident structName)) => Some structName
  | _ => None
  end.

(** A method whose receiver type is a star expression over something that is
    not an identifier. *)
Definition panicking (d : ast_FuncDecl) : bool :=
  match Recv d with
  | Some (ast_StarExpr (ast_Ident _)) => false
  | Some (ast_StarExpr _) => true
  | _ => false
  end.

(** Among [decls] there is a method of the struct, and a method of the struct
    with a given name. *)
Definition has_method (decls : list ast_FuncDecl) (structName : string) : Prop :=
  Exists (fun d => receiverName d = Some structName) decls.
Definition declares (decls : list ast_FuncDecl) (structName methodName : string)
  : Prop :=
  Exists (fun d => receiverName d = Some structName /\ FuncName d = methodName) decls.

(** The entry the map of the struct implementations holds for a struct once
    [decls] were inspected. *)
Definition implementation_of (interfaceList : list string) (decls : list ast_FuncDecl)
    (structName : string) : option implementation -> Prop :=
  fun entry =>
    match entry with
    | None => ~ has_method decls structName
    | Some impl =>
        has_method decls structName /\
        forall m,
          impl !! m =
          if decide (declares decls structName m) then Some true
          else if decide (m ∈ interfaceList) then Some false else None
    end.

(** The entries of a walk in which [FindAppFilePath] finds an
    implementation. *)
Definition appEntry (entry : WalkEntry) : bool :=
  negb (walk_IsDir entry) && bool_decide (walk_Ext entry = ".go") &&
  match walk_ParseFile entry with
  | Ok f =>
      match findImplementationInFiles [f] appImplementation with
      | Some (_ :: _) => true
      | _ => false
      end
  | Err _ => false
  end.

(** Example sources: an application whose methods have value and pointer
    receivers, a keeper, a type with a part of the methods only, and a method
    on a pointer to an instantiated generic type. *)
Definition method (recv : ast_Expr) (methodName : string) : ast_FuncDecl :=
  {| Recv := Some recv; FuncName := methodName |}.
Definition file_app : ast_File :=
  [ {| Recv := None; FuncName := "New" |};
    method (ast_StarExpr (ast_Ident "App")) "Name";
    method (ast_Ident "App") "BeginBlocker";
    method (ast_StarExpr (ast_Ident "App")) "EndBlocker";
    method (ast_Ident "Keeper") "Name" ].
Definition file_partial : ast_File :=
  [ method (ast_Ident "Half") "Name"; method (ast_Ident "Half") "BeginBlocker" ].
Definition file_rest : ast_File :=
  [ method (ast_Ident "Half") "EndBlocker" ].
Definition file_generic : ast_File :=
  [ method (ast_StarExpr ast_OtherExpr) "Add" ].

(** The last element of a path with slashes, for the examples. *)
Fixpoint base_from (p acc : string) : string :=
  match p with
  | EmptyString => acc
  | String c rest =>
      if bool_decide (String c EmptyString = "/") then base_from rest EmptyString
      else base_from rest (acc +:+ String c EmptyString)
  end.
Definition Base0 (p : string) : string :=
  match base_from p EmptyString with
  | EmptyString => "."
  | s => s
  end.

Definition walk0 : list WalkEntry :=
  [ {| walk_path := "/chain"; walk_err := None; walk_IsDir := true;
       walk_Ext := EmptyString; walk_ParseFile := Err (ErrMsg "is a directory") |};
    {| walk_path := "/chain/app/app.go"; walk_err := None; walk_IsDir := false;
       walk_Ext := ".go"; walk_ParseFile := Ok file_app |};
    {| walk_path := "/chain/app/half.go"; walk_err := None; walk_IsDir := false;
       walk_Ext := ".go"; walk_ParseFile := Ok file_partial |};
    {| walk_path := "/chain/app/rest.go"; walk_err := None; walk_IsDir := false;
       walk_Ext := ".go"; walk_ParseFile := Ok file_rest |};
    {| walk_path := "/chain/readme.md"; walk_err := None; walk_IsDir := false;
       walk_Ext := ".md"; walk_ParseFile := Err (ErrMsg "not a Go file") |};
    {| walk_path := "/chain/testutil/simapp.go"; walk_err := None; walk_IsDir := false;
       walk_Ext := ".go"; walk_ParseFile := Ok file_app |} ].

(** * Properties *)

(** ** The monad *)

Lemma bind_Ok {S A B} (m : M S A) (k : A -> M S B) s b s' :
  bind m k s = (Ok b, s') ->
  exists a s1, m s = (Ok a, s1) /\ k a s1 = (Ok b, s').
Proof.
  unfold bind. destruct (m s) as [[a|e] s1]; intros H.
  - exists a, s1. split; [reflexivity | exact H].
  - discriminate H.
Qed.

Lemma bind_Ok_intro {S A B} (m : M S A) (k : A -> M S B) s a s1 :
  m s = (Ok a, s1) -> bind m k s = k a s1.
Proof. unfold bind. intros ->. reflexivity. Qed.

Lemma bind_Err_intro {S A B} (m : M S A) (k : A -> M S B) s e s1 :
  m s = (Err e, s1) -> bind m k s = (Err e, s1).
Proof. unfold bind. intros ->. reflexivity. Qed.

Lemma call_total_eq {A} c (eff : World -> A * World) w :
  call_total c eff w = (Ok (eff (log c w)).1, (eff (log c w)).2).
Proof. unfold call_total. destruct (eff (log c w)). reflexivity. Qed.

Lemma call_Ok {A} c (eff : World -> A * World) w a w' :
  call c eff w = (Ok a, w') ->
  e_fails (w_env w) (w_trace w) c = None /\
  a = (eff (log c w)).1 /\ w' = (eff (log c w)).2.
Proof.
  unfold call. destruct (e_fails _ _ _); [discriminate |].
  rewrite call_total_eq. intros [= <- <-]. auto.
Qed.

Lemma call_cases {A} c (eff : World -> A * World) w :
  (exists e, e_fails (w_env w) (w_trace w) c = Some e /\
             call c eff w = (Err e, log c w)) \/
  (e_fails (w_env w) (w_trace w) c = None /\
   call c eff w = (Ok (eff (log c w)).1, (eff (log c w)).2)).
Proof.
  unfold call. destruct (e_fails _ _ _) as [e|].
  - left. exists e. auto.
  - right. split; [reflexivity | apply call_total_eq].
Qed.

(** ** What a computation keeps

    [keeps I m]: the world after [m] is related by [I] to the world before,
    whether [m] fails or not. [I] is a preorder; the two instances are
    "this part of the world is the same" and "the trace grew by calls of
    this kind". *)

Section Keeps.

Variable I : World -> World -> Prop.
Hypothesis I_refl : forall w, I w w.
Hypothesis I_trans : forall w1 w2 w3, I w1 w2 -> I w2 w3 -> I w1 w3.

Lemma keeps_ret {A} (a : A) : keeps I (ret a).
Proof. intros w. apply I_refl. Qed.

Lemma keeps_fail {A} e : keeps I (@fail World A e).
Proof. intros w. apply I_refl. Qed.

Lemma keeps_lift {A} (r : result A) : keeps I (lift r).
Proof. intros w. apply I_refl. Qed.

Lemma keeps_bind {A B} (m : M World A) (k : A -> M World B) :
  keeps I m -> (forall a, keeps I (k a)) -> keeps I (bind m k).
Proof.
  intros Hm Hk w. unfold bind. specialize (Hm w).
  destruct (m w) as [[a|e] w1]; simpl in *; [| exact Hm].
  eapply I_trans; [exact Hm | apply Hk].
Qed.

Lemma keeps_wrap {A} msg (m : M World A) : keeps I m -> keeps I (wrap msg m).
Proof.
  intros Hm w. unfold wrap. specialize (Hm w).
  destruct (m w) as [[a|e] w1]; exact Hm.
Qed.

Lemma keeps_call_total {A} c (eff : World -> A * World) :
  (forall w, I w (log c w)) -> (forall w, I w (eff w).2) ->
  keeps I (call_total c eff).
Proof.
  intros Hl He w. rewrite call_total_eq. simpl.
  eapply I_trans; [apply Hl | apply He].
Qed.

Lemma keeps_call {A} c (eff : World -> A * World) :
  (forall w, I w (log c w)) -> (forall w, I w (eff w).2) ->
  keeps I (call c eff).
Proof.
  intros Hl He w. unfold call. destruct (e_fails _ _ _).
  - apply Hl.
  - apply keeps_call_total; assumption.
Qed.

End Keeps.

Lemma same_refl {X} (f : World -> X) w : same f w w.
Proof. reflexivity. Qed.

Lemma same_trans {X} (f : World -> X) w1 w2 w3 :
  same f w1 w2 -> same f w2 w3 -> same f w1 w3.
Proof. unfold same. congruence. Qed.

Lemma emits_refl p w : emits p w w.
Proof. exists []. split; [symmetry; apply app_nil_r | constructor]. Qed.

Lemma emits_trans p w1 w2 w3 : emits p w1 w2 -> emits p w2 w3 -> emits p w1 w3.
Proof.
  intros (e1 & H1 & F1) (e2 & H2 & F2). exists (e1 ++ e2). split.
  - rewrite H2, H1. symmetry. apply app_assoc.
  - apply Forall_app. split; assumption.
Qed.

Lemma emits_log p c w : p c = true -> emits p w (log c w).
Proof. intros Hp. exists [c]. split; [reflexivity | repeat constructor; exact Hp]. Qed.

Lemma emits_same_trace p w w' : w_trace w' = w_trace w -> emits p w w'.
Proof. intros H. exists []. split; [rewrite H; symmetry; apply app_nil_r | constructor]. Qed.

(** Decomposes a goal [keeps I m] along the structure of [m]; the calls are
    left to [side]. *)
Ltac keeps_step refl trans side :=
  lazymatch goal with
  | |- keeps _ (bind _ _) => apply (keeps_bind _ trans); [| intros ?]
  | |- keeps _ (wrap _ _) => apply (keeps_wrap _)
  | |- keeps _ (ret _) => apply (keeps_ret _ refl)
  | |- keeps _ (fail _) => apply (keeps_fail _ refl)
  | |- keeps _ (lift _) => apply (keeps_lift _ refl)
  | |- keeps _ (call _ _) =>
      apply (keeps_call _ trans); intros ?; unfold writing, reading; simpl; side
  | |- keeps _ (call_total _ _) =>
      apply (keeps_call_total _ trans); intros ?; unfold writing, reading; simpl; side
  | |- keeps _ (match ?x with _ => _ end) => destruct x
  | |- keeps _ (if ?b then _ else _) => destruct b
  end.

(** ** Computations that fail *)

Lemma fails_bind_l {S A B} (m : M S A) (k : A -> M S B) :
  fails m -> fails (bind m k).
Proof.
  intros Hm s. unfold bind. specialize (Hm s).
  destruct (m s) as [[a|e] s1]; simpl in *; [contradiction | exact Logic.I].
Qed.

Lemma fails_bind_r {S A B} (m : M S A) (k : A -> M S B) :
  (forall a, fails (k a)) -> fails (bind m k).
Proof.
  intros Hk s. unfold bind.
  destruct (m s) as [[a|e] s1]; simpl; [apply Hk | exact Logic.I].
Qed.

Lemma fails_wrap {S A} msg (m : M S A) : fails m -> fails (wrap msg m).
Proof.
  intros Hm s. unfold wrap. specialize (Hm s).
  destruct (m s) as [[a|e] s1]; simpl in *; [contradiction | exact Logic.I].
Qed.

Lemma keeps_bind_fails I {A B} (m : M World A) (k : A -> M World B) :
  keeps I m -> fails m -> keeps I (bind m k).
Proof.
  intros Hm Hf w. unfold bind. specialize (Hm w). specialize (Hf w).
  destruct (m w) as [[a|e] w1]; simpl in *; [contradiction | exact Hm].
Qed.

(** The loop over the validators stops with an error at a malformed peer. *)
Lemma peersLoop_malformed VerifyPeerFormat vals :
  Exists (malformed VerifyPeerFormat) vals ->
  forall i p t, exists e, peersLoop VerifyPeerFormat i vals p t = Err e.
Proof.
  induction vals as [|val rest IH]; intros Hex i p t.
  - inversion Hex.
  - simpl. destruct (VerifyPeerFormat (Peer val)) eqn:Hv; simpl; [| eauto].
    destruct (Connection (Peer val)) eqn:Hc; [| | eauto].
    + apply IH. inversion Hex as [? ? [Hm|Hm]|]; subst; [congruence.. | assumption].
    + apply IH. inversion Hex as [? ? [Hm|Hm]|]; subst; [congruence.. | assumption].
Qed.

Lemma updateConfigFromGenesisValidators_malformed VerifyPeerFormat c vals w :
  Exists (malformed VerifyPeerFormat) vals ->
  exists e, updateConfigFromGenesisValidators VerifyPeerFormat c vals w = (Err e, w).
Proof.
  intros Hex.
  destruct (peersLoop_malformed _ _ Hex 0%nat [] []) as [e He].
  exists e. unfold updateConfigFromGenesisValidators, bind, lift.
  rewrite He. reflexivity.
Qed.

Lemma applyGenesisValidators_malformed_fails VerifyPeerFormat c vals :
  Exists (malformed VerifyPeerFormat) vals ->
  fails (applyGenesisValidators VerifyPeerFormat c vals).
Proof.
  intros Hex. unfold applyGenesisValidators.
  destruct vals as [|val rest]; [inversion Hex |].
  do 6 (apply fails_bind_r; intros ?).
  intros w. destruct (updateConfigFromGenesisValidators_malformed _ c _ w Hex)
    as [e ->]. exact Logic.I.
Qed.

Lemma buildGenesis_malformed_fails VerifyPeerFormat ChangeAddressPrefix c gi :
  Exists (malformed VerifyPeerFormat) (GenesisValidators gi) ->
  fails (buildGenesis VerifyPeerFormat ChangeAddressPrefix c gi).
Proof.
  intros Hex. unfold buildGenesis.
  do 4 (apply fails_bind_r; intros ?).
  apply fails_bind_l, fails_wrap, applyGenesisValidators_malformed_fails, Hex.
Qed.

Section Footprint.

Variable VerifyPeerFormat : launchtypes_Peer -> bool.
Variable ChangeAddressPrefix : string -> string -> result string.
Variable clispinner_OK : string.

Variable I : World -> World -> Prop.
Hypothesis I_refl : forall w, I w w.
Hypothesis I_trans : forall w1 w2 w3, I w1 w2 -> I w2 w3 -> I w1 w3.
Hypothesis I_log : forall c w, rebuild_calls c = true -> I w (log c w).
Hypothesis I_genesis : forall g w, I w (set_genesis g w).

Ltac side := solve [ apply I_refl | apply I_log; reflexivity | apply I_genesis | auto ].
Ltac go := repeat keeps_step I_refl I_trans side.

Lemma keeps_applyGenesisAccounts accs prefix :
  keeps I (applyGenesisAccounts ChangeAddressPrefix accs prefix).
Proof.
  unfold applyGenesisAccounts, chain_Commands. go.
  induction accs as [|acc rest IH]; simpl; unfold cmd_AddGenesisAccount; go.
  exact IH.
Qed.

Lemma keeps_applyVestingAccounts accs prefix :
  keeps I (applyVestingAccounts ChangeAddressPrefix accs prefix).
Proof.
  unfold applyVestingAccounts, chain_Commands. go.
  induction accs as [|acc rest IH]; simpl; unfold cmd_AddVestingAccount; go.
  exact IH.
Qed.

Hypothesis I_files : forall f w, I w (set_files f w).

Lemma keeps_writeGentxs dir i vals : keeps I (writeGentxs dir i vals).
Proof.
  revert i. induction vals as [|val rest IH]; intros i; simpl;
    unfold ioutil_WriteFile; go.
  apply IH.
Qed.

(** [applyGenesisValidators] up to the call of
    [updateConfigFromGenesisValidators]. *)
Lemma keeps_applyGenesisValidators_prefix {A} vals (k : M World A) :
  keeps I k ->
  keeps I (gentxDir <- chain_GentxsPath ;;
           os_RemoveAll gentxDir ;;;
           os_MkdirAll gentxDir ;;;
           writeGentxs gentxDir 0 vals ;;;
           chain_Commands ;;;
           cmd_CollectGentxs ;;;
           k).
Proof.
  intros Hk.
  unfold chain_GentxsPath, os_RemoveAll, os_MkdirAll, chain_Commands,
    cmd_CollectGentxs.
  go; try exact Hk. apply keeps_writeGentxs.
Qed.

(** With a malformed peer, [buildGenesis] touches nothing but the genesis and
    the files: it stops before the configuration is written. *)
Lemma keeps_buildGenesis_malformed c gi :
  Exists (malformed VerifyPeerFormat) (GenesisValidators gi) ->
  keeps I (buildGenesis VerifyPeerFormat ChangeAddressPrefix c gi).
Proof.
  intros Hex. unfold buildGenesis.
  apply (keeps_bind I I_trans); [unfold ev_Send; go | intros _].
  apply (keeps_bind I I_trans); [unfold c_detectPrefix; go | intros addressPrefix].
  apply (keeps_bind I I_trans);
    [apply keeps_wrap, keeps_applyGenesisAccounts | intros _].
  apply (keeps_bind I I_trans);
    [apply keeps_wrap, keeps_applyVestingAccounts | intros _].
  apply keeps_bind_fails.
  - apply keeps_wrap. unfold applyGenesisValidators.
    destruct (GenesisValidators gi) as [|val rest]; [inversion Hex |].
    apply keeps_applyGenesisValidators_prefix.
    intros w.
    destruct (updateConfigFromGenesisValidators_malformed _ c _ w Hex) as [e ->].
    apply I_refl.
  - apply fails_wrap, applyGenesisValidators_malformed_fails, Hex.
Qed.

Hypothesis I_config : forall t w, I w (set_config t w).
Hypothesis I_spn : forall s w, I w (set_spn s w).

Lemma keeps_updateConfigFromGenesisValidators c vals :
  keeps I (updateConfigFromGenesisValidators VerifyPeerFormat c vals).
Proof.
  unfold updateConfigFromGenesisValidators, chain_ConfigTOMLPath, toml_LoadFile,
    os_OpenFile, toml_WriteTo, c_SPNConfigPath, SetSPNConfig.
  go.
Qed.

Lemma keeps_applyGenesisValidators c vals :
  keeps I (applyGenesisValidators VerifyPeerFormat c vals).
Proof.
  unfold applyGenesisValidators. destruct vals as [|val rest]; [go |].
  apply keeps_applyGenesisValidators_prefix.
  apply keeps_updateConfigFromGenesisValidators.
Qed.

Lemma keeps_buildGenesis c gi :
  keeps I (buildGenesis VerifyPeerFormat ChangeAddressPrefix c gi).
Proof.
  unfold buildGenesis, ev_Send, c_detectPrefix, chain_GenesisPath,
    cosmosutil_SetGenesisTime.
  go.
  - apply keeps_applyGenesisAccounts.
  - apply keeps_applyVestingAccounts.
  - apply keeps_applyGenesisValidators.
Qed.

Hypothesis I_binaries : forall b w, I w (set_binaries b w).
Hypothesis I_chain_state : forall h w, I w (set_chain_state h w).

Lemma keeps_prepareEntry_StatOk c :
  keeps I (prepareEntry c StatOk).
Proof.
  unfold prepareEntry, ev_Send, chain_Build, c_initGenesis. go.
Qed.

Lemma keeps_prepareFinish c gi chainHome binaryName :
  keeps I (prepareFinish VerifyPeerFormat ChangeAddressPrefix clispinner_OK
             c gi chainHome binaryName).
Proof.
  unfold prepareFinish, chain_Commands, cmd_ValidateGenesis, cmd_UnsafeReset,
    fmt_Printf.
  go. apply keeps_buildGenesis.
Qed.

(** [Prepare] when the chain home exists. *)
Lemma keeps_Prepare_StatOk c gi w :
  w_home_stat w = StatOk ->
  I w (Prepare VerifyPeerFormat ChangeAddressPrefix clispinner_OK c gi w).2.
Proof.
  intros Hst. unfold Prepare.
  destruct (call_cases CHome (reading (fun w => e_home (w_env w))) w)
    as [(e & _ & Hh) | (_ & Hh)]; fold chain_Home in Hh.
  - rewrite (bind_Err_intro _ _ _ _ _ Hh). simpl. apply I_log. reflexivity.
  - rewrite (bind_Ok_intro _ _ _ _ _ Hh). simpl.
    eapply I_trans; [apply (I_log CHome); reflexivity |].
    erewrite bind_Ok_intro by (unfold os_Stat; apply call_total_eq).
    simpl. rewrite Hst.
    eapply I_trans; [apply (I_log (CStat (e_home (w_env w)))); reflexivity |].
    apply (keeps_bind I I_trans).
    + apply keeps_prepareEntry_StatOk.
    + intros b. apply keeps_prepareFinish.
Qed.

End Footprint.

(** ** A malformed peer descriptor *)

(** C1, as the code has it: when the peer descriptor of at least one
    validator is malformed, the genesis build returns an error and writes no
    peer configuration: [config.toml] and the file of tunneled peers are as
    before. (The genesis itself has been changed by then.) *)
Theorem buildGenesis_malformed_peer VerifyPeerFormat ChangeAddressPrefix c gi w :
  Exists (malformed VerifyPeerFormat) (GenesisValidators gi) ->
  is_Err (buildGenesis VerifyPeerFormat ChangeAddressPrefix c gi w).1 /\
  w_config (buildGenesis VerifyPeerFormat ChangeAddressPrefix c gi w).2 = w_config w /\
  w_spn (buildGenesis VerifyPeerFormat ChangeAddressPrefix c gi w).2 = w_spn w.
Proof.
  intros Hex. split; [apply buildGenesis_malformed_fails, Hex |]. split.
  - apply (keeps_buildGenesis_malformed VerifyPeerFormat ChangeAddressPrefix
             (same w_config) (same_refl _) (same_trans _)); try exact Hex;
      intros; reflexivity.
  - apply (keeps_buildGenesis_malformed VerifyPeerFormat ChangeAddressPrefix
             (same w_spn) (same_refl _) (same_trans _)); try exact Hex;
      intros; reflexivity.
Qed.

Lemma gi_malformed_Exists :
  Exists (malformed VerifyPeerFormat_topology) (GenesisValidators gi_malformed).
Proof. right. left. left. reflexivity. Qed.

Lemma buildGenesis_malformed_peer_witness :
  is_Err (buildGenesis VerifyPeerFormat_topology reprefix chain0 gi_malformed world0).1 /\
  w_config (buildGenesis VerifyPeerFormat_topology reprefix chain0 gi_malformed world0).2
    = w_config world0 /\
  w_spn (buildGenesis VerifyPeerFormat_topology reprefix chain0 gi_malformed world0).2
    = w_spn world0.
Proof.
  apply (buildGenesis_malformed_peer VerifyPeerFormat_topology reprefix chain0
           gi_malformed world0).
  right. left. left. reflexivity.
Defined.

(** C1, as stated, fails: with one malformed validator the build returns an
    error, yet the account and the gentxs, the malformed validator's too, have
    been put into the genesis. No call of the environment fails here. *)
Lemma buildGenesis_malformed_peer_mutates_genesis :
  Exists (malformed VerifyPeerFormat_topology) (GenesisValidators gi_malformed) /\
  is_Err (buildGenesis VerifyPeerFormat_topology reprefix chain0 gi_malformed world0).1 /\
  w_genesis (buildGenesis VerifyPeerFormat_topology reprefix chain0 gi_malformed world0).2
  = {| gen_accounts := [("cosmos:spn1qq", [("stake", 100)])];
       gen_vesting := [];
       gen_gentxs := [gentx_of "tx-direct"; gentx_of "tx-malformed"];
       gen_time := 0 |} /\
  w_genesis (buildGenesis VerifyPeerFormat_topology reprefix chain0 gi_malformed world0).2
  <> w_genesis world0.
Proof.
  split; [exact gi_malformed_Exists |].
  split; [vm_compute; exact Logic.I |].
  split; [vm_compute; reflexivity |].
  vm_compute. discriminate.
Qed.

(** ** The binary cache in [Build] *)

Lemma checksum_BinaryChecksum_eq name w :
  checksum_BinaryChecksum name w =
  (Ok match w_binaries w !! name with
      | Some (BinSum sum) => (sum, None)
      | Some (BinUnreadable e) => (EmptyString, Some e)
      | None => (EmptyString, Some ErrNotFound)
      end, log (CBinaryChecksum name) w).
Proof. reflexivity. Qed.

(** What [BinaryChecksum] returns for the binary [name]. *)
Lemma checkBinaryCache_eq c w :
  checkBinaryCache c w =
  if (launchID c =? 0)%N then (Ok None, w)
  else
    match e_fails (w_env w) (w_trace w) CBinary with
    | Some e => (Err e, log CBinary w)
    | None =>
        let name := e_binary (w_env w) in
        let w1 := log (CBinaryChecksum name) (log CBinary w) in
        let r := match w_binaries w !! name with
                 | Some (BinSum sum) => (sum, None)
                 | Some (BinUnreadable e) => (EmptyString, Some e)
                 | None => (EmptyString, Some ErrNotFound)
                 end in
        let w2 := log (CCheckBinaryCache (launchID c) r.1 (hash c)) w1 in
        let check :=
          match e_cache_err (w_env w) with
          | Some e => (Err e, w2)
          | None =>
              (Ok (if bool_decide (w_cache w !! (launchID c, hash c) = Some r.1)
                   then Some name else None), w2)
          end in
        match r.2 with
        | Some e => if errors_Is_ErrNotFound e then check else (Err e, w1)
        | None => check
        end
    end.
Proof.
  unfold checkBinaryCache. destruct (launchID c =? 0)%N; [reflexivity |].
  unfold bind, chain_Binary, call, call_total, checksum_BinaryChecksum,
    CheckBinaryCacheForLaunchID, reading, ret, fail.
  destruct (e_fails _ _ _); [reflexivity |]. simpl.
  destruct (w_binaries w !! e_binary (w_env w)) as [[sum|e]|]; simpl.
  - destruct (e_cache_err _); [reflexivity |]. destruct (bool_decide _); reflexivity.
  - destruct (errors_Is_ErrNotFound e); simpl; [| reflexivity].
    destruct (e_cache_err _); [reflexivity |]. destruct (bool_decide _); reflexivity.
  - destruct (e_cache_err _); [reflexivity |]. destruct (bool_decide _); reflexivity.
Qed.

Lemma chain_Binary_eq w :
  chain_Binary w =
  match e_fails (w_env w) (w_trace w) CBinary with
  | Some e => (Err e, log CBinary w)
  | None => (Ok (e_binary (w_env w)), log CBinary w)
  end.
Proof.
  unfold chain_Binary, call, call_total, reading.
  destruct (e_fails _ _ _); reflexivity.
Qed.

Lemma chain_Build_eq w :
  chain_Build w =
  match e_fails (w_env w) (w_trace w) CBuild with
  | Some e => (Err e, log CBuild w)
  | None => (Ok (e_built (w_env w)).1,
             set_binaries (install (e_built (w_env w)) (w_binaries w)) (log CBuild w))
  end.
Proof.
  unfold chain_Build, call, call_total.
  destruct (e_fails _ _ _); reflexivity.
Qed.

Lemma install_lookup b bins :
  install b bins !! b.1 = b.2.
Proof.
  unfold install. destruct b as [n [f|]]; simpl.
  - apply lookup_insert_eq.
  - apply lookup_delete_eq.
Qed.

Lemma buildAndCache_eq c w :
  buildAndCache c w =
  match e_fails (w_env w) (w_trace w) CBuild with
  | Some e => (Err e, log CBuild w)
  | None =>
      let name := (e_built (w_env w)).1 in
      let w1 := log (CBinaryChecksum name)
                  (set_binaries (install (e_built (w_env w)) (w_binaries w))
                                (log CBuild w)) in
      match (e_built (w_env w)).2 with
      | Some (BinSum sum) =>
          let w2 := log (CCacheBinary (launchID c) sum (hash c)) w1 in
          match e_cache_err (w_env w) with
          | Some e => (Err e, w2)
          | None =>
              (Ok name, set_cache (<[(launchID c, hash c) := sum]> (w_cache w)) w2)
          end
      | Some (BinUnreadable e) => (Err e, w1)
      | None => (Err ErrNotFound, w1)
      end
  end.
Proof.
  unfold buildAndCache, bind. rewrite chain_Build_eq.
  destruct (e_fails _ _ _); [reflexivity |].
  rewrite checksum_BinaryChecksum_eq.
  destruct (e_built (w_env w)) as [n [[sum|e]|]]; unfold install; simpl;
    rewrite ?lookup_insert_eq, ?lookup_delete_eq; simpl; try reflexivity.
  unfold CacheBinaryForLaunchID, ret. simpl.
  destruct (e_cache_err _); reflexivity.
Qed.

Lemma checkBinaryCache_zero c w :
  launchID c = 0%N -> checkBinaryCache c w = (Ok None, w).
Proof. intros H. unfold checkBinaryCache. rewrite H. reflexivity. Qed.

Lemma Build_hit c w name w' :
  checkBinaryCache c w = (Ok (Some name), w') -> Build c w = (Ok name, w').
Proof. intros H. unfold Build. rewrite (bind_Ok_intro _ _ _ _ _ H). reflexivity. Qed.

Lemma Build_miss c w w' :
  checkBinaryCache c w = (Ok None, w') -> Build c w = buildAndCache c w'.
Proof. intros H. unfold Build. rewrite (bind_Ok_intro _ _ _ _ _ H). reflexivity. Qed.

Lemma Build_zero c w : launchID c = 0%N -> Build c w = buildAndCache c w.
Proof. intros H. apply Build_miss, checkBinaryCache_zero, H. Qed.

Lemma new_calls_app w w' evs :
  w_trace w' = w_trace w ++ evs -> new_calls w w' = evs.
Proof. intros H. unfold new_calls. rewrite H. apply drop_app_length. Qed.

(** C2: the lookup in the binary cache made by [Build] is a hit, and [Build]
    returns the name of the existing binary without building, exactly when
    the launch id is not zero, the cache records the checksum of the pair
    (launch id, source hash), and the checksum recomputed from the binary on
    disk is the recorded one; with launch id zero the lookup is skipped and
    misses. *)
Theorem build_cache_hit_iff c w name :
  cache_sums_nonempty w ->
  ((checkBinaryCache c w).1 = Ok (Some name) <->
   launchID c <> 0%N /\ (chain_Binary w).1 = Ok name /\
   e_cache_err (w_env w) = None /\
   exists sum, (checksum_BinaryChecksum name w).1 = Ok (sum, None) /\
               w_cache w !! (launchID c, hash c) = Some sum) /\
  (launchID c = 0%N -> checkBinaryCache c w = (Ok None, w)) /\
  ((checkBinaryCache c w).1 = Ok (Some name) ->
   (Build c w).1 = Ok name /\
   w_binaries (Build c w).2 = w_binaries w /\
   ~ In CBuild (new_calls w (Build c w).2)).
Proof.
  intros Hwf.
  assert (Hne : forall k, w_cache w !! k <> Some EmptyString).
  { intros k Hk. exact (Hwf k _ Hk eq_refl). }
  split; [| split].
  - rewrite checkBinaryCache_eq, chain_Binary_eq, checksum_BinaryChecksum_eq.
    destruct (launchID c =? 0)%N eqn:Hl.
    { apply N.eqb_eq in Hl. simpl. split; [discriminate | tauto]. }
    apply N.eqb_neq in Hl.
    destruct (e_fails _ _ _); simpl.
    { split; [discriminate | intros (_ & ? & _); discriminate]. }
    split.
    + intros H.
      destruct (w_binaries w !! e_binary (w_env w)) as [[s|e]|] eqn:Hb; simpl in H.
      * destruct (e_cache_err _); [discriminate |].
        case_bool_decide; simpl in H; [| discriminate]. injection H as <-.
        rewrite Hb. eauto 10.
      * exfalso. destruct (errors_Is_ErrNotFound e); [| discriminate].
        destruct (e_cache_err _); [discriminate |].
        case_bool_decide as Hk; [exact (Hne _ Hk) | discriminate].
      * exfalso. destruct (e_cache_err _); [discriminate |].
        case_bool_decide as Hk; [exact (Hne _ Hk) | discriminate].
    + intros (_ & [= <-] & Hc & sum & Hs & Hk). rewrite Hc.
      destruct (w_binaries w !! e_binary (w_env w)) as [[s|e]|];
        simpl in Hs; try discriminate.
      injection Hs as <-. simpl. rewrite bool_decide_eq_true_2 by exact Hk.
      reflexivity.
  - apply checkBinaryCache_zero.
  - intros H. destruct (checkBinaryCache c w) as [r w'] eqn:Hcb. simpl in H.
    subst r. rewrite (Build_hit _ _ _ _ Hcb). simpl.
    rewrite checkBinaryCache_eq in Hcb.
    destruct (launchID c =? 0)%N; [discriminate |].
    destruct (e_fails _ _ _); [discriminate |]. simpl in Hcb.
    assert (Hw' : exists s, w' = log (CCheckBinaryCache (launchID c) s (hash c))
                    (log (CBinaryChecksum (e_binary (w_env w))) (log CBinary w))).
    { destruct (w_binaries w !! e_binary (w_env w)) as [[s|e]|]; simpl in Hcb.
      - destruct (e_cache_err _); [discriminate |]. injection Hcb as _ <-. eauto.
      - destruct (errors_Is_ErrNotFound e); [| discriminate].
        destruct (e_cache_err _); [discriminate |]. injection Hcb as _ <-. eauto.
      - destruct (e_cache_err _); [discriminate |]. injection Hcb as _ <-. eauto. }
    destruct Hw' as [s ->]. split; [reflexivity |]. split; [reflexivity |].
    erewrite new_calls_app; [| simpl; rewrite <- !app_assoc; reflexivity].
    simpl. intros [?|[?|[?|[]]]]; discriminate.
Qed.

Lemma world_cached_sums : cache_sums_nonempty world_cached.
Proof.
  unfold cache_sums_nonempty, world_cached. simpl.
  apply map_Forall_insert_2; [discriminate | apply map_Forall_empty].
Qed.

Lemma build_cache_hit_iff_witness :
  cache_sums_nonempty world_cached /\
  (checkBinaryCache chain0 world_cached).1 = Ok (Some "chaind") /\
  (Build chain0 world_cached).1 = Ok "chaind".
Proof.
  pose proof (build_cache_hit_iff chain0 world_cached "chaind" world_cached_sums)
    as (Hiff & _ & Hbuild).
  assert (Hhit : (checkBinaryCache chain0 world_cached).1 = Ok (Some "chaind")).
  { apply Hiff. split; [discriminate |]. split; [reflexivity |].
    split; [reflexivity |]. exists "5e1f". split; reflexivity. }
  split; [exact world_cached_sums |]. split; [exact Hhit |].
  apply Hbuild, Hhit.
Defined.

(** A record stored by [CacheBinaryForLaunchID] is found by the lookup exactly
    with the stored checksum: a binary changed after the store misses. *)
Lemma lookup_after_store l sum s sum' w w' b w'' :
  CacheBinaryForLaunchID l sum s w = (Ok tt, w') ->
  CheckBinaryCacheForLaunchID l sum' s w' = (Ok b, w'') ->
  b = bool_decide (sum' = sum).
Proof.
  unfold CacheBinaryForLaunchID, CheckBinaryCacheForLaunchID.
  destruct (e_cache_err (w_env w)) eqn:He; [discriminate |].
  intros [= <-]. simpl. rewrite He. intros [= <- _].
  rewrite lookup_insert_eq. apply bool_decide_ext. split; congruence.
Qed.

(** [Build] keeps the checksums of the world non-empty: the hypothesis of the
    properties of the cache is an invariant. *)
Lemma Build_preserves_wf c w : wf_world w -> wf_world (Build c w).2.
Proof.
  intros (Hc & Hb & He).
  assert (Hcheck : wf_world (checkBinaryCache c w).2).
  { rewrite checkBinaryCache_eq. destruct (launchID c =? 0)%N; [repeat split; assumption |].
    destruct (e_fails _ _ _); [repeat split; assumption |]. simpl.
    destruct (w_binaries w !! e_binary (w_env w)) as [[s|e]|]; simpl.
    - destruct (e_cache_err (w_env w)); repeat split; assumption.
    - destruct (errors_Is_ErrNotFound e); [| repeat split; assumption].
      destruct (e_cache_err (w_env w)); repeat split; assumption.
    - destruct (e_cache_err (w_env w)); repeat split; assumption. }
  unfold Build, bind.
  destruct (checkBinaryCache c w) as [[[n|]|e] w1] eqn:Hcb; simpl in *;
    try exact Hcheck.
  destruct Hcheck as (Hc1 & Hb1 & He1). rewrite buildAndCache_eq.
  assert (Hinst : map_Forall (fun (_ : string) (f : BinFile) => f <> BinSum EmptyString)
                    (install (e_built (w_env w1)) (w_binaries w1))).
  { unfold install. destruct (e_built (w_env w1)) as [n [f|]]; simpl in *.
    - apply map_Forall_insert_2; [congruence | exact Hb1].
    - apply map_Forall_delete. exact Hb1. }
  destruct (e_fails _ _ _); [split; [| split]; assumption |]. simpl.
  assert (He2 := He1).
  destruct (e_built (w_env w1)).2 as [[s|e]|] eqn:Hbuilt; simpl;
    [| split; [| split]; [exact Hc1 | exact Hinst | simpl; rewrite Hbuilt; exact He2]..].
  destruct (e_cache_err (w_env w1));
    [split; [| split]; [exact Hc1 | exact Hinst | simpl; rewrite Hbuilt; exact He2] |].
  split; [| split; [exact Hinst | simpl; rewrite Hbuilt; exact He2]].
  unfold cache_sums_nonempty. simpl.
  apply map_Forall_insert_2; [congruence | exact Hc1].
Qed.

(** ** Checksum failures in [Build] *)

(** C7, as the code has it. Before the build, a checksum failure of the
    tool-not-found class is not fatal: the lookup misses and [Build] goes on to
    build; any other checksum failure makes [Build] return that error, without
    building. After the build, every checksum failure, of the tool-not-found
    class too, makes [Build] return that error. *)
Theorem build_checksum_failures c w name sum e :
  cache_sums_nonempty w ->
  launchID c <> 0%N ->
  (chain_Binary w).1 = Ok name ->
  (checksum_BinaryChecksum name w).1 = Ok (sum, Some e) ->
  (errors_Is_ErrNotFound e = true ->
   e_cache_err (w_env w) = None ->
   (checkBinaryCache c w).1 = Ok None /\
   Build c w = buildAndCache c (checkBinaryCache c w).2) /\
  (errors_Is_ErrNotFound e = false ->
   (Build c w).1 = Err e /\ w_binaries (Build c w).2 = w_binaries w /\
   ~ In CBuild (new_calls w (Build c w).2)) /\
  (forall w0 name' w1 sum' e',
     chain_Build w0 = (Ok name', w1) ->
     (checksum_BinaryChecksum name' w1).1 = Ok (sum', Some e') ->
     (buildAndCache c w0).1 = Err e').
Proof.
  intros Hwf Hl Hb Hs.
  assert (Hne : forall k, w_cache w !! k <> Some EmptyString).
  { intros k Hk. exact (Hwf k _ Hk eq_refl). }
  apply N.eqb_neq in Hl.
  rewrite chain_Binary_eq in Hb. rewrite checksum_BinaryChecksum_eq in Hs.
  simpl in Hs.
  assert (Hcb := checkBinaryCache_eq c w). rewrite Hl in Hcb.
  destruct (e_fails (w_env w) (w_trace w) CBinary); [discriminate |].
  simpl in Hb. injection Hb as <-. simpl in Hcb.
  split; [| split].
  - intros He Hc. rewrite Hc in Hcb.
    assert (Hres : checkBinaryCache c w =
                   (Ok None, log (CCheckBinaryCache (launchID c) EmptyString (hash c))
                      (log (CBinaryChecksum (e_binary (w_env w))) (log CBinary w)))).
    { rewrite Hcb.
      destruct (w_binaries w !! e_binary (w_env w)) as [[s|e0]|];
        simpl in Hs |- *; try discriminate.
      - injection Hs as <- <-. rewrite He. simpl.
        rewrite bool_decide_eq_false_2 by apply Hne. reflexivity.
      - injection Hs as <- <-. simpl.
        rewrite bool_decide_eq_false_2 by apply Hne. reflexivity. }
    rewrite Hres. simpl. split; [reflexivity |].
    apply Build_miss. exact Hres.
  - intros He.
    assert (Hres : checkBinaryCache c w =
                   (Err e, log (CBinaryChecksum (e_binary (w_env w))) (log CBinary w))).
    { rewrite Hcb.
      destruct (w_binaries w !! e_binary (w_env w)) as [[s|e0]|];
        simpl in Hs |- *; try discriminate.
      - injection Hs as <- <-. rewrite He. reflexivity.
      - injection Hs as <- <-. discriminate He. }
    unfold Build. rewrite (bind_Err_intro _ _ _ _ _ Hres). simpl.
    split; [reflexivity |]. split; [reflexivity |].
    erewrite new_calls_app; [| simpl; rewrite <- !app_assoc; reflexivity].
    simpl. intros [?|[?|[]]]; discriminate.
  - intros w0 name' w1 sum' e' Hbuild Hsum.
    rewrite chain_Build_eq in Hbuild. rewrite buildAndCache_eq.
    destruct (e_fails (w_env w0) (w_trace w0) CBuild); [discriminate |].
    injection Hbuild as <- <-. rewrite checksum_BinaryChecksum_eq in Hsum.
    simpl in Hsum. rewrite install_lookup in Hsum.
    destruct (e_built (w_env w0)).2 as [[s|e0]|]; simpl in Hsum |- *;
      congruence.
Qed.

Lemma build_checksum_failures_witness :
  (checkBinaryCache chain0 world_nopath).1 = Ok None /\
  Build chain0 world_nopath =
  buildAndCache chain0 (checkBinaryCache chain0 world_nopath).2.
Proof.
  refine (proj1 (build_checksum_failures chain0 world_nopath "chaind" EmptyString
                   ErrNotFound _ _ _ _) _ _); try reflexivity.
  - apply map_Forall_empty.
  - discriminate.
Defined.

(** C7, as stated, fails: no call of the environment fails, the build
    succeeds, the checksum of the built binary fails with an error of the
    tool-not-found class, and [Build] returns that error. *)
Lemma build_checksum_not_found_fatal :
  (forall t c, e_fails (w_env world_nopath) t c = None) /\
  (chain_Build (checkBinaryCache chain0 world_nopath).2).1 = Ok "chaind" /\
  (checksum_BinaryChecksum "chaind"
     (chain_Build (checkBinaryCache chain0 world_nopath).2).2).1
  = Ok (EmptyString, Some ErrNotFound) /\
  errors_Is_ErrNotFound ErrNotFound = true /\
  (Build chain0 world_nopath).1 = Err ErrNotFound.
Proof.
  split; [reflexivity |]. repeat split; vm_compute; reflexivity.
Qed.

(** ** The record of a built binary *)

(** C10: after the binary is built, [Build] recomputes its checksum; a failure
    of that checksum, of whatever class, makes [Build] return the error;
    otherwise the record of launch id, checksum and source hash is stored,
    whatever the launch id, zero too, for which [Build] makes no lookup. This
    is what [Build] does with launch id zero and after every lookup that
    misses. *)
Theorem build_stores_record c w name w1 :
  chain_Build w = (Ok name, w1) ->
  (forall sum e,
     (checksum_BinaryChecksum name w1).1 = Ok (sum, Some e) ->
     (buildAndCache c w).1 = Err e /\
     w_cache (buildAndCache c w).2 = w_cache w) /\
  (forall sum,
     (checksum_BinaryChecksum name w1).1 = Ok (sum, None) ->
     new_calls w (buildAndCache c w).2 =
       [CBuild; CBinaryChecksum name; CCacheBinary (launchID c) sum (hash c)] /\
     (e_cache_err (w_env w) = None ->
      (buildAndCache c w).1 = Ok name /\
      w_cache (buildAndCache c w).2 = <[(launchID c, hash c) := sum]> (w_cache w))) /\
  (launchID c = 0%N -> Build c w = buildAndCache c w) /\
  (forall w0, checkBinaryCache c w0 = (Ok None, w) -> Build c w0 = buildAndCache c w).
Proof.
  intros Hbuild. rewrite chain_Build_eq in Hbuild.
  split; [| split; [| split; [apply Build_zero | intros w0; apply Build_miss]]].
  - intros sum e Hs. rewrite buildAndCache_eq.
    destruct (e_fails (w_env w) (w_trace w) CBuild); [discriminate |].
    injection Hbuild as <- <-.
    rewrite checksum_BinaryChecksum_eq in Hs. simpl in Hs.
    rewrite install_lookup in Hs.
    destruct (e_built (w_env w)).2 as [[s|e0]|]; simpl in Hs |- *;
      try discriminate; injection Hs as <- <-; auto.
  - intros sum Hs. rewrite buildAndCache_eq.
    destruct (e_fails (w_env w) (w_trace w) CBuild); [discriminate |].
    injection Hbuild as <- <-.
    rewrite checksum_BinaryChecksum_eq in Hs. simpl in Hs.
    rewrite install_lookup in Hs.
    destruct (e_built (w_env w)).2 as [[s|e0]|]; simpl in Hs |- *;
      try discriminate. injection Hs as <-. split.
    + erewrite new_calls_app; [reflexivity |].
      destruct (e_cache_err _); simpl; rewrite <- !app_assoc; reflexivity.
    + intros ->. simpl. auto.
Qed.

Lemma build_stores_record_witness :
  (Build chain_adhoc world0).1 = Ok "chaind" /\
  w_cache (Build chain_adhoc world0).2 !! (0%N, "c0ffee") = Some "5e1f".
Proof.
  destruct (build_stores_record chain_adhoc world0 "chaind"
              (chain_Build world0).2 eq_refl) as (_ & Hstore & Hzero & _).
  destruct (Hstore "5e1f" eq_refl) as (_ & Hok).
  destruct (Hok eq_refl) as (Hres & Hcache).
  rewrite (Hzero eq_refl). split; [exact Hres |].
  rewrite Hcache. apply lookup_insert_eq.
Defined.

(** ** The loop over the validators *)

Lemma localPort_inj i j : localPort i = localPort j -> i = j.
Proof.
  unfold localPort, strconv_Itoa. intros H. apply (inj pretty) in H. lia.
Qed.

(** What the loop of [updateConfigFromGenesisValidators] appends to its two
    slices when it goes to the end. *)
Lemma peersLoop_Ok VerifyPeerFormat vals : forall i p t p' t',
  peersLoop VerifyPeerFormat i vals p t = Ok (p', t') ->
  exists ps ts,
    p' = p ++ ps /\ t' = t ++ ts /\
    length ps = length vals /\
    (forall k val, vals !! k = Some val ->
       ps !! k = Some (peerString (i + k) val) /\
       VerifyPeerFormat (Peer val) = true /\
       Connection (Peer val) <> Peer_NoConnection) /\
    (forall tp, tp ∈ ts <->
       exists k val name address,
         vals !! k = Some val /\
         Connection (Peer val) = Peer_HttpTunnel name address /\
         tp = tunnelOf (i + k) val name address) /\
    NoDup (LocalPort <$> ts).
Proof.
  induction vals as [|val rest IH]; intros i p t p' t' H; simpl in H.
  - injection H as <- <-. exists [], []. rewrite !app_nil_r.
    repeat split; try discriminate; try constructor.
    + intros Hin. inversion Hin.
    + intros (k & v & _ & _ & Hk & _). discriminate.
  - destruct (VerifyPeerFormat (Peer val)) eqn:Hv; simpl in H; [| discriminate].
    destruct (Connection (Peer val)) as [tcp|name address|] eqn:Hc;
      [| | discriminate].
    + apply IH in H as (ps & ts & -> & -> & Hlen & Hps & Hts & Hnd).
      exists (directAddress (Id (Peer val)) tcp :: ps), ts.
      rewrite <- app_assoc. simpl. repeat split; auto.
      * destruct k as [|k]; simpl in *.
        -- injection H as <-. unfold peerString. rewrite Hc, ?Nat.add_0_r. reflexivity.
        -- replace (i + S k)%nat with (S i + k)%nat by lia. apply (Hps k val0 H).
      * destruct k as [|k]; simpl in *; [congruence | apply (Hps k val0 H)].
      * destruct k as [|k]; simpl in *; [congruence | apply (Hps k val0 H)].
      * intros Hin. apply Hts in Hin as (k & v & n & a & Hk & Hcv & ->).
        exists (S k), v, n, a. replace (i + S k)%nat with (S i + k)%nat by lia. auto.
      * intros (k & v & n & a & Hk & Hcv & ->). apply Hts.
        destruct k as [|k]; simpl in Hk; [congruence |].
        exists k, v, n, a. replace (S i + k)%nat with (i + S k)%nat by lia. auto.
    + apply IH in H as (ps & ts & -> & -> & Hlen & Hps & Hts & Hnd).
      exists (tunnelAddress (Id (Peer val)) (localPort i) :: ps),
             (tunnelOf i val name address :: ts).
      rewrite <- !app_assoc. simpl. repeat split; auto.
      * destruct k as [|k]; simpl in *.
        -- injection H as <-. unfold peerString. rewrite Hc, ?Nat.add_0_r. reflexivity.
        -- replace (i + S k)%nat with (S i + k)%nat by lia. apply (Hps k val0 H).
      * destruct k as [|k]; simpl in *; [congruence | apply (Hps k val0 H)].
      * destruct k as [|k]; simpl in *; [congruence | apply (Hps k val0 H)].
      * intros Hin. apply elem_of_cons in Hin as [-> | Hin].
        -- exists 0%nat, val, name, address. rewrite Nat.add_0_r. auto.
        -- apply Hts in Hin as (k & v & n & a & Hk & Hcv & ->).
           exists (S k), v, n, a.
           replace (i + S k)%nat with (S i + k)%nat by lia. auto.
      * intros (k & v & n & a & Hk & Hcv & ->). apply elem_of_cons.
        destruct k as [|k]; simpl in Hk.
        -- left. injection Hk as <-. rewrite Hc in Hcv. injection Hcv as <- <-.
           rewrite Nat.add_0_r. reflexivity.
        -- right. apply Hts. exists k, v, n, a.
           replace (S i + k)%nat with (i + S k)%nat by lia. auto.
      * apply NoDup_cons. split; [| exact Hnd].
        intros Hin. apply list_elem_of_fmap in Hin as (tp & Hport & Hin).
        apply Hts in Hin as (k & v & n & a & _ & _ & ->).
        simpl in Hport. apply localPort_inj in Hport. lia.
Qed.

(** The loop goes to the end when every peer is well formed. *)
Lemma peersLoop_total VerifyPeerFormat vals : forall i p t,
  Forall (fun val => ~ malformed VerifyPeerFormat val) vals ->
  exists p' t', peersLoop VerifyPeerFormat i vals p t = Ok (p', t').
Proof.
  induction vals as [|val rest IH]; intros i p t Hall; simpl; [eauto |].
  inversion Hall as [|? ? Hval Hrest]; subst. unfold malformed in Hval.
  destruct (VerifyPeerFormat (Peer val)); simpl; [| tauto].
  destruct (Connection (Peer val)); [apply IH, Hrest | apply IH, Hrest | tauto].
Qed.

(** C4: the tunneled validator at index [i] of the list is bound to the local
    port [22000 + i], in its tunnel binding and in its peer string; the
    bindings are exactly these, and their ports are pairwise distinct. The
    loop is a function of the list, so a repeated run gives the same ports.
    For the three validators of the scenario the peer strings are the
    expected ones. *)
Theorem tunnel_ports VerifyPeerFormat vals p2pAddresses tunnelAddresses :
  peersLoop VerifyPeerFormat 0 vals [] [] = Ok (p2pAddresses, tunnelAddresses) ->
  (forall i val name address,
     vals !! i = Some val ->
     Connection (Peer val) = Peer_HttpTunnel name address ->
     {| Name := name; Address := address; NodeID := Id (Peer val);
        LocalPort := strconv_Itoa (Z.of_nat i + 22000) |} ∈ tunnelAddresses /\
     p2pAddresses !! i =
       Some (Id (Peer val) +:+ "@127.0.0.1:" +:+ strconv_Itoa (Z.of_nat i + 22000))) /\
  (forall tp, tp ∈ tunnelAddresses ->
     exists i val name address,
       vals !! i = Some val /\
       Connection (Peer val) = Peer_HttpTunnel name address /\
       tp = {| Name := name; Address := address; NodeID := Id (Peer val);
               LocalPort := strconv_Itoa (Z.of_nat i + 22000) |}) /\
  NoDup (LocalPort <$> tunnelAddresses) /\
  (forall V1id V2id V3id addressA addressB,
     Forall (fun val => VerifyPeerFormat (Peer val) = true)
            (scenario V1id V2id V3id addressA addressB) ->
     peersLoop VerifyPeerFormat 0 (scenario V1id V2id V3id addressA addressB) [] []
     = Ok ([V1id +:+ "@1.2.3.4:26656";
            V2id +:+ "@127.0.0.1:22001";
            V3id +:+ "@127.0.0.1:22002"],
           [ {| Name := "relayA"; Address := addressA; NodeID := V2id;
                LocalPort := "22001" |};
             {| Name := "relayB"; Address := addressB; NodeID := V3id;
                LocalPort := "22002" |} ])).
Proof.
  intros H. apply peersLoop_Ok in H as (ps & ts & -> & -> & _ & Hps & Hts & Hnd).
  simpl. split; [| split; [| split]].
  - intros i val name address Hi Hc. split.
    + apply Hts. exists i, val, name, address. auto.
    + destruct (Hps i val Hi) as (-> & _). unfold peerString. rewrite Hc.
      reflexivity.
  - intros tp Hin. apply Hts in Hin as (k & v & n & a & Hk & Hc & ->). eauto 10.
  - exact Hnd.
  - intros V1id V2id V3id addressA addressB Hall.
    inversion Hall as [|? ? H1 Hall1]; subst.
    inversion Hall1 as [|? ? H2 Hall2]; subst.
    inversion Hall2 as [|? ? H3 _]; subst.
    simpl in *. rewrite H1, H2, H3. reflexivity.
Qed.

Lemma tunnel_ports_witness :
  peersLoop VerifyPeerFormat_topology 0 (scenario "V1" "V2" "V3" "a" "b") [] []
  = Ok (["V1@1.2.3.4:26656"; "V2@127.0.0.1:22001"; "V3@127.0.0.1:22002"],
        [ {| Name := "relayA"; Address := "a"; NodeID := "V2"; LocalPort := "22001" |};
          {| Name := "relayB"; Address := "b"; NodeID := "V3"; LocalPort := "22002" |} ])
  /\ NoDup (LocalPort <$>
        [ {| Name := "relayA"; Address := "a"; NodeID := "V2"; LocalPort := "22001" |};
          {| Name := "relayB"; Address := "b"; NodeID := "V3"; LocalPort := "22002" |} ]).
Proof.
  split; [reflexivity |].
  exact (proj1 (proj2 (proj2
    (tunnel_ports VerifyPeerFormat_topology (scenario "V1" "V2" "V3" "a" "b")
       _ _ eq_refl)))).
Defined.

(** ** The configuration written from the validators *)

(** What [updateConfigFromGenesisValidators] leaves when it returns no
    error. *)
Lemma updateConfigFromGenesisValidators_Ok VerifyPeerFormat c vals w w' :
  updateConfigFromGenesisValidators VerifyPeerFormat c vals w = (Ok tt, w') ->
  exists p t,
    peersLoop VerifyPeerFormat 0 vals [] [] = Ok (p, t) /\
    w_config w' =
      (if (0 <? length p)%nat then
         let configToml :=
           <["p2p.persistent_peers" := TomlString (strings_Join p ",")]> (w_config w) in
         if (0 <? length t)%nat
         then <["p2p.allow_duplicate_ip" := TomlBool true]> configToml
         else configToml
       else w_config w) /\
    w_spn w' = (if (0 <? length t)%nat then Some {| TunneledPeers := t |}
                else w_spn w) /\
    w_files w' = w_files w /\ w_genesis w' = w_genesis w /\ w_env w' = w_env w.
Proof.
  intros H. unfold updateConfigFromGenesisValidators in H.
  apply bind_Ok in H as ([p t] & w0 & Hl & H).
  unfold lift in Hl. injection Hl as Hl <-. simpl in H.
  apply bind_Ok in H as ([] & w1 & HA & HB).
  exists p, t. split; [exact Hl |].
  assert (H1 : w_config w1 =
      (if (0 <? length p)%nat then
         let configToml :=
           <["p2p.persistent_peers" := TomlString (strings_Join p ",")]> (w_config w) in
         if (0 <? length t)%nat
         then <["p2p.allow_duplicate_ip" := TomlBool true]> configToml
         else configToml
       else w_config w) /\
      w_spn w1 = w_spn w /\ w_files w1 = w_files w /\
      w_genesis w1 = w_genesis w /\ w_env w1 = w_env w).
  { destruct (0 <? length p)%nat.
    - apply bind_Ok in HA as (configPath & wa & Ha & HA).
      apply call_Ok in Ha as (_ & -> & ->).
      apply bind_Ok in HA as (configToml & wb & Hb & HA).
      apply call_Ok in Hb as (_ & -> & ->).
      apply bind_Ok in HA as ([] & wc & Hc & HA).
      apply call_Ok in Hc as (_ & _ & ->).
      apply call_Ok in HA as (_ & _ & ->).
      simpl. auto.
    - injection HA as <-. auto. }
  destruct H1 as (Hc1 & Hs1 & Hf1 & Hg1 & He1).
  destruct (0 <? length t)%nat.
  - apply bind_Ok in HB as (spnPath & wa & Ha & HB).
    apply call_Ok in Ha as (_ & -> & ->).
    apply call_Ok in HB as (_ & _ & ->).
    simpl. auto.
  - injection HB as <-. auto.
Qed.

Lemma tunnels_nonempty VerifyPeerFormat vals p t :
  peersLoop VerifyPeerFormat 0 vals [] [] = Ok (p, t) ->
  length p = length vals /\
  ((0 <? length t)%nat = true <-> Exists is_tunnel vals).
Proof.
  intros H. apply peersLoop_Ok in H as (ps & ts & -> & -> & Hlen & _ & Hts & _).
  simpl. split; [exact Hlen |]. split.
  - intros Hpos. destruct ts as [|tp ts']; [discriminate |].
    destruct (proj1 (Hts tp) (list_elem_of_here _ _)) as (k & v & n & a & Hk & Hc & _).
    apply Exists_exists. exists v. split.
    + eapply list_elem_of_lookup_2. exact Hk.
    + exists n, a. exact Hc.
  - intros Hex. apply Exists_exists in Hex as (v & Hin & n & a & Hc).
    apply list_elem_of_lookup in Hin as [k Hk].
    assert (Hin : tunnelOf (0 + k) v n a ∈ ts) by (apply Hts; eauto 10).
    destruct ts; [inversion Hin | reflexivity].
Qed.

(** C6, as the code has it: after the peers are configured, the
    configuration has [p2p.allow_duplicate_ip] true exactly when a validator
    uses a tunnel or the flag was true already in the [config.toml] that was
    loaded: the flag is set, never cleared. *)
Theorem allow_duplicate_ip_iff VerifyPeerFormat c vals w w' :
  updateConfigFromGenesisValidators VerifyPeerFormat c vals w = (Ok tt, w') ->
  (w_config w' !! "p2p.allow_duplicate_ip" = Some (TomlBool true) <->
   Exists is_tunnel vals \/
   w_config w !! "p2p.allow_duplicate_ip" = Some (TomlBool true)).
Proof.
  intros H.
  apply updateConfigFromGenesisValidators_Ok in H as (p & t & Hl & -> & _).
  apply tunnels_nonempty in Hl as (Hlen & Ht).
  destruct (0 <? length t)%nat eqn:Htpos.
  - assert (Hex : Exists is_tunnel vals) by (apply Ht; reflexivity).
    assert (Hp : (0 <? length p)%nat = true).
    { rewrite Hlen. destruct vals; [inversion Hex | reflexivity]. }
    rewrite Hp. simpl. rewrite lookup_insert_eq. tauto.
  - assert (Hno : ~ Exists is_tunnel vals) by (rewrite <- Ht; discriminate).
    destruct (0 <? length p)%nat; simpl.
    + rewrite lookup_insert_ne by discriminate. tauto.
    + tauto.
Qed.

Lemma allow_duplicate_ip_iff_witness :
  w_config world_tunneled !! "p2p.allow_duplicate_ip" = Some (TomlBool true) <->
  Exists is_tunnel [val_tunnel] \/
  w_config world0 !! "p2p.allow_duplicate_ip" = Some (TomlBool true).
Proof.
  apply (allow_duplicate_ip_iff VerifyPeerFormat_topology chain0 [val_tunnel]
           world0 world_tunneled).
  vm_compute. reflexivity.
Defined.

(** C6, as stated, fails: the flag was false; a first run with a tunneled
    validator sets it; a second run, over a list with a direct validator
    only, returns no error and leaves the flag true. *)
Lemma allow_duplicate_ip_stays_true :
  w_config world0 !! "p2p.allow_duplicate_ip" = Some (TomlBool false) /\
  (updateConfigFromGenesisValidators VerifyPeerFormat_topology chain0
     [val_direct] world_tunneled).1 = Ok tt /\
  w_config (updateConfigFromGenesisValidators VerifyPeerFormat_topology chain0
              [val_direct] world_tunneled).2 !! "p2p.allow_duplicate_ip"
  = Some (TomlBool true) /\
  ~ Exists is_tunnel [val_direct].
Proof.
  split; [vm_compute; reflexivity |].
  split; [vm_compute; reflexivity |].
  split; [vm_compute; reflexivity |].
  intros Hex. apply Exists_cons in Hex as [(n & a & Hc) | Hex].
  - discriminate Hc.
  - inversion Hex.
Qed.

(** ** The gentx files *)

Lemma list_ascii_of_string_app s1 s2 :
  String.list_ascii_of_string (s1 +:+ s2) =
  String.list_ascii_of_string s1 ++ String.list_ascii_of_string s2.
Proof.
  induction s1 as [|a s1 IH]; [reflexivity |].
  change (String a s1 +:+ s2) with (String a (s1 +:+ s2)). simpl.
  rewrite IH. reflexivity.
Qed.

Lemma string_app_inj_r s1 s2 s : s1 +:+ s = s2 +:+ s -> s1 = s2.
Proof.
  intros H. apply (f_equal String.list_ascii_of_string) in H.
  rewrite !list_ascii_of_string_app in H. apply app_inv_tail in H.
  rewrite <- (String.string_of_list_ascii_of_string s1),
          <- (String.string_of_list_ascii_of_string s2), H.
  reflexivity.
Qed.

Lemma gentxName_inj i j : gentxName i = gentxName j -> i = j.
Proof.
  unfold gentxName. intros H. apply (inj (String.append "gentx")) in H.
  apply string_app_inj_r in H. unfold strconv_Itoa in H.
  apply (inj pretty) in H. lia.
Qed.

Lemma gentx_path_inj dir i j :
  filepath_Join dir (gentxName i) = filepath_Join dir (gentxName j) -> i = j.
Proof.
  unfold filepath_Join. intros H.
  apply (inj (String.append dir)), (inj (String.append "/")) in H.
  apply gentxName_inj, H.
Qed.

Lemma ioutil_WriteFile_Ok name data w w' :
  ioutil_WriteFile name data w = (Ok tt, w') ->
  w' = set_files (<[name := data]> (w_files w)) (log (CWriteFile name data) w).
Proof. intros H. apply call_Ok in H as (_ & _ & ->). reflexivity. Qed.

(** The loop that writes the gentxs: the file of index [i + k] holds the
    gentx of the [k]-th validator, the other files are as before, and the
    files were written in the order of the list. *)
Lemma writeGentxs_Ok dir vals : forall i w w',
  writeGentxs dir i vals w = (Ok tt, w') ->
  (forall k val, vals !! k = Some val ->
     w_files w' !! filepath_Join dir (gentxName (i + k)) = Some (Gentx val)) /\
  (forall name,
     (forall k, (k < length vals)%nat -> name <> filepath_Join dir (gentxName (i + k))) ->
     w_files w' !! name = w_files w !! name) /\
  w_trace w' =
    w_trace w ++
    imap (fun k val => CWriteFile (filepath_Join dir (gentxName (i + k))) (Gentx val)) vals /\
  w_env w' = w_env w /\ w_config w' = w_config w /\ w_spn w' = w_spn w.
Proof.
  induction vals as [|val rest IH]; intros i w w' H; simpl in H.
  - injection H as <-. simpl. rewrite app_nil_r.
    repeat split; auto. intros k v Hk. discriminate.
  - apply bind_Ok in H as ([] & w1 & Hw & H).
    apply ioutil_WriteFile_Ok in Hw. subst w1.
    apply IH in H as (Hfiles & Hother & Htrace & Henv & Hcfg & Hspn).
    split; [| split; [| split; [| auto]]].
    + intros [|k] v Hk; simpl in Hk.
      * injection Hk as <-. rewrite Nat.add_0_r.
        rewrite Hother; [simpl; apply lookup_insert_eq |].
        intros k _ Heq. apply gentx_path_inj in Heq. lia.
      * replace (i + S k)%nat with (S i + k)%nat by lia. apply Hfiles, Hk.
    + intros name Hname. rewrite Hother.
      * simpl. apply lookup_insert_ne. intros <-.
        apply (Hname 0%nat); [simpl; lia | rewrite Nat.add_0_r; reflexivity].
      * intros k Hk. replace (S i + k)%nat with (i + S k)%nat by lia.
        apply Hname. simpl. lia.
    + rewrite Htrace. simpl. rewrite <- app_assoc. simpl.
      rewrite Nat.add_0_r. do 2 f_equal.
      apply imap_ext. intros k v _. simpl. do 3 f_equal. lia.
Qed.

Ltac emits_side :=
  first [ apply emits_log; reflexivity | apply emits_same_trace; reflexivity ].

Lemma updateConfigFromGenesisValidators_no_write VerifyPeerFormat c vals :
  keeps (emits (fun c => negb (is_write c)))
        (updateConfigFromGenesisValidators VerifyPeerFormat c vals).
Proof.
  unfold updateConfigFromGenesisValidators, chain_ConfigTOMLPath, toml_LoadFile,
    os_OpenFile, toml_WriteTo, c_SPNConfigPath, SetSPNConfig.
  repeat keeps_step (emits_refl (fun c => negb (is_write c)))
                    (emits_trans (fun c => negb (is_write c))) emits_side.
Qed.

Lemma filter_Forall_all {A} (P : A -> Prop) `{!forall x, Decision (P x)} (l : list A) :
  Forall P l -> filter P l = l.
Proof.
  induction 1 as [|x l Hx _ IH]; [reflexivity |].
  rewrite filter_cons_True by exact Hx. rewrite IH. reflexivity.
Qed.

Lemma filter_Forall_none {A} (P : A -> Prop) `{!forall x, Decision (P x)} (l : list A) :
  Forall (fun x => ~ P x) l -> filter P l = [].
Proof.
  induction 1 as [|x l Hx _ IH]; [reflexivity |].
  rewrite filter_cons_False by exact Hx. exact IH.
Qed.

Lemma Forall_imap {A B} (P : B -> Prop) (l : list A) : forall (f : nat -> A -> B),
  (forall k x, P (f k x)) -> Forall P (imap f l).
Proof.
  induction l as [|x l IH]; intros f Hf; simpl; constructor.
  - apply Hf.
  - apply IH. intros k y. apply Hf.
Qed.

(** What [applyGenesisValidators] leaves when it returns no error. *)
Lemma applyGenesisValidators_Ok VerifyPeerFormat c vals w w' :
  applyGenesisValidators VerifyPeerFormat c vals w = (Ok tt, w') ->
  vals <> [] ->
  let dir := e_gentxs_path (w_env w) in
  (forall i val, vals !! i = Some val ->
     w_files w' !! filepath_Join dir (gentxName i) = Some (Gentx val)) /\
  (exists post,
     new_calls w w' =
       [CGentxsPath; CRemoveAll dir; CMkdirAll dir] ++
       imap (fun i val => CWriteFile (filepath_Join dir (gentxName i)) (Gentx val)) vals ++
       [CCommands; CCollectGentxs] ++ post /\
     Forall (fun c => negb (is_write c) = true) post) /\
  (exists w0,
     updateConfigFromGenesisValidators VerifyPeerFormat c vals w0 = (Ok tt, w') /\
     w_config w0 = w_config w /\ w_spn w0 = w_spn w).
Proof.
  intros H Hne dir. unfold applyGenesisValidators in H.
  destruct vals as [|val0 rest0] eqn:Hvals; [congruence |]. rewrite <- Hvals in *.
  clear Hvals Hne.
  apply bind_Ok in H as (gentxDir & w1 & H1 & H).
  apply call_Ok in H1 as (_ & -> & ->). unfold reading in H; simpl in H.
  fold dir in H.
  apply bind_Ok in H as ([] & w2 & H2 & H).
  apply call_Ok in H2 as (_ & _ & ->).
  apply bind_Ok in H as ([] & w3 & H3 & H).
  apply call_Ok in H3 as (_ & _ & ->).
  apply bind_Ok in H as ([] & w4 & H4 & H).
  apply writeGentxs_Ok in H4 as (Hfiles & _ & Htrace & Henv & Hcfg & Hspn).
  apply bind_Ok in H as ([] & w5 & H5 & H).
  apply call_Ok in H5 as (_ & _ & ->).
  apply bind_Ok in H as ([] & w6 & H6 & H).
  apply call_Ok in H6 as (_ & _ & ->).
  pose proof (updateConfigFromGenesisValidators_no_write VerifyPeerFormat c vals
                (writing (fun w => set_genesis
                   (with_gentxs (files_under (e_gentxs_path (w_env w)) (w_files w))
                                (w_genesis w)) w)
                   (log CCollectGentxs
                      (writing (fun w => w) (log CCommands w4)).2)).2)
    as (post & Hpost & Hnw).
  rewrite H in Hpost. simpl in Hpost.
  split; [| split].
  - intros i val Hi.
    pose proof (updateConfigFromGenesisValidators_Ok _ _ _ _ _ H)
      as (_ & _ & _ & _ & _ & Hf & _).
    rewrite Hf. simpl. apply (Hfiles i val Hi).
  - exists post. split; [| exact Hnw].
    apply new_calls_app. rewrite Hpost, Htrace. simpl.
    rewrite <- !app_assoc. reflexivity.
  - eexists. split; [exact H |]. simpl. split; [exact Hcfg | exact Hspn].
Qed.

(** C5, as the code has it: when the validators are applied, the file named
    [gentx<i>.json] of the gentx directory holds the gentx of the validator of
    index [i], the files are written in the order of the list, and the peer
    strings joined into [p2p.persistent_peers] are those of the validators, in
    the order of the list. *)
Theorem gentxs_and_peers_in_order VerifyPeerFormat c vals w w' :
  applyGenesisValidators VerifyPeerFormat c vals w = (Ok tt, w') ->
  vals <> [] ->
  (forall i val, vals !! i = Some val ->
     w_files w' !! filepath_Join (e_gentxs_path (w_env w))
                     ("gentx" +:+ strconv_Itoa (Z.of_nat i) +:+ ".json")
     = Some (Gentx val)) /\
  filter (fun c => is_write c = true) (new_calls w w') =
    imap (fun i val =>
            CWriteFile (filepath_Join (e_gentxs_path (w_env w))
                          ("gentx" +:+ strconv_Itoa (Z.of_nat i) +:+ ".json"))
                       (Gentx val)) vals /\
  exists p2pAddresses,
    w_config w' !! "p2p.persistent_peers" =
      Some (TomlString (strings_Join p2pAddresses ",")) /\
    length p2pAddresses = length vals /\
    forall i val, vals !! i = Some val ->
      p2pAddresses !! i = Some (peerString i val).
Proof.
  intros H Hne.
  destruct (applyGenesisValidators_Ok _ _ _ _ _ H Hne)
    as (Hfiles & (post & Hcalls & Hpost) & (w0 & Hupd & Hcfg & _)).
  split; [exact Hfiles | split].
  - rewrite Hcalls, !filter_app.
    rewrite (filter_Forall_none _ [CGentxsPath; _; _])
      by (repeat constructor; discriminate).
    rewrite (filter_Forall_none _ [CCommands; _])
      by (repeat constructor; discriminate).
    rewrite (filter_Forall_none _ post).
    + rewrite filter_Forall_all; [simpl; apply app_nil_r |].
      apply Forall_imap. reflexivity.
    + eapply Forall_impl; [exact Hpost |]. simpl. intros x Hx Hw.
      rewrite Hw in Hx. discriminate.
  - apply updateConfigFromGenesisValidators_Ok in Hupd
      as (p & t & Hl & Hc & _).
    apply peersLoop_Ok in Hl as (ps & ts & -> & -> & Hlen & Hps & _).
    simpl in Hc. exists ps. split; [| split; [exact Hlen |]].
    + rewrite Hc, Hcfg.
      assert (Hpos : (0 <? length ps)%nat = true).
      { rewrite Hlen. destruct vals; [congruence | reflexivity]. }
      rewrite Hpos. destruct (0 <? length ts)%nat; simpl.
      * rewrite lookup_insert_ne by discriminate. apply lookup_insert_eq.
      * apply lookup_insert_eq.
    + intros i val Hi. apply (Hps i val Hi).
Qed.

Lemma gentxs_and_peers_in_order_witness :
  w_files (applyGenesisValidators VerifyPeerFormat_topology chain0
             [val_direct; val_tunnel] world0).2
    !! "/spn/1/config/gentx/gentx1.json" = Some (Gentx val_tunnel) /\
  w_config (applyGenesisValidators VerifyPeerFormat_topology chain0
              [val_direct; val_tunnel] world0).2
    !! "p2p.persistent_peers"
  = Some (TomlString "V1@1.2.3.4:26656,V2@127.0.0.1:22001").
Proof.
  destruct (gentxs_and_peers_in_order VerifyPeerFormat_topology chain0
              [val_direct; val_tunnel] world0
              (applyGenesisValidators VerifyPeerFormat_topology chain0
                 [val_direct; val_tunnel] world0).2)
    as (Hfiles & _ & _).
  - vm_compute. reflexivity.
  - discriminate.
  - split; [exact (Hfiles 1%nat val_tunnel eq_refl) |].
    vm_compute. reflexivity.
Defined.

(** C5, as stated, fails on the name of the files: after the validators are
    applied, the gentx of the validator of index 0 is in [gentx0.json]; no
    file is named [gentx0]. *)
Lemma gentx_file_name_has_extension :
  (applyGenesisValidators VerifyPeerFormat_topology chain0 [val_direct] world0).1
  = Ok tt /\
  w_files (applyGenesisValidators VerifyPeerFormat_topology chain0
             [val_direct] world0).2
  = {[ "/spn/1/config/gentx/gentx0.json" := Gentx val_direct ]} /\
  w_files (applyGenesisValidators VerifyPeerFormat_topology chain0
             [val_direct] world0).2
    !! filepath_Join (e_gentxs_path (w_env world0)) "gentx0" = None.
Proof.
  split; [vm_compute; reflexivity |].
  split; [vm_compute; reflexivity |].
  vm_compute. reflexivity.
Qed.

(** ** The branches of [Prepare] *)

Ltac same_hyps := intros; reflexivity.
Ltac emits_hyps :=
  intros;
  first [ apply emits_log; first [assumption | reflexivity]
        | apply emits_same_trace; reflexivity ].

Lemma bind_assoc {S A B C} (m : M S A) (k1 : A -> M S B) (k2 : B -> M S C) s :
  bind (bind m k1) k2 s = bind m (fun a => bind (k1 a) k2) s.
Proof. unfold bind. destruct (m s) as [[a|e] s1]; reflexivity. Qed.

Lemma bind_Ok_keeps I {A B} (m : M World A) (k : A -> M World B) w b w' :
  keeps I m ->
  bind m k w = (Ok b, w') ->
  exists a w1, I w w1 /\ m w = (Ok a, w1) /\ k a w1 = (Ok b, w').
Proof.
  intros Hm H. apply bind_Ok in H as (a & w1 & Hmw & Hk).
  exists a, w1. split; [| auto]. specialize (Hm w). rewrite Hmw in Hm. exact Hm.
Qed.

Lemma chain_Home_eq w :
  chain_Home w =
  match e_fails (w_env w) (w_trace w) CHome with
  | Some e => (Err e, log CHome w)
  | None => (Ok (e_home (w_env w)), log CHome w)
  end.
Proof.
  unfold chain_Home, call, call_total, reading.
  destruct (e_fails _ _ _); reflexivity.
Qed.

(** [Prepare], once the chain home is known: the entry branch is chosen from
    what [os.Stat] says of it, and from nothing else. *)
Lemma Prepare_run VerifyPeerFormat ChangeAddressPrefix clispinner_OK c gi w h :
  (chain_Home w).1 = Ok h ->
  Prepare VerifyPeerFormat ChangeAddressPrefix clispinner_OK c gi w =
  (binaryName <- prepareEntry c (w_home_stat w) ;;
   prepareFinish VerifyPeerFormat ChangeAddressPrefix clispinner_OK c gi h binaryName)
    (log (CStat h) (log CHome w)).
Proof.
  intros Hh. rewrite chain_Home_eq in Hh. unfold Prepare.
  unfold bind at 1. rewrite chain_Home_eq.
  destruct (e_fails _ _ _); [discriminate |]. simpl in Hh. injection Hh as <-.
  unfold bind at 1. unfold os_Stat. rewrite call_total_eq. reflexivity.
Qed.

Section Grows.

Variable VerifyPeerFormat : launchtypes_Peer -> bool.
Variable ChangeAddressPrefix : string -> string -> result string.
Variable clispinner_OK : string.

Lemma grows_prepareFinish c gi h b :
  keeps (emits any_call)
        (prepareFinish VerifyPeerFormat ChangeAddressPrefix clispinner_OK c gi h b).
Proof.
  apply (keeps_prepareFinish VerifyPeerFormat ChangeAddressPrefix clispinner_OK
           (emits any_call) (emits_refl _) (emits_trans _)); emits_hyps.
Qed.

Lemma grows_prepareEntry c st : keeps (emits any_call) (prepareEntry c st).
Proof.
  unfold prepareEntry, c_Init, chain_Binary, ev_Send, chain_Build, c_initGenesis.
  repeat keeps_step (emits_refl any_call) (emits_trans any_call) emits_side.
Qed.

(** The calls of [buildGenesis] when it returns no error. *)
Lemma buildGenesis_Ok_trace c gi w w' :
  buildGenesis VerifyPeerFormat ChangeAddressPrefix c gi w = (Ok tt, w') ->
  exists mid,
    w_trace w' =
    w_trace w ++ [CSend StatusOngoing "Building the genesis"] ++ mid ++
    [CSend StatusDone "Genesis built"].
Proof.
  intros H. unfold buildGenesis in H.
  apply bind_Ok in H as ([] & wa & Ha & H).
  unfold ev_Send in Ha. rewrite call_total_eq in Ha. injection Ha as <-.
  simpl in H.
  assert (Hk : forall I, (forall w, I w w) ->
             (forall w1 w2 w3, I w1 w2 -> I w2 w3 -> I w1 w3) ->
             (forall c w, rebuild_calls c = true -> I w (log c w)) ->
             (forall g w, I w (set_genesis g w)) ->
             (forall f w, I w (set_files f w)) ->
             (forall t w, I w (set_config t w)) ->
             (forall s w, I w (set_spn s w)) ->
             exists wz, I (log (CSend StatusOngoing "Building the genesis") w) wz /\
                        ev_Send StatusDone "Genesis built" wz = (Ok tt, w')).
  { intros I I_refl I_trans I_log I_genesis I_files I_config I_spn.
    eapply (bind_Ok_keeps I) in H as (addressPrefix & w1 & H1 & _ & H);
      [| unfold c_detectPrefix; repeat keeps_step I_refl I_trans
           ltac:(solve [apply I_refl | apply I_log; reflexivity])].
    eapply (bind_Ok_keeps I) in H as ([] & w2 & H2 & _ & H);
      [| apply keeps_wrap, (keeps_applyGenesisAccounts _ I);
         assumption].
    eapply (bind_Ok_keeps I) in H as ([] & w3 & H3 & _ & H);
      [| apply keeps_wrap, (keeps_applyVestingAccounts _ I);
         assumption].
    eapply (bind_Ok_keeps I) in H as ([] & w4 & H4 & _ & H);
      [| apply keeps_wrap, (keeps_applyGenesisValidators _ I);
         assumption].
    eapply (bind_Ok_keeps I) in H as (genesisPath & w5 & H5 & _ & H);
      [| unfold chain_GenesisPath; repeat keeps_step I_refl I_trans
           ltac:(solve [apply I_refl | apply I_log; reflexivity])].
    eapply (bind_Ok_keeps I) in H as ([] & w6 & H6 & _ & H);
      [| unfold cosmosutil_SetGenesisTime; repeat keeps_step I_refl I_trans
           ltac:(solve [apply I_refl | apply I_log; reflexivity | apply I_genesis])].
    exists w6. split; [| exact H].
    eauto 10. }
  destruct (Hk (emits any_call) (emits_refl _) (emits_trans _))
    as (wz & (mid & Hmid & _) & Hz); try emits_hyps.
  unfold ev_Send in Hz. rewrite call_total_eq in Hz. injection Hz as <-.
  exists mid. simpl. rewrite Hmid. simpl. rewrite <- !app_assoc. reflexivity.
Qed.

End Grows.

Section PrepareProperties.

Variable VerifyPeerFormat : launchtypes_Peer -> bool.
Variable ChangeAddressPrefix : string -> string -> result string.
Variable clispinner_OK : string.

(** What [Prepare] does after the entry branch, when it returns no error:
    the genesis is built, then validated, then the saved state is reset. *)
Lemma prepareFinish_Ok c gi h b w w' :
  prepareFinish VerifyPeerFormat ChangeAddressPrefix clispinner_OK c gi h b w
  = (Ok tt, w') ->
  (exists mid,
     w_trace w' =
     w_trace w ++ [CSend StatusOngoing "Building the genesis"] ++ mid ++
     [CSend StatusDone "Genesis built"; CCommands; CValidateGenesis; CUnsafeReset] ++
     prepared_output clispinner_OK b h) /\
  w_chain_state w' = 0%N.
Proof.
  intros H. unfold prepareFinish in H.
  apply bind_Ok in H as ([] & w1 & H1 & H).
  apply buildGenesis_Ok_trace in H1 as (mid & Hmid).
  apply bind_Ok in H as ([] & w2 & H2 & H).
  apply call_Ok in H2 as (_ & _ & ->).
  apply bind_Ok in H as ([] & w3 & H3 & H).
  apply call_Ok in H3 as (_ & _ & ->).
  apply bind_Ok in H as ([] & w4 & H4 & H).
  apply call_Ok in H4 as (_ & _ & ->).
  apply bind_Ok in H as ([] & w5 & H5 & H).
  unfold fmt_Printf in H5. rewrite call_total_eq in H5. injection H5 as <-.
  apply bind_Ok in H as ([] & w6 & H6 & H).
  unfold fmt_Printf in H6. rewrite call_total_eq in H6. injection H6 as <-.
  unfold fmt_Printf in H. rewrite call_total_eq in H. injection H as <-.
  split; [| reflexivity].
  exists mid. simpl. rewrite Hmid. rewrite <- !app_assoc. reflexivity.
Qed.

(** The first calls of the rebuild branch. *)
Lemma prepareEntry_StatOk_prefix c {B} (k : string -> M World B) w :
  (forall b, keeps (emits any_call) (k b)) ->
  exists post,
    w_trace (bind (prepareEntry c StatOk) k w).2 =
    w_trace w ++ [CSend StatusOngoing "Building the blockchain"; CBuild] ++ post.
Proof.
  intros Hk. unfold prepareEntry. rewrite bind_assoc.
  unfold ev_Send at 1.
  rewrite (bind_Ok_intro _ _ _ _ _ (call_total_eq _ _ _)). simpl.
  rewrite bind_assoc. unfold bind at 1. rewrite chain_Build_eq. simpl.
  destruct (e_fails _ _ _) as [e|].
  - exists []. simpl. rewrite <- app_assoc. reflexivity.
  - match goal with |- context [w_trace (?m ?w0).2] =>
      assert (Hg : emits any_call w0 (m w0).2)
    end.
    { apply (keeps_bind _ (emits_trans _)); [| intros ?; apply Hk].
      unfold ev_Send, c_initGenesis.
      repeat keeps_step (emits_refl any_call) (emits_trans any_call) emits_side. }
    destruct Hg as (post & Hpost & _). exists post. rewrite Hpost. simpl.
    rewrite <- !app_assoc. reflexivity.
Qed.

(** The first calls of the initialization branch. *)
Lemma prepareEntry_StatNotExist_prefix c {B} (k : string -> M World B) w :
  (forall b, keeps (emits any_call) (k b)) ->
  exists post,
    w_trace (bind (prepareEntry c StatNotExist) k w).2 = w_trace w ++ [CInit] ++ post.
Proof.
  intros Hk. unfold prepareEntry. rewrite bind_assoc.
  unfold bind at 1. unfold c_Init.
  destruct (call_cases CInit
              (writing (fun w => set_valkey (w_valkey w + 1)%N
                 (set_config default_config
                    (set_genesis genesis_default (set_home_stat StatOk w))))) w)
    as [(e & _ & ->) | (_ & ->)].
  - exists []. reflexivity.
  - match goal with |- context [w_trace (?m ?w0).2] =>
      assert (Hg : emits any_call w0 (m w0).2)
    end.
    { apply (keeps_bind _ (emits_trans _)); [| intros ?; apply Hk].
      unfold chain_Binary.
      repeat keeps_step (emits_refl any_call) (emits_trans any_call) emits_side. }
    destruct Hg as (post & Hpost & _). exists post. rewrite Hpost. simpl.
    rewrite <- !app_assoc. reflexivity.
Qed.

(** The first calls of [Prepare] when the chain home exists. *)
Lemma Prepare_StatOk_calls c gi w h :
  (chain_Home w).1 = Ok h ->
  w_home_stat w = StatOk ->
  exists post,
    new_calls w (Prepare VerifyPeerFormat ChangeAddressPrefix clispinner_OK c gi w).2
    = [CHome; CStat h; CSend StatusOngoing "Building the blockchain"; CBuild]
      ++ post.
Proof.
  intros Hh Hst.
  rewrite (Prepare_run VerifyPeerFormat ChangeAddressPrefix clispinner_OK
             c gi w h Hh), Hst.
  destruct (prepareEntry_StatOk_prefix c
              (prepareFinish VerifyPeerFormat ChangeAddressPrefix clispinner_OK
                 c gi h)
              (log (CStat h) (log CHome w))) as (post & Hpost).
  { intros b. apply grows_prepareFinish. }
  exists post. apply new_calls_app. etrans; [exact Hpost |].
  simpl. rewrite <- !app_assoc. reflexivity.
Qed.

(** C8: [Prepare] chooses its entry branch from what [os.Stat] says of the
    chain home. When the home does not exist it runs the full initialization,
    which generates a fresh validator key. When the home exists it takes the
    rebuild branch, which never calls the initialization and leaves the
    validator key as it is. With another error of [os.Stat] it returns that
    error. When [Prepare] returns no error, in whichever branch, the genesis
    was built, then validated, then the saved state reset. *)
Theorem prepare_entry_branch c gi w h :
  (chain_Home w).1 = Ok h ->
  (w_home_stat w = StatNotExist ->
   (exists post,
      new_calls w (Prepare VerifyPeerFormat ChangeAddressPrefix clispinner_OK c gi w).2
      = [CHome; CStat h; CInit] ++ post) /\
   ((Prepare VerifyPeerFormat ChangeAddressPrefix clispinner_OK c gi w).1 = Ok tt ->
    w_valkey (Prepare VerifyPeerFormat ChangeAddressPrefix clispinner_OK c gi w).2
    = (w_valkey w + 1)%N)) /\
  (w_home_stat w = StatOk ->
   (exists post,
      new_calls w (Prepare VerifyPeerFormat ChangeAddressPrefix clispinner_OK c gi w).2
      = [CHome; CStat h; CSend StatusOngoing "Building the blockchain"; CBuild]
        ++ post) /\
   ~ In CInit
        (new_calls w (Prepare VerifyPeerFormat ChangeAddressPrefix clispinner_OK c gi w).2) /\
   w_valkey (Prepare VerifyPeerFormat ChangeAddressPrefix clispinner_OK c gi w).2
   = w_valkey w) /\
  (forall e, w_home_stat w = StatError e ->
   Prepare VerifyPeerFormat ChangeAddressPrefix clispinner_OK c gi w
   = (Err e, log (CStat h) (log CHome w))) /\
  ((Prepare VerifyPeerFormat ChangeAddressPrefix clispinner_OK c gi w).1 = Ok tt ->
   exists pre mid b,
     new_calls w (Prepare VerifyPeerFormat ChangeAddressPrefix clispinner_OK c gi w).2
     = pre ++ [CSend StatusOngoing "Building the genesis"] ++ mid ++
       [CSend StatusDone "Genesis built"; CCommands; CValidateGenesis; CUnsafeReset]
       ++ prepared_output clispinner_OK b h /\
     w_chain_state (Prepare VerifyPeerFormat ChangeAddressPrefix clispinner_OK c gi w).2
     = 0%N).
Proof.
  intros Hh.
  assert (Hrun := Prepare_run VerifyPeerFormat ChangeAddressPrefix clispinner_OK
                    c gi w h Hh).
  assert (Ht2 : w_trace (log (CStat h) (log CHome w)) = w_trace w ++ [CHome; CStat h]).
  { simpl. rewrite <- app_assoc. reflexivity. }
  split; [| split; [| split]].
  - intros Hst. rewrite Hrun, Hst. split.
    + destruct (prepareEntry_StatNotExist_prefix c
                  (prepareFinish VerifyPeerFormat ChangeAddressPrefix clispinner_OK
                     c gi h)
                  (log (CStat h) (log CHome w))) as (post & Hpost).
      { intros b. apply grows_prepareFinish. }
      exists post. apply new_calls_app. etrans; [exact Hpost |].
      rewrite Ht2, <- app_assoc. reflexivity.
    + intros Hok.
      match type of Hok with (?t).1 = _ => destruct t as [r w'] eqn:Hb end.
      simpl in Hok. subst r.
      apply bind_Ok in Hb as (b & w5 & He & Hf).
      unfold prepareEntry in He. apply bind_Ok in He as ([] & w3 & Hi & Hbin).
      apply call_Ok in Hi as (_ & _ & ->).
      apply call_Ok in Hbin as (_ & _ & ->).
      assert (Hkeep : keeps (same w_valkey)
                (prepareFinish VerifyPeerFormat ChangeAddressPrefix clispinner_OK
                   c gi h b)).
      { apply (keeps_prepareFinish VerifyPeerFormat ChangeAddressPrefix
                 clispinner_OK (same w_valkey));
          first [exact (same_refl _) | exact (same_trans _) | same_hyps]. }
      match type of Hf with _ ?w0 = _ => specialize (Hkeep w0) end.
      unfold same in Hkeep.
      rewrite Hf in Hkeep. simpl in Hkeep. exact Hkeep.
  - intros Hst. split; [| split].
    + apply Prepare_StatOk_calls; assumption.
    + destruct (keeps_Prepare_StatOk VerifyPeerFormat ChangeAddressPrefix
                  clispinner_OK (emits rebuild_calls) (emits_refl _) (emits_trans _)
                  ltac:(emits_hyps) ltac:(emits_hyps) ltac:(emits_hyps)
                  ltac:(emits_hyps) ltac:(emits_hyps) ltac:(emits_hyps)
                  ltac:(emits_hyps) c gi w Hst) as (evs & Hevs & Hall).
      rewrite (new_calls_app _ _ _ Hevs). intros Hin.
      rewrite Forall_forall in Hall. apply list_elem_of_In, Hall in Hin.
      discriminate Hin.
    + apply (keeps_Prepare_StatOk VerifyPeerFormat ChangeAddressPrefix
               clispinner_OK (same w_valkey) (same_refl _) (same_trans _));
        try exact Hst; same_hyps.
  - intros e Hst. rewrite Hrun, Hst. reflexivity.
  - intros Hok. rewrite Hrun in Hok |- *.
    match type of Hok with (?t).1 = _ => destruct t as [r w'] eqn:Hb end.
    simpl in Hok. subst r.
    apply (bind_Ok_keeps (emits any_call)) in Hb
      as (b & w5 & (evs & Hevs & _) & He & Hf); [| apply grows_prepareEntry].
    apply prepareFinish_Ok in Hf as ((mid & Hmid) & Hcs).
    exists ([CHome; CStat h] ++ evs), mid, b. split; [| exact Hcs].
    apply new_calls_app. simpl. rewrite Hmid, Hevs, Ht2.
    rewrite <- !app_assoc. reflexivity.
Qed.

(** C3, as the code has it: when the chain home exists, [Prepare] calls the
    build of the chain runtime directly, whatever the binary cache records: it
    neither computes a checksum nor reads or writes the cache. *)
Theorem prepare_rebuild_bypasses_cache c gi w h :
  (chain_Home w).1 = Ok h ->
  w_home_stat w = StatOk ->
  (exists post,
     new_calls w (Prepare VerifyPeerFormat ChangeAddressPrefix clispinner_OK c gi w).2
     = [CHome; CStat h; CSend StatusOngoing "Building the blockchain"; CBuild]
       ++ post) /\
  Forall (fun call => is_cache_call call = false)
    (new_calls w (Prepare VerifyPeerFormat ChangeAddressPrefix clispinner_OK c gi w).2) /\
  w_cache (Prepare VerifyPeerFormat ChangeAddressPrefix clispinner_OK c gi w).2
  = w_cache w.
Proof.
  intros Hh Hst. split; [| split].
  - apply Prepare_StatOk_calls; assumption.
  - destruct (keeps_Prepare_StatOk VerifyPeerFormat ChangeAddressPrefix
                clispinner_OK (emits rebuild_calls) (emits_refl _) (emits_trans _)
                ltac:(emits_hyps) ltac:(emits_hyps) ltac:(emits_hyps)
                ltac:(emits_hyps) ltac:(emits_hyps) ltac:(emits_hyps)
                ltac:(emits_hyps) c gi w Hst) as (evs & Hevs & Hall).
    rewrite (new_calls_app _ _ _ Hevs).
    eapply Forall_impl; [exact Hall |]. simpl.
    intros call Hc. destruct call; try reflexivity; discriminate Hc.
  - apply (keeps_Prepare_StatOk VerifyPeerFormat ChangeAddressPrefix
             clispinner_OK (same w_cache) (same_refl _) (same_trans _));
      try exact Hst; same_hyps.
Qed.

End PrepareProperties.

Lemma prepare_entry_branch_witness :
  (Prepare VerifyPeerFormat_topology reprefix "OK" chain0 gi0 world0).1 = Ok tt /\
  w_valkey (Prepare VerifyPeerFormat_topology reprefix "OK" chain0 gi0 world0).2
  = w_valkey world0 /\
  w_chain_state (Prepare VerifyPeerFormat_topology reprefix "OK" chain0 gi0 world0).2
  = 0%N /\
  (Prepare VerifyPeerFormat_topology reprefix "OK" chain0 gi0 world_fresh).1 = Ok tt /\
  w_valkey (Prepare VerifyPeerFormat_topology reprefix "OK" chain0 gi0 world_fresh).2
  = 1%N.
Proof.
  destruct (prepare_entry_branch VerifyPeerFormat_topology reprefix "OK" chain0 gi0
              world0 "/spn/1" eq_refl) as (_ & Hexists & _ & Hfinish).
  destruct (prepare_entry_branch VerifyPeerFormat_topology reprefix "OK" chain0 gi0
              world_fresh "/spn/1" eq_refl) as (Hfresh & _).
  assert (Hok : (Prepare VerifyPeerFormat_topology reprefix "OK" chain0 gi0 world0).1
                = Ok tt) by (vm_compute; reflexivity).
  assert (Hok' : (Prepare VerifyPeerFormat_topology reprefix "OK" chain0 gi0
                    world_fresh).1 = Ok tt) by (vm_compute; reflexivity).
  split; [exact Hok |].
  split; [apply (Hexists eq_refl) |].
  split; [destruct (Hfinish Hok) as (pre & mid & b & _ & Hcs); exact Hcs |].
  split; [exact Hok' |].
  apply (proj2 (Hfresh eq_refl) Hok').
Defined.

Lemma prepare_rebuild_bypasses_cache_witness :
  w_cache (Prepare VerifyPeerFormat_topology reprefix "OK" chain0 gi0 world_cached).2
  = w_cache world_cached.
Proof.
  apply (prepare_rebuild_bypasses_cache VerifyPeerFormat_topology reprefix "OK"
           chain0 gi0 world_cached "/spn/1"); reflexivity.
Defined.

(** C3, as stated, fails: the chain home exists, the cache records the launch
    id and source hash of the chain with the checksum of the binary on disk,
    so that [Build] returns the binary without building; yet [Prepare] calls
    the build of the chain runtime. *)
Lemma prepare_rebuilds_despite_cache :
  w_home_stat world_cached = StatOk /\
  w_cache world_cached !! (launchID chain0, hash chain0) = Some "5e1f" /\
  (checksum_BinaryChecksum "chaind" world_cached).1 = Ok ("5e1f", None) /\
  (Build chain0 world_cached).1 = Ok "chaind" /\
  ~ In CBuild (new_calls world_cached (Build chain0 world_cached).2) /\
  (Prepare VerifyPeerFormat_topology reprefix "OK" chain0 gi0 world_cached).1 = Ok tt /\
  In CBuild
     (new_calls world_cached
        (Prepare VerifyPeerFormat_topology reprefix "OK" chain0 gi0 world_cached).2).
Proof.
  split; [reflexivity |].
  split; [vm_compute; reflexivity |].
  split; [vm_compute; reflexivity |].
  split; [vm_compute; reflexivity |].
  split.
  { vm_compute. intros [H|[H|[H|[]]]]; discriminate H. }
  split; [vm_compute; reflexivity |].
  destruct (Prepare_StatOk_calls VerifyPeerFormat_topology reprefix "OK" chain0 gi0
              world_cached "/spn/1" eq_refl eq_refl) as (post & ->).
  simpl. auto.
Qed.

(** ** The fetch of the source *)

Lemma g_call_no_fail {A} c (body : M Git A) g :
  g_fails g (g_trace g) c = None -> g_call c body g = body (g_log c g).
Proof. unfold g_call. intros ->. reflexivity. Qed.

Lemma g_call_Ok {A} c (body : M Git A) g a g' :
  g_call c body g = (Ok a, g') -> body (g_log c g) = (Ok a, g').
Proof. unfold g_call. destruct (g_fails _ _ _); [discriminate | auto]. Qed.

(** C9: a fetch that returns gives the temporary directory and the resolved
    hash. With a pinned hash, the commit this hash resolves to is checked out
    in the directory and the resolved hash is the pinned hash; with no pinned
    hash, the resolved hash is the hash of the HEAD of the clone, which is
    what the directory holds. When the remote can be cloned, the pinned hash
    resolves and no call fails, the fetch does return. *)
Theorem fetchSource_resolved url ref customHash g :
  (forall p h g',
     fetchSource url ref customHash g = (Ok (p, h), g') ->
     exists repo,
       g_remote g (cloneOptions url ref) = Some repo /\ p = g_temp g /\
       if is_empty_string customHash
       then h = repo_head repo /\ g_worktrees g' !! p = Some (repo_head repo)
       else h = customHash /\
            exists commit,
              repo_revisions repo !! customHash = Some commit /\
              g_worktrees g' !! p = Some commit) /\
  ((forall t c, g_fails g t c = None) ->
   forall repo,
     g_remote g (cloneOptions url ref) = Some repo ->
     (is_empty_string customHash = true ->
      exists g', fetchSource url ref customHash g
                 = (Ok (g_temp g, repo_head repo), g')) /\
     (forall commit,
        is_empty_string customHash = false ->
        repo_revisions repo !! customHash = Some commit ->
        exists g', fetchSource url ref customHash g
                   = (Ok (g_temp g, customHash), g') /\
                   g_worktrees g' !! g_temp g = Some commit)).
Proof.
  split.
  - intros p h g' H. unfold fetchSource in H.
    apply bind_Ok in H as (path0 & g1 & H1 & H).
    apply g_call_Ok in H1. injection H1 as <- <-.
    apply bind_Ok in H as ([] & g2 & H2 & H).
    apply g_call_Ok in H2. injection H2 as <-.
    apply bind_Ok in H as (repo & g3 & H3 & H).
    apply g_call_Ok in H3. simpl in H3.
    destruct (g_remote g (cloneOptions url ref)) as [r|] eqn:Hr; [| discriminate].
    injection H3 as <- <-. exists r. split; [reflexivity |].
    destruct (is_empty_string customHash); simpl in H.
    + apply bind_Ok in H as (githash & g4 & H4 & H).
      apply g_call_Ok in H4. injection H4 as <- <-.
      injection H as <- <- <-. simpl. split; [reflexivity |]. split; [reflexivity |].
      apply lookup_insert_eq.
    + apply bind_Ok in H as (wt & g4 & H4 & H).
      apply g_call_Ok in H4. injection H4 as <- <-.
      apply bind_Ok in H as (githash & g5 & H5 & H).
      apply g_call_Ok in H5. simpl in H5.
      destruct (repo_revisions r !! customHash) as [commit|] eqn:Hrev;
        [| discriminate].
      injection H5 as <- <-.
      apply bind_Ok in H as ([] & g6 & H6 & H).
      apply g_call_Ok in H6. injection H6 as <-.
      injection H as <- <- <-. simpl. split; [reflexivity |]. split; [reflexivity |].
      exists commit. split; [reflexivity |]. apply lookup_insert_eq.
  - intros Hnf repo Hrepo. split.
    + intros Hempty. unfold fetchSource, bind, os_MkdirTemp, g_MkdirAll,
        git_PlainCloneContext, repo_Head, ret.
      repeat first [ rewrite g_call_no_fail by apply Hnf
                   | rewrite Hrepo | rewrite Hempty | progress simpl ].
      eauto.
    + intros commit Hempty Hrev. unfold fetchSource, bind, os_MkdirTemp, g_MkdirAll,
        git_PlainCloneContext, repo_Worktree, repo_ResolveRevision, wt_Checkout, ret.
      repeat first [ rewrite g_call_no_fail by apply Hnf
                   | rewrite Hrepo | rewrite Hempty | rewrite Hrev
                   | progress simpl ].
      eexists. split; [reflexivity |]. simpl. apply lookup_insert_eq.
Qed.

Lemma fetchSource_resolved_witness :
  (exists g', fetchSource "https://example.com/chain.git" EmptyString "aaaa" git0
              = (Ok ("/tmp/0", "aaaa"), g') /\
              g_worktrees g' !! "/tmp/0" = Some "aaaa") /\
  (exists g', fetchSource "https://example.com/chain.git" EmptyString EmptyString git0
              = (Ok ("/tmp/0", "bbbb"), g')).
Proof.
  destruct (fetchSource_resolved "https://example.com/chain.git" EmptyString "aaaa"
              git0) as (_ & Hpinned).
  destruct (fetchSource_resolved "https://example.com/chain.git" EmptyString
              EmptyString git0) as (_ & Hhead).
  split.
  - apply (proj2 (Hpinned (fun _ _ => eq_refl) repo0 eq_refl) "aaaa");
      reflexivity.
  - apply (proj1 (Hhead (fun _ _ => eq_refl) repo0 eq_refl)). reflexivity.
Defined.

(** * More properties of the code *)

(** ** The accounts of the genesis *)

Section Accounts.

Variable ChangeAddressPrefix : string -> string -> result string.

Lemma fold_added_account_env outs : forall w,
  w_env (fold_left added_account outs w) = w_env w.
Proof. induction outs as [|o outs IH]; intros w; simpl; [reflexivity | rewrite IH; reflexivity]. Qed.

Lemma fold_added_account_trace outs : forall w,
  w_trace (fold_left added_account outs w) = w_trace w ++ map account_call outs.
Proof.
  induction outs as [|o outs IH]; intros w; simpl.
  - symmetry. apply app_nil_r.
  - rewrite IH. simpl. rewrite <- app_assoc. reflexivity.
Qed.

Lemma fold_added_account_genesis outs : forall w,
  w_genesis (fold_left added_account outs w) =
  {| gen_accounts := gen_accounts (w_genesis w) ++ outs;
     gen_vesting := gen_vesting (w_genesis w);
     gen_gentxs := gen_gentxs (w_genesis w);
     gen_time := gen_time (w_genesis w) |}.
Proof.
  induction outs as [|o outs IH]; intros w; simpl.
  - rewrite app_nil_r. destruct (w_genesis w); reflexivity.
  - rewrite IH. simpl. rewrite <- app_assoc. destruct o. reflexivity.
Qed.

Lemma fold_added_account_frame outs : forall w,
  w_files (fold_left added_account outs w) = w_files w /\
  w_config (fold_left added_account outs w) = w_config w.
Proof.
  induction outs as [|o outs IH]; intros w; simpl; [auto |].
  destruct (IH (added_account w o)) as (-> & ->). auto.
Qed.

(** The loop over the accounts, when it returns no error. *)
Lemma applyGenesisAccounts_loop_Ok accs addressPrefix : forall w w',
  applyGenesisAccounts_loop ChangeAddressPrefix accs addressPrefix w = (Ok tt, w') ->
  exists outs,
    Forall2 (reencoded_account ChangeAddressPrefix addressPrefix) accs outs /\
    w' = fold_left added_account outs w.
Proof.
  induction accs as [|acc rest IH]; intros w w' H; simpl in H.
  - injection H as <-. exists []. split; [constructor | reflexivity].
  - apply bind_Ok in H as (address & w0 & Ha & H).
    unfold lift in Ha. injection Ha as Ha <-.
    apply bind_Ok in H as ([] & w1 & Hadd & H).
    apply call_Ok in Hadd as (_ & _ & ->).
    apply IH in H as (outs & Hall & ->).
    exists ((address, acc_Coins acc) :: outs). split; [| reflexivity].
    constructor; [split; [exact Ha | reflexivity] | exact Hall].
Qed.

(** The loop over the accounts, while the addresses re-encode and no call
    fails. *)
Lemma applyGenesisAccounts_loop_run accs addressPrefix outs : forall w,
  no_call_fails w ->
  Forall2 (reencoded_account ChangeAddressPrefix addressPrefix) accs outs ->
  forall rest,
    applyGenesisAccounts_loop ChangeAddressPrefix (accs ++ rest) addressPrefix w =
    applyGenesisAccounts_loop ChangeAddressPrefix rest addressPrefix
      (fold_left added_account outs w).
Proof.
  intros w Hnf Hall. revert w Hnf.
  induction Hall as [|acc o accs outs [Ha Hc] _ IH]; intros w Hnf rest0; simpl;
    [reflexivity |].
  unfold bind at 1. unfold lift. rewrite Ha.
  unfold bind at 1. unfold cmd_AddGenesisAccount, call. rewrite Hnf.
  rewrite call_total_eq. simpl. rewrite <- Hc.
  apply (IH (added_account w o)). intros t c. apply Hnf.
Qed.

(** X1: when [applyGenesisAccounts] returns no error, every address was
    re-encoded to the prefix of the chain, the command that adds a genesis
    account was called once for each account, in the order of the list, with
    the re-encoded address and the coins of the account, and the accounts of
    the genesis grew by these entries; the files and the configuration are as
    before. It does return no error when every address re-encodes and no call
    fails. *)
Theorem applyGenesisAccounts_in_order accs addressPrefix w :
  (forall w',
     applyGenesisAccounts ChangeAddressPrefix accs addressPrefix w = (Ok tt, w') ->
     exists outs,
       Forall2 (reencoded_account ChangeAddressPrefix addressPrefix) accs outs /\
       new_calls w w' = CCommands :: map account_call outs /\
       gen_accounts (w_genesis w') = gen_accounts (w_genesis w) ++ outs /\
       w_files w' = w_files w /\ w_config w' = w_config w) /\
  (no_call_fails w ->
   forall outs,
     Forall2 (reencoded_account ChangeAddressPrefix addressPrefix) accs outs ->
     (applyGenesisAccounts ChangeAddressPrefix accs addressPrefix w).1 = Ok tt).
Proof.
  split.
  - intros w' H. unfold applyGenesisAccounts in H.
    apply bind_Ok in H as ([] & w0 & Hc & H).
    apply call_Ok in Hc as (_ & _ & ->).
    apply applyGenesisAccounts_loop_Ok in H as (outs & Hall & ->).
    exists outs. split; [exact Hall |].
    rewrite fold_added_account_genesis. simpl.
    destruct (fold_added_account_frame outs
                (writing (fun w => w) (log CCommands w)).2) as (Hf & Hc).
    split; [| split; [reflexivity | split; [exact Hf | exact Hc]]].
    apply new_calls_app. rewrite fold_added_account_trace. simpl.
    rewrite <- app_assoc. reflexivity.
  - intros Hnf outs Hall. unfold applyGenesisAccounts, bind, chain_Commands, call.
    rewrite Hnf, call_total_eq. simpl.
    pose proof (applyGenesisAccounts_loop_run accs addressPrefix outs
                  (log CCommands w) Hnf Hall []) as Hrun.
    rewrite app_nil_r in Hrun. rewrite Hrun. reflexivity.
Qed.

(** X2: [applyGenesisAccounts] stops at the first address that does not
    re-encode and returns its error; the accounts before it have been added to
    the genesis by then and stay there, and nothing is called for the accounts
    after it. *)
Theorem applyGenesisAccounts_stops_at_bad_address pre acc post outs e
    addressPrefix w :
  no_call_fails w ->
  Forall2 (reencoded_account ChangeAddressPrefix addressPrefix) pre outs ->
  ChangeAddressPrefix (acc_Address acc) addressPrefix = Err e ->
  (applyGenesisAccounts ChangeAddressPrefix (pre ++ acc :: post) addressPrefix w).1
  = Err e /\
  gen_accounts (w_genesis (applyGenesisAccounts ChangeAddressPrefix
                             (pre ++ acc :: post) addressPrefix w).2)
  = gen_accounts (w_genesis w) ++ outs /\
  new_calls w (applyGenesisAccounts ChangeAddressPrefix
                 (pre ++ acc :: post) addressPrefix w).2
  = CCommands :: map account_call outs.
Proof.
  intros Hnf Hall Hbad.
  assert (Hrun : applyGenesisAccounts ChangeAddressPrefix (pre ++ acc :: post)
                   addressPrefix w
                 = (Err e, fold_left added_account outs (log CCommands w))).
  { unfold applyGenesisAccounts, bind, chain_Commands, call.
    rewrite Hnf, call_total_eq. simpl.
    rewrite (applyGenesisAccounts_loop_run pre addressPrefix outs
               (log CCommands w) Hnf Hall (acc :: post)).
    simpl. unfold bind, lift. rewrite Hbad. reflexivity. }
  rewrite Hrun. simpl. split; [reflexivity |].
  rewrite fold_added_account_genesis. split; [reflexivity |].
  apply new_calls_app. rewrite fold_added_account_trace. simpl.
  rewrite <- app_assoc. reflexivity.
Qed.

End Accounts.

Lemma applyGenesisAccounts_in_order_witness :
  (applyGenesisAccounts reprefix_strict [acc_alice; acc_bob] "cosmos" world0).1 = Ok tt.
Proof.
  apply (proj2 (applyGenesisAccounts_in_order reprefix_strict [acc_alice; acc_bob]
                  "cosmos" world0) (fun _ _ => eq_refl)
               [("cosmos:spn1alice", [("stake", 100)]); ("cosmos:spn1bob", [("stake", 7)])]).
  repeat constructor.
Defined.

Lemma applyGenesisAccounts_stops_at_bad_address_witness :
  (applyGenesisAccounts reprefix_strict ([acc_alice] ++ acc_bad :: [acc_bob])
     "cosmos" world0).1 = Err (ErrMsg "empty address") /\
  gen_accounts (w_genesis (applyGenesisAccounts reprefix_strict
                             ([acc_alice] ++ acc_bad :: [acc_bob]) "cosmos" world0).2)
  = gen_accounts (w_genesis world0) ++ [("cosmos:spn1alice", [("stake", 100)])] /\
  new_calls world0 (applyGenesisAccounts reprefix_strict
                      ([acc_alice] ++ acc_bad :: [acc_bob]) "cosmos" world0).2
  = CCommands :: map account_call [("cosmos:spn1alice", [("stake", 100)])].
Proof.
  apply (applyGenesisAccounts_stops_at_bad_address reprefix_strict [acc_alice]
           acc_bad [acc_bob] [("cosmos:spn1alice", [("stake", 100)])]
           (ErrMsg "empty address") "cosmos" world0).
  - intros t c. reflexivity.
  - repeat constructor.
  - reflexivity.
Defined.

(** ** The vesting accounts of the genesis *)

Section Vesting.

Variable ChangeAddressPrefix : string -> string -> result string.

Lemma fold_added_vesting_trace outs : forall w,
  w_trace (fold_left added_vesting outs w) = w_trace w ++ map vesting_call outs.
Proof.
  induction outs as [|o outs IH]; intros w; simpl.
  - symmetry. apply app_nil_r.
  - rewrite IH. simpl. rewrite <- app_assoc. reflexivity.
Qed.

Lemma fold_added_vesting_genesis outs : forall w,
  w_genesis (fold_left added_vesting outs w) =
  {| gen_accounts := gen_accounts (w_genesis w);
     gen_vesting := gen_vesting (w_genesis w) ++ outs;
     gen_gentxs := gen_gentxs (w_genesis w);
     gen_time := gen_time (w_genesis w) |}.
Proof.
  induction outs as [|o outs IH]; intros w; simpl.
  - rewrite app_nil_r. destruct (w_genesis w); reflexivity.
  - rewrite IH. simpl. rewrite <- app_assoc. destruct o as [[[a t] v] e].
    reflexivity.
Qed.

Lemma applyVestingAccounts_loop_Ok accs addressPrefix : forall w w',
  applyVestingAccounts_loop ChangeAddressPrefix accs addressPrefix w = (Ok tt, w') ->
  exists outs,
    Forall2 (reencoded_vesting ChangeAddressPrefix addressPrefix) accs outs /\
    w' = fold_left added_vesting outs w.
Proof.
  induction accs as [|acc rest IH]; intros w w' H; simpl in H.
  - injection H as <-. exists []. split; [constructor | reflexivity].
  - apply bind_Ok in H as (address & w0 & Ha & H).
    unfold lift in Ha. injection Ha as Ha <-.
    apply bind_Ok in H as ([] & w1 & Hadd & H).
    apply call_Ok in Hadd as (_ & _ & ->).
    apply IH in H as (outs & Hall & ->).
    exists ((address, vest_TotalBalance acc, vest_Vesting acc, vest_EndTime acc)
              :: outs).
    split; [| reflexivity].
    constructor; [repeat split; exact Ha | exact Hall].
Qed.

Lemma applyVestingAccounts_loop_run accs addressPrefix outs : forall w,
  no_call_fails w ->
  Forall2 (reencoded_vesting ChangeAddressPrefix addressPrefix) accs outs ->
  forall rest,
    applyVestingAccounts_loop ChangeAddressPrefix (accs ++ rest) addressPrefix w =
    applyVestingAccounts_loop ChangeAddressPrefix rest addressPrefix
      (fold_left added_vesting outs w).
Proof.
  intros w Hnf Hall. revert w Hnf.
  induction Hall as [|acc o accs outs (Ha & Ht & Hv & He) _ IH];
    intros w Hnf rest0; simpl; [reflexivity |].
  unfold bind at 1. unfold lift. rewrite Ha.
  unfold bind at 1. unfold cmd_AddVestingAccount, call. rewrite Hnf.
  rewrite call_total_eq. simpl. rewrite <- Ht, <- Hv, <- He.
  apply (IH (added_vesting w o)). intros t c. apply Hnf.
Qed.

(** X3: when [applyVestingAccounts] returns no error, the command that adds
    a vesting account was called once for each account, in the order of the
    list, with the re-encoded address and the total balance, the vesting
    amount and the end time of the account, and the vesting accounts of the
    genesis grew by these entries. It stops at the first address that does
    not re-encode, with the accounts before it added. *)
Theorem applyVestingAccounts_in_order accs addressPrefix w :
  (forall w',
     applyVestingAccounts ChangeAddressPrefix accs addressPrefix w = (Ok tt, w') ->
     exists outs,
       Forall2 (reencoded_vesting ChangeAddressPrefix addressPrefix) accs outs /\
       new_calls w w' = CCommands :: map vesting_call outs /\
       gen_vesting (w_genesis w') = gen_vesting (w_genesis w) ++ outs /\
       gen_accounts (w_genesis w') = gen_accounts (w_genesis w)) /\
  (no_call_fails w ->
   forall pre outs,
     Forall2 (reencoded_vesting ChangeAddressPrefix addressPrefix) pre outs ->
     (accs = pre ->
      (applyVestingAccounts ChangeAddressPrefix accs addressPrefix w).1 = Ok tt) /\
     (forall acc post e,
        accs = pre ++ acc :: post ->
        ChangeAddressPrefix (vest_Address acc) addressPrefix = Err e ->
        (applyVestingAccounts ChangeAddressPrefix accs addressPrefix w).1 = Err e /\
        gen_vesting (w_genesis (applyVestingAccounts ChangeAddressPrefix accs
                                  addressPrefix w).2)
        = gen_vesting (w_genesis w) ++ outs)).
Proof.
  split.
  - intros w' H. unfold applyVestingAccounts in H.
    apply bind_Ok in H as ([] & w0 & Hc & H).
    apply call_Ok in Hc as (_ & _ & ->).
    apply applyVestingAccounts_loop_Ok in H as (outs & Hall & ->).
    exists outs. split; [exact Hall |].
    rewrite fold_added_vesting_genesis. simpl.
    split; [| split; reflexivity].
    apply new_calls_app. rewrite fold_added_vesting_trace. simpl.
    rewrite <- app_assoc. reflexivity.
  - intros Hnf pre outs Hall. split.
    + intros ->. unfold applyVestingAccounts, bind, chain_Commands, call.
      rewrite Hnf, call_total_eq. simpl.
      pose proof (applyVestingAccounts_loop_run pre addressPrefix outs
                    (log CCommands w) Hnf Hall []) as Hrun.
      rewrite app_nil_r in Hrun. rewrite Hrun. reflexivity.
    + intros acc post e -> Hbad.
      unfold applyVestingAccounts, bind, chain_Commands, call.
      rewrite Hnf, call_total_eq. simpl.
      rewrite (applyVestingAccounts_loop_run pre addressPrefix outs
                 (log CCommands w) Hnf Hall (acc :: post)).
      simpl. unfold bind, lift. rewrite Hbad. simpl.
      rewrite fold_added_vesting_genesis. auto.
Qed.

End Vesting.

Lemma applyVestingAccounts_in_order_witness :
  (applyVestingAccounts reprefix_strict [vest_carol] "cosmos" world0).1 = Ok tt.
Proof.
  apply (proj1 (proj2 (applyVestingAccounts_in_order reprefix_strict [vest_carol]
                         "cosmos" world0) (fun _ _ => eq_refl) [vest_carol]
                      [("cosmos:spn1carol", [("stake", 50)], [("stake", 30)],
                        1800000000)] ltac:(repeat constructor)) eq_refl).
Defined.

(** ** The genesis build *)



Lemma wrap_Ok_inv {S A} msg (m : M S A) s a s' :
  wrap msg m s = (Ok a, s') -> m s = (Ok a, s').
Proof.
  unfold wrap. destruct (m s) as [[a'|e] s1]; intros H; [exact H | discriminate H].
Qed.

Lemma fold_added_vesting_env outs : forall w,
  w_env (fold_left added_vesting outs w) = w_env w.
Proof.
  induction outs as [|o outs IH]; intros w; simpl; [reflexivity | rewrite IH; reflexivity].
Qed.

Section BuildGenesis.

Variable VerifyPeerFormat : launchtypes_Peer -> bool.
Variable ChangeAddressPrefix : string -> string -> result string.


Ltac validators_go :=
  repeat keeps_step (emits_refl validators_calls) (emits_trans validators_calls)
                    emits_side.

Lemma writeGentxs_validators_calls dir vals : forall i,
  keeps (emits validators_calls) (writeGentxs dir i vals).
Proof.
  induction vals as [|val rest IH]; intros i; simpl; unfold ioutil_WriteFile;
    validators_go.
  apply IH.
Qed.

Lemma applyGenesisValidators_validators_calls c vals :
  keeps (emits validators_calls) (applyGenesisValidators VerifyPeerFormat c vals).
Proof.
  unfold applyGenesisValidators. destruct vals as [|val rest]; [validators_go |].
  unfold chain_GentxsPath, os_RemoveAll, os_MkdirAll, chain_Commands,
    cmd_CollectGentxs.
  validators_go.
  - apply writeGentxs_validators_calls.
  - unfold updateConfigFromGenesisValidators, chain_ConfigTOMLPath, toml_LoadFile,
      os_OpenFile, toml_WriteTo, c_SPNConfigPath, SetSPNConfig.
    validators_go.
Qed.

Lemma applyGenesisValidators_env c vals :
  keeps (same w_env) (applyGenesisValidators VerifyPeerFormat c vals).
Proof.
  apply (keeps_applyGenesisValidators VerifyPeerFormat (same w_env)
           (same_refl _) (same_trans _)); intros; reflexivity.
Qed.

(** X5: when [buildGenesis] returns no error, its calls were made in this
    order: the prefix of the chain is detected, the genesis accounts are
    added in the order of their list, then the vesting accounts in the order
    of theirs, then come the calls for the validators (none when there is no
    validator), and last the genesis time is set to the launch time of the
    chain. *)
Theorem buildGenesis_order c gi w w' :
  buildGenesis VerifyPeerFormat ChangeAddressPrefix c gi w = (Ok tt, w') ->
  exists accounts vestings calls,
    Forall2 (reencoded_account ChangeAddressPrefix (e_prefix (w_env w)))
            (GenesisAccounts gi) accounts /\
    Forall2 (reencoded_vesting ChangeAddressPrefix (e_prefix (w_env w)))
            (VestingAccounts gi) vestings /\
    Forall (fun call => validators_calls call = true) calls /\
    (GenesisValidators gi = [] -> calls = []) /\
    new_calls w w' =
      [CSend StatusOngoing "Building the genesis"; CDetectPrefix; CCommands] ++
      map account_call accounts ++ [CCommands] ++
      map vesting_call vestings ++ calls ++
      [CGenesisPath;
       CSetGenesisTime (e_genesis_path (w_env w)) (launchTime c);
       CSend StatusDone "Genesis built"].
Proof.
  intros H. unfold buildGenesis in H.
  apply bind_Ok in H as ([] & wa & Ha & H).
  unfold ev_Send in Ha. rewrite call_total_eq in Ha. injection Ha as <-.
  apply bind_Ok in H as (addressPrefix & wb & Hb & H).
  apply wrap_Ok_inv, call_Ok in Hb as (_ & -> & ->).
  apply bind_Ok in H as ([] & wc & Hc & H).
  apply wrap_Ok_inv in Hc. unfold applyGenesisAccounts in Hc.
  apply bind_Ok in Hc as ([] & wc0 & Hc0 & Hc).
  apply call_Ok in Hc0 as (_ & _ & ->).
  apply applyGenesisAccounts_loop_Ok in Hc as (accounts & HallA & ->).
  apply bind_Ok in H as ([] & wd & Hd & H).
  apply wrap_Ok_inv in Hd. unfold applyVestingAccounts in Hd.
  apply bind_Ok in Hd as ([] & wd0 & Hd0 & Hd).
  apply call_Ok in Hd0 as (_ & _ & ->).
  apply applyVestingAccounts_loop_Ok in Hd as (vestings & HallV & ->).
  apply bind_Ok in H as ([] & we & He & H).
  apply wrap_Ok_inv in He.
  match type of He with
  | applyGenesisValidators _ _ _ ?w0 = _ =>
      pose proof (applyGenesisValidators_validators_calls c (GenesisValidators gi) w0)
        as (calls & Hcalls & Hvc);
      pose proof (applyGenesisValidators_env c (GenesisValidators gi) w0) as Henv
  end.
  unfold same in Henv.
  assert (Hempty : GenesisValidators gi = [] -> calls = []).
  { intros Hnil. rewrite Hnil in Hcalls. cbn [applyGenesisValidators ret snd] in Hcalls.
    apply (f_equal length) in Hcalls. rewrite length_app in Hcalls.
    destruct calls; [reflexivity | simpl in Hcalls; lia]. }
  rewrite He in Hcalls, Henv. simpl in Hcalls, Henv.
  apply bind_Ok in H as (genesisPath & wf & Hf & H).
  apply wrap_Ok_inv, call_Ok in Hf as (_ & -> & ->).
  apply bind_Ok in H as ([] & wg & Hg & H).
  apply wrap_Ok_inv, call_Ok in Hg as (_ & _ & ->).
  unfold ev_Send in H. rewrite call_total_eq in H. injection H as <-.
  exists accounts, vestings, calls.
  split; [exact HallA |]. split; [exact HallV |]. split; [exact Hvc |].
  split; [exact Hempty |].
  apply new_calls_app. simpl. rewrite Henv, Hcalls.
  rewrite fold_added_vesting_env, fold_added_vesting_trace. simpl.
  rewrite fold_added_account_env, fold_added_account_trace. simpl.
  rewrite <- !app_assoc. reflexivity.
Qed.

End BuildGenesis.


Lemma buildGenesis_order_witness :
  exists accounts vestings calls,
    Forall2 (reencoded_account reprefix (e_prefix (w_env world0)))
            (GenesisAccounts gi0) accounts /\
    Forall2 (reencoded_vesting reprefix (e_prefix (w_env world0)))
            (VestingAccounts gi0) vestings /\
    Forall (fun call => validators_calls call = true) calls /\
    (GenesisValidators gi0 = [] -> calls = []) /\
    new_calls world0
      (buildGenesis VerifyPeerFormat_topology reprefix chain0 gi0 world0).2 =
      [CSend StatusOngoing "Building the genesis"; CDetectPrefix; CCommands] ++
      map account_call accounts ++ [CCommands] ++
      map vesting_call vestings ++ calls ++
      [CGenesisPath;
       CSetGenesisTime (e_genesis_path (w_env world0)) (launchTime chain0);
       CSend StatusDone "Genesis built"].
Proof.
  apply (buildGenesis_order VerifyPeerFormat_topology reprefix chain0 gi0 world0).
  vm_compute. reflexivity.
Defined.

(** The genesis build over genesis information without validators, for any
    relation kept by the calls of [plain_genesis_calls] and by a change of the
    genesis. *)
Section PlainGenesis.

Variable VerifyPeerFormat : launchtypes_Peer -> bool.
Variable ChangeAddressPrefix : string -> string -> result string.
Variable I : World -> World -> Prop.
Hypothesis I_refl : forall w, I w w.
Hypothesis I_trans : forall w1 w2 w3, I w1 w2 -> I w2 w3 -> I w1 w3.
Hypothesis I_log : forall c w, plain_genesis_calls c = true -> I w (log c w).
Hypothesis I_genesis : forall g w, I w (set_genesis g w).

Ltac plain_side :=
  solve [ apply I_refl | apply I_log; reflexivity | apply I_genesis
        | eapply I_trans; [apply I_log; reflexivity | apply I_genesis] ].
Ltac plain_go := repeat keeps_step I_refl I_trans plain_side.

Lemma keeps_plain_accounts accs prefix :
  keeps I (applyGenesisAccounts ChangeAddressPrefix accs prefix).
Proof.
  unfold applyGenesisAccounts, chain_Commands. plain_go.
  induction accs as [|acc rest IH]; simpl; unfold cmd_AddGenesisAccount; plain_go.
  exact IH.
Qed.

Lemma keeps_plain_vesting accs prefix :
  keeps I (applyVestingAccounts ChangeAddressPrefix accs prefix).
Proof.
  unfold applyVestingAccounts, chain_Commands. plain_go.
  induction accs as [|acc rest IH]; simpl; unfold cmd_AddVestingAccount; plain_go.
  exact IH.
Qed.

Lemma keeps_plain_buildGenesis c gi :
  GenesisValidators gi = [] ->
  keeps I (buildGenesis VerifyPeerFormat ChangeAddressPrefix c gi).
Proof.
  intros Hnil.
  unfold buildGenesis, ev_Send, c_detectPrefix, chain_GenesisPath,
    cosmosutil_SetGenesisTime.
  rewrite Hnil. cbn [applyGenesisValidators].
  plain_go.
  - apply keeps_plain_accounts.
  - apply keeps_plain_vesting.
Qed.

End PlainGenesis.

(** X6: with no genesis validator, [buildGenesis] writes no file, leaves the
    node configuration and the SPN configuration as they were, and makes no
    call for the gentxs or for the peers, whether it returns an error or
    not. *)
Theorem buildGenesis_without_validators VerifyPeerFormat ChangeAddressPrefix c gi w :
  GenesisValidators gi = [] ->
  Forall (fun call => plain_genesis_calls call = true)
    (new_calls w (buildGenesis VerifyPeerFormat ChangeAddressPrefix c gi w).2) /\
  w_files (buildGenesis VerifyPeerFormat ChangeAddressPrefix c gi w).2 = w_files w /\
  w_config (buildGenesis VerifyPeerFormat ChangeAddressPrefix c gi w).2 = w_config w /\
  w_spn (buildGenesis VerifyPeerFormat ChangeAddressPrefix c gi w).2 = w_spn w.
Proof.
  intros Hnil. split; [| split; [| split]].
  - destruct (keeps_plain_buildGenesis VerifyPeerFormat ChangeAddressPrefix
                (emits plain_genesis_calls) (emits_refl _) (emits_trans _)
                (fun c w H => emits_log plain_genesis_calls c w H)
                (fun g w => emits_same_trace plain_genesis_calls w (set_genesis g w) eq_refl)
                c gi Hnil w) as (calls & Htrace & Hcalls).
    rewrite (new_calls_app _ _ _ Htrace). exact Hcalls.
  - exact (keeps_plain_buildGenesis VerifyPeerFormat ChangeAddressPrefix
             (same w_files) (same_refl _) (same_trans _)
             (fun _ _ _ => eq_refl) (fun _ _ => eq_refl) c gi Hnil w).
  - exact (keeps_plain_buildGenesis VerifyPeerFormat ChangeAddressPrefix
             (same w_config) (same_refl _) (same_trans _)
             (fun _ _ _ => eq_refl) (fun _ _ => eq_refl) c gi Hnil w).
  - exact (keeps_plain_buildGenesis VerifyPeerFormat ChangeAddressPrefix
             (same w_spn) (same_refl _) (same_trans _)
             (fun _ _ _ => eq_refl) (fun _ _ => eq_refl) c gi Hnil w).
Qed.

Lemma buildGenesis_without_validators_witness :
  Forall (fun call => plain_genesis_calls call = true)
    (new_calls world0
       (buildGenesis VerifyPeerFormat_topology reprefix_strict chain0
          gi_accounts_only world0).2) /\
  w_files (buildGenesis VerifyPeerFormat_topology reprefix_strict chain0
             gi_accounts_only world0).2 = w_files world0 /\
  w_config (buildGenesis VerifyPeerFormat_topology reprefix_strict chain0
              gi_accounts_only world0).2 = w_config world0 /\
  w_spn (buildGenesis VerifyPeerFormat_topology reprefix_strict chain0
           gi_accounts_only world0).2 = w_spn world0.
Proof.
  apply (buildGenesis_without_validators VerifyPeerFormat_topology reprefix_strict
           chain0 gi_accounts_only world0).
  reflexivity.
Defined.

(** ** The gentx directory *)

Lemma prefix_app_l s1 s2 : String.prefix s1 (s1 +:+ s2) = true.
Proof.
  induction s1 as [|a s1 IH]; simpl; [destruct s2; reflexivity |].
  destruct (Ascii.ascii_dec a a); [exact IH | congruence].
Qed.

Lemma string_app_assoc s1 s2 s3 : (s1 +:+ s2) +:+ s3 = s1 +:+ (s2 +:+ s3).
Proof.
  induction s1 as [|a s1 IH]; [reflexivity |].
  change (String a ((s1 +:+ s2) +:+ s3) = String a (s1 +:+ (s2 +:+ s3))).
  rewrite IH. reflexivity.
Qed.

Lemma under_filepath_Join dir name : under dir (filepath_Join dir name) = true.
Proof.
  unfold under, filepath_Join. apply orb_true_intro. right.
  rewrite <- string_app_assoc. apply prefix_app_l.
Qed.

Lemma elem_of_gentxFiles dir vals name data :
  (name, data) ∈ gentxFiles dir vals <->
  exists i val, vals !! i = Some val /\
                name = filepath_Join dir (gentxName i) /\ data = Gentx val.
Proof.
  unfold gentxFiles. rewrite elem_of_lookup_imap. split.
  - intros (i & val & Heq & Hi). injection Heq as -> ->. eauto.
  - intros (i & val & Hi & -> & ->). eauto.
Qed.

Lemma gentxFiles_NoDup dir vals : NoDup (gentxFiles dir vals).
Proof.
  apply NoDup_alt. intros i j [name data] Hi Hj.
  unfold gentxFiles in Hi, Hj. rewrite list_lookup_imap in Hi, Hj.
  destruct (vals !! i) as [vi|]; [| discriminate].
  destruct (vals !! j) as [vj|]; [| discriminate].
  simpl in Hi, Hj. injection Hi as Hi _. injection Hj as Hj _.
  apply (gentx_path_inj dir). congruence.
Qed.

Lemma gentxFiles_snd dir vals : (gentxFiles dir vals).*2 = Gentx <$> vals.
Proof.
  unfold gentxFiles. apply list_eq. intros i.
  rewrite !list_lookup_fmap, list_lookup_imap.
  destruct (vals !! i); reflexivity.
Qed.

(** What [applyGenesisValidators] does to the files and to the gentxs of the
    genesis when it returns no error: the files are those left by the removal
    of the gentx directory and the writing of the gentxs, and the gentxs of the
    genesis are those of the directory. *)
Lemma applyGenesisValidators_files VerifyPeerFormat c vals w w' :
  applyGenesisValidators VerifyPeerFormat c vals w = (Ok tt, w') ->
  vals <> [] ->
  let dir := e_gentxs_path (w_env w) in
  exists w3 w4,
    w_files w3 = filter (fun kv : string * bytes => under dir kv.1 = false) (w_files w) /\
    writeGentxs dir 0 vals w3 = (Ok tt, w4) /\
    w_files w' = w_files w4 /\
    gen_gentxs (w_genesis w') = files_under dir (w_files w4).
Proof.
  intros H Hne dir. unfold applyGenesisValidators in H.
  destruct vals as [|val0 rest0] eqn:Hvals; [congruence |]. rewrite <- Hvals in *.
  clear Hvals Hne.
  apply bind_Ok in H as (gentxDir & w1 & H1 & H).
  apply call_Ok in H1 as (_ & -> & ->). unfold reading in H; simpl in H.
  fold dir in H.
  apply bind_Ok in H as ([] & w2 & H2 & H).
  apply call_Ok in H2 as (_ & _ & ->).
  apply bind_Ok in H as ([] & w3 & H3 & H).
  apply call_Ok in H3 as (_ & _ & ->).
  apply bind_Ok in H as ([] & w4 & H4 & H).
  pose proof (writeGentxs_Ok _ _ _ _ _ H4) as (_ & _ & _ & Henv & _ & _).
  apply bind_Ok in H as ([] & w5 & H5 & H).
  apply call_Ok in H5 as (_ & _ & ->).
  apply bind_Ok in H as ([] & w6 & H6 & H).
  apply call_Ok in H6 as (_ & _ & ->).
  apply updateConfigFromGenesisValidators_Ok in H
    as (_ & _ & _ & _ & _ & Hf & Hg & _).
  eexists _, w4. split; [| split; [exact H4 | split]].
  - reflexivity.
  - rewrite Hf. reflexivity.
  - rewrite Hg. simpl. rewrite Henv. reflexivity.
Qed.

(** The files after the gentxs were written over a directory that had been
    removed. *)
Lemma gentx_dir_after_write dir vals w3 w4 files :
  w_files w3 = filter (fun kv : string * bytes => under dir kv.1 = false) files ->
  writeGentxs dir 0 vals w3 = (Ok tt, w4) ->
  (forall name data,
     under dir name = true ->
     (w_files w4 !! name = Some data <-> (name, data) ∈ gentxFiles dir vals)) /\
  (forall name, under dir name = false -> w_files w4 !! name = files !! name).
Proof.
  intros H3 H4.
  apply writeGentxs_Ok in H4 as (Hfiles & Hother & _).
  assert (Hin : forall name,
            name ∈ (gentxFiles dir vals).*1 ->
            exists i val, vals !! i = Some val /\ name = filepath_Join dir (gentxName i)).
  { intros name Hname. apply list_elem_of_fmap in Hname as ([n d] & -> & Hnd).
    apply elem_of_gentxFiles in Hnd as (i & val & Hi & -> & _). eauto. }
  assert (Hout : forall name,
            name ∉ (gentxFiles dir vals).*1 ->
            w_files w4 !! name = w_files w3 !! name).
  { intros name Hname. apply Hother. intros k Hk ->. apply Hname.
    destruct (lookup_lt_is_Some_2 vals k Hk) as [val Hval].
    apply list_elem_of_fmap. exists (filepath_Join dir (gentxName (0 + k)), Gentx val).
    split; [reflexivity |]. apply elem_of_gentxFiles. eauto. }
  split.
  - intros name data Hunder. split.
    + intros Hlook. destruct (decide (name ∈ (gentxFiles dir vals).*1)) as [Hd|Hd].
      * apply Hin in Hd as (i & val & Hi & ->).
        pose proof (Hfiles i val Hi) as Hw. simpl in Hw.
        rewrite Hw in Hlook. injection Hlook as <-.
        apply elem_of_gentxFiles. eauto.
      * rewrite (Hout name Hd), H3 in Hlook.
        apply map_lookup_filter_Some in Hlook as (_ & Hno). simpl in Hno. congruence.
    + intros Hd. apply elem_of_gentxFiles in Hd as (i & val & Hi & -> & ->).
      apply (Hfiles i val Hi).
  - intros name Hunder. rewrite Hout.
    + rewrite H3. destruct (files !! name) as [data|] eqn:Hlook.
      * apply map_lookup_filter_Some. split; [exact Hlook | exact Hunder].
      * apply map_lookup_filter_None. left. exact Hlook.
    + intros Hd. apply Hin in Hd as (i & val & _ & ->).
      rewrite under_filepath_Join in Hunder. discriminate.
Qed.

(** X7: when [applyGenesisValidators] returns no error for a list with a
    validator, the gentx directory holds the gentx files of the list and
    nothing else: a file that was under the directory before (a gentx of an
    earlier run) is gone unless it was written again. The files outside the
    directory are as before. *)
Theorem applyGenesisValidators_resets_gentx_dir VerifyPeerFormat c vals w w' :
  applyGenesisValidators VerifyPeerFormat c vals w = (Ok tt, w') ->
  vals <> [] ->
  (forall name data,
     under (e_gentxs_path (w_env w)) name = true ->
     (w_files w' !! name = Some data <->
      exists i val, vals !! i = Some val /\
                    name = filepath_Join (e_gentxs_path (w_env w)) (gentxName i) /\
                    data = Gentx val)) /\
  (forall name,
     under (e_gentxs_path (w_env w)) name = false ->
     w_files w' !! name = w_files w !! name).
Proof.
  intros H Hne.
  destruct (applyGenesisValidators_files _ _ _ _ _ H Hne)
    as (w3 & w4 & H3 & H4 & Hf & _).
  destruct (gentx_dir_after_write _ _ _ _ _ H3 H4) as (Hin & Hout).
  rewrite Hf. split.
  - intros name data Hunder. rewrite (Hin name data Hunder).
    apply elem_of_gentxFiles.
  - exact Hout.
Qed.

Lemma applyGenesisValidators_resets_gentx_dir_witness :
  w_files (applyGenesisValidators VerifyPeerFormat_topology chain0
             [val_direct; val_tunnel] world_stale).2
    !! "/spn/1/config/gentx/gentx7.json" = None /\
  w_files (applyGenesisValidators VerifyPeerFormat_topology chain0
             [val_direct; val_tunnel] world_stale).2
    !! "/spn/1/config/app.toml" = Some (gentx_of "app").
Proof.
  destruct (applyGenesisValidators_resets_gentx_dir VerifyPeerFormat_topology chain0
              [val_direct; val_tunnel] world_stale
              (applyGenesisValidators VerifyPeerFormat_topology chain0
                 [val_direct; val_tunnel] world_stale).2)
    as (Hin & Hout).
  - vm_compute. reflexivity.
  - discriminate.
  - split.
    + destruct (w_files (applyGenesisValidators VerifyPeerFormat_topology chain0
                           [val_direct; val_tunnel] world_stale).2
                  !! "/spn/1/config/gentx/gentx7.json") as [data|] eqn:Hlook;
        [| reflexivity].
      apply (Hin "/spn/1/config/gentx/gentx7.json" data eq_refl) in Hlook
        as (i & val & Hi & Hname & _).
      destruct i as [|[|i]]; simpl in Hi; try discriminate;
        vm_compute in Hname; discriminate.
    + rewrite (Hout "/spn/1/config/app.toml" eq_refl). reflexivity.
Defined.

(** X8: when [applyGenesisValidators] returns no error for a list with a
    validator, the gentxs collected into the genesis are those of the
    validators of the list, each once; a gentx left in the directory by an
    earlier run is not among them. *)
Theorem applyGenesisValidators_collects_gentxs VerifyPeerFormat c vals w w' :
  applyGenesisValidators VerifyPeerFormat c vals w = (Ok tt, w') ->
  vals <> [] ->
  gen_gentxs (w_genesis w') ≡ₚ Gentx <$> vals.
Proof.
  intros H Hne.
  destruct (applyGenesisValidators_files _ _ _ _ _ H Hne)
    as (w3 & w4 & H3 & H4 & _ & ->).
  destruct (gentx_dir_after_write _ _ _ _ _ H3 H4) as (Hin & _).
  unfold files_under. rewrite merge_sort_Permutation.
  rewrite <- (gentxFiles_snd (e_gentxs_path (w_env w))). apply fmap_Permutation.
  apply NoDup_Permutation.
  - apply NoDup_map_to_list.
  - apply gentxFiles_NoDup.
  - intros [name data]. rewrite elem_of_map_to_list, map_lookup_filter_Some. simpl.
    split.
    + intros (Hlook & Hunder). apply (Hin name data Hunder), Hlook.
    + intros Hd. assert (Hunder : under (e_gentxs_path (w_env w)) name = true).
      { apply elem_of_gentxFiles in Hd as (i & val & _ & -> & _).
        apply under_filepath_Join. }
      split; [apply (Hin name data Hunder), Hd | exact Hunder].
Qed.

Lemma applyGenesisValidators_collects_gentxs_witness :
  gen_gentxs (w_genesis (applyGenesisValidators VerifyPeerFormat_topology chain0
                           [val_direct; val_tunnel] world_stale).2)
  ≡ₚ [gentx_of "tx-direct"; gentx_of "tx-tunnel"].
Proof.
  apply (applyGenesisValidators_collects_gentxs VerifyPeerFormat_topology chain0
           [val_direct; val_tunnel] world_stale).
  - vm_compute. reflexivity.
  - discriminate.
Defined.

(** ** The node configuration and the tunnel bindings *)

(** X9: [applyGenesisValidators] changes two settings of [config.toml] at
    most: every other setting is, after it returned no error, as it was
    loaded. *)
Theorem applyGenesisValidators_keeps_other_settings VerifyPeerFormat c vals w w' key :
  applyGenesisValidators VerifyPeerFormat c vals w = (Ok tt, w') ->
  key <> "p2p.persistent_peers" ->
  key <> "p2p.allow_duplicate_ip" ->
  w_config w' !! key = w_config w !! key.
Proof.
  intros H Hk1 Hk2. destruct vals as [|val rest] eqn:Hvals.
  { simpl in H. injection H as <-. reflexivity. }
  rewrite <- Hvals in H.
  apply applyGenesisValidators_Ok in H as (_ & _ & (w0 & H & <- & _));
    [| rewrite Hvals; discriminate].
  apply updateConfigFromGenesisValidators_Ok in H as (p & t & _ & -> & _).
  destruct (0 <? length p)%nat; [| reflexivity]. simpl.
  destruct (0 <? length t)%nat.
  - rewrite lookup_insert_ne by congruence. rewrite lookup_insert_ne by congruence.
    reflexivity.
  - rewrite lookup_insert_ne by congruence. reflexivity.
Qed.

Lemma applyGenesisValidators_keeps_other_settings_witness :
  w_config (applyGenesisValidators VerifyPeerFormat_topology chain0
              [val_direct; val_tunnel] world_stale).2 !! "rpc.laddr"
  = Some (TomlString "tcp://0.0.0.0:26657").
Proof.
  rewrite (applyGenesisValidators_keeps_other_settings VerifyPeerFormat_topology chain0
             [val_direct; val_tunnel] world_stale
             (applyGenesisValidators VerifyPeerFormat_topology chain0
                [val_direct; val_tunnel] world_stale).2 "rpc.laddr").
  - reflexivity.
  - vm_compute. reflexivity.
  - discriminate.
  - discriminate.
Defined.

(** The tunnel bindings the loop appends, in the order of the list. *)
Lemma peersLoop_tunnelBindings VerifyPeerFormat vals : forall i p t p' t',
  peersLoop VerifyPeerFormat i vals p t = Ok (p', t') ->
  t' = t ++ tunnelBindings i vals.
Proof.
  induction vals as [|val rest IH]; intros i p t p' t' H; simpl in H.
  - injection H as _ <-. simpl. rewrite app_nil_r. reflexivity.
  - destruct (VerifyPeerFormat (Peer val)); simpl in H; [| discriminate].
    simpl. destruct (Connection (Peer val)) as [tcp|name address|];
      [| | discriminate].
    + apply IH in H. exact H.
    + apply IH in H. rewrite H, <- app_assoc. reflexivity.
Qed.

Lemma tunnelBindings_nil vals : forall i,
  tunnelBindings i vals = [] <-> ~ Exists is_tunnel vals.
Proof.
  induction vals as [|val rest IH]; intros i; simpl.
  - split; [intros _ Hex; inversion Hex | reflexivity].
  - destruct (Connection (Peer val)) as [tcp|name address|] eqn:Hc.
    + rewrite (IH (S i)). split.
      * intros Hno Hex. apply Exists_cons in Hex as [(n & a & Hna) | Hex];
          [congruence | exact (Hno Hex)].
      * intros Hno Hex. apply Hno. right. exact Hex.
    + split; [discriminate |]. intros Hno. exfalso. apply Hno. left.
      exists name, address. exact Hc.
    + rewrite (IH (S i)). split.
      * intros Hno Hex. apply Exists_cons in Hex as [(n & a & Hna) | Hex];
          [congruence | exact (Hno Hex)].
      * intros Hno Hex. apply Hno. right. exact Hex.
Qed.

(** X10: when [updateConfigFromGenesisValidators] returns no error, the SPN
    configuration holds the tunnel bindings of the tunneled validators, in the
    order of the list, when there is one, and the write of that configuration
    was the last call; with no tunneled validator the SPN configuration is
    neither read nor written, so that bindings left by an earlier run stay. *)
Theorem updateConfig_spn_bindings VerifyPeerFormat c vals w w' :
  updateConfigFromGenesisValidators VerifyPeerFormat c vals w = (Ok tt, w') ->
  (Exists is_tunnel vals ->
   w_spn w' = Some {| TunneledPeers := tunnelBindings 0 vals |} /\
   last (new_calls w w') =
     Some (CSetSPNConfig {| TunneledPeers := tunnelBindings 0 vals |}
                         (e_spn_path (w_env w)))) /\
  (~ Exists is_tunnel vals ->
   w_spn w' = w_spn w /\
   Forall (fun call => is_spn_call call = false) (new_calls w w')).
Proof.
  intros H. unfold updateConfigFromGenesisValidators in H.
  apply bind_Ok in H as ([p t] & w0 & Hl & H).
  unfold lift in Hl. injection Hl as Hl <-. simpl in H.
  pose proof (peersLoop_tunnelBindings _ _ _ _ _ _ _ Hl) as Ht. simpl in Ht.
  apply bind_Ok in H as ([] & w1 & HA & HB).
  assert (H1 : exists calls,
            w_trace w1 = w_trace w ++ calls /\
            Forall (fun call => is_spn_call call = false) calls /\
            w_spn w1 = w_spn w /\ w_env w1 = w_env w).
  { destruct (0 <? length p)%nat.
    - apply bind_Ok in HA as (configPath & wa & Ha & HA).
      apply call_Ok in Ha as (_ & -> & ->).
      apply bind_Ok in HA as (configToml & wb & Hb & HA).
      apply call_Ok in Hb as (_ & -> & ->).
      apply bind_Ok in HA as ([] & wc & Hc & HA).
      apply call_Ok in Hc as (_ & _ & ->).
      apply call_Ok in HA as (_ & _ & ->).
      eexists. split; [| split; [| split; reflexivity]].
      + simpl. rewrite <- !app_assoc. reflexivity.
      + repeat constructor.
    - injection HA as <-. exists []. rewrite app_nil_r. repeat split. constructor. }
  destruct H1 as (calls & Htrace & Hcalls & Hspn & Henv).
  subst t. split.
  - intros Hex.
    destruct (tunnelBindings 0 vals) as [|tp ts] eqn:Hb.
    { exfalso. apply (proj1 (tunnelBindings_nil vals 0%nat) Hb), Hex. }
    simpl in HB.
    apply bind_Ok in HB as (spnPath & wa & Ha & HB).
    apply call_Ok in Ha as (_ & -> & ->).
    apply call_Ok in HB as (_ & _ & ->).
    split; [reflexivity |].
    rewrite (new_calls_app w _ ((calls ++ [CSPNConfigPath]) ++
               [CSetSPNConfig {| TunneledPeers := tp :: ts |} (e_spn_path (w_env w))])).
    + apply last_snoc.
    + simpl. rewrite Htrace, Henv, <- !app_assoc. reflexivity.
  - intros Hno. apply (tunnelBindings_nil vals 0%nat) in Hno. rewrite Hno in HB.
    simpl in HB. injection HB as <-. split; [exact Hspn |].
    rewrite (new_calls_app _ _ _ Htrace). exact Hcalls.
Qed.

Lemma updateConfig_spn_bindings_witness :
  w_spn (updateConfigFromGenesisValidators VerifyPeerFormat_topology chain0
           [val_direct; val_tunnel] world_stale).2
  = Some {| TunneledPeers :=
              [ {| Name := "relayA"; Address := "https://relay-a"; NodeID := "V2";
                   LocalPort := "22001" |} ] |} /\
  w_spn (updateConfigFromGenesisValidators VerifyPeerFormat_topology chain0
           [val_direct] world_stale).2
  = w_spn world_stale.
Proof.
  split.
  - refine (proj1 (proj1 (updateConfig_spn_bindings VerifyPeerFormat_topology chain0
                            [val_direct; val_tunnel] world_stale _ _) _)).
    + vm_compute. reflexivity.
    + right. left. exists "relayA", "https://relay-a". reflexivity.
  - refine (proj1 (proj2 (updateConfig_spn_bindings VerifyPeerFormat_topology chain0
                            [val_direct] world_stale _ _) _)).
    + vm_compute. reflexivity.
    + intros Hex. apply Exists_cons in Hex as [(n & a & Hna) | Hex];
        [discriminate Hna | inversion Hex].
Defined.

(** The loop stops at the first malformed validator, with its error. *)
Lemma peersLoop_first_malformed VerifyPeerFormat pre val post : forall i p t,
  Forall (fun v => ~ malformed VerifyPeerFormat v) pre ->
  malformed VerifyPeerFormat val ->
  peersLoop VerifyPeerFormat i (pre ++ val :: post) p t
  = Err (peerError VerifyPeerFormat val).
Proof.
  induction pre as [|v pre IH]; intros i p t Hpre Hval; simpl.
  - unfold peerError. destruct (VerifyPeerFormat (Peer val)) eqn:Hv; simpl;
      [| reflexivity].
    destruct Hval as [Hval|Hval]; [congruence |]. rewrite Hval. reflexivity.
  - inversion Hpre as [|? ? Hv Hrest]; subst. unfold malformed in Hv.
    destruct (VerifyPeerFormat (Peer v)); simpl; [| tauto].
    destruct (Connection (Peer v)); [apply IH; assumption.. | tauto].
Qed.

(** X11: [updateConfigFromGenesisValidators] returns the error of the first
    malformed validator of the list, the one of the format check when the
    check rejects it and the one of the connection type otherwise; it has
    called nothing and changed nothing by then, whatever comes after that
    validator in the list. *)
Theorem updateConfig_first_malformed_peer VerifyPeerFormat c pre val post w :
  Forall (fun v => ~ malformed VerifyPeerFormat v) pre ->
  malformed VerifyPeerFormat val ->
  updateConfigFromGenesisValidators VerifyPeerFormat c (pre ++ val :: post) w
  = (Err (if VerifyPeerFormat (Peer val)
          then ErrMsg "invalid peer type"
          else ErrMsg ("invalid peer: " +:+ Id (Peer val))), w).
Proof.
  intros Hpre Hval. unfold updateConfigFromGenesisValidators, bind, lift.
  rewrite (peersLoop_first_malformed _ _ _ _ _ _ _ Hpre Hval).
  unfold peerError. destruct (VerifyPeerFormat (Peer val)); reflexivity.
Qed.

Lemma updateConfig_first_malformed_peer_witness :
  updateConfigFromGenesisValidators VerifyPeerFormat_topology chain0
    ([val_direct; val_tunnel] ++ val_malformed :: [val_direct]) world0
  = (Err (ErrMsg "invalid peer: V3"), world0).
Proof.
  apply (updateConfig_first_malformed_peer VerifyPeerFormat_topology chain0
           [val_direct; val_tunnel] val_malformed [val_direct] world0).
  - repeat constructor; intros [H|H]; discriminate H.
  - left. reflexivity.
Defined.

(** X12: [config.toml] is opened with truncation before the tree is written:
    when the write of the tree fails and nothing else does,
    [updateConfigFromGenesisValidators] returns the error of the write and
    leaves [config.toml] empty; the SPN configuration is not written. *)
Theorem updateConfig_failed_write_truncates VerifyPeerFormat c vals w e :
  vals <> [] ->
  Forall (fun v => ~ malformed VerifyPeerFormat v) vals ->
  (forall t call,
     e_fails (w_env w) t call =
     match call with CWriteTo _ => Some e | _ => None end) ->
  (updateConfigFromGenesisValidators VerifyPeerFormat c vals w).1 = Err e /\
  w_config (updateConfigFromGenesisValidators VerifyPeerFormat c vals w).2 = ∅ /\
  w_spn (updateConfigFromGenesisValidators VerifyPeerFormat c vals w).2 = w_spn w.
Proof.
  intros Hne Hall Hf.
  destruct (peersLoop_total VerifyPeerFormat vals 0%nat [] [] Hall) as (p & t & Hl).
  destruct (tunnels_nonempty _ _ _ _ Hl) as (Hlen & _).
  assert (Hp : (0 <? length p)%nat = true).
  { rewrite Hlen. destruct vals; [congruence | reflexivity]. }
  unfold updateConfigFromGenesisValidators.
  rewrite (bind_Ok_intro _ _ w (p, t) w) by (unfold lift; rewrite Hl; reflexivity).
  cbn [fst snd]. rewrite Hp.
  unfold bind, chain_ConfigTOMLPath, toml_LoadFile, os_OpenFile, toml_WriteTo, call,
    call_total, reading, writing.
  repeat (rewrite Hf; cbn). auto.
Qed.

Lemma updateConfig_failed_write_truncates_witness :
  (updateConfigFromGenesisValidators VerifyPeerFormat_topology chain0
     [val_direct; val_tunnel] world_disk_full).1 = Err (ErrMsg "disk full") /\
  w_config (updateConfigFromGenesisValidators VerifyPeerFormat_topology chain0
              [val_direct; val_tunnel] world_disk_full).2 = ∅ /\
  w_spn (updateConfigFromGenesisValidators VerifyPeerFormat_topology chain0
           [val_direct; val_tunnel] world_disk_full).2 = w_spn world_disk_full.
Proof.
  apply (updateConfig_failed_write_truncates VerifyPeerFormat_topology chain0
           [val_direct; val_tunnel] world_disk_full (ErrMsg "disk full")).
  - discriminate.
  - repeat constructor; intros [H|H]; discriminate H.
  - intros t call. reflexivity.
Defined.

(** ** The home directory *)

Lemma IsHomeDirExist_eq c w :
  IsHomeDirExist c w =
  match e_fails (w_env w) (w_trace w) CHome with
  | Some e => (Err e, log CHome w)
  | None =>
      let w2 := log (CStat (e_home (w_env w))) (log CHome w) in
      match w_home_stat w with
      | StatNotExist => (Ok false, w2)
      | StatOk => (Ok true, w2)
      | StatError e => (Err e, w2)
      end
  end.
Proof.
  unfold IsHomeDirExist, bind. rewrite chain_Home_eq.
  destruct (e_fails _ _ _); [reflexivity |].
  unfold os_Stat. rewrite call_total_eq. simpl.
  destruct (w_home_stat w); reflexivity.
Qed.

(** X13: [IsHomeDirExist] and [Prepare] look at the chain home in the same
    way. When [IsHomeDirExist] returns an error, [Prepare] returns the same
    error and has done nothing more; when it returns false, [Prepare] goes on
    with the full initialization; when it returns true, [Prepare] goes on with
    the build of the chain and never calls the initialization. *)
Theorem IsHomeDirExist_decides_Prepare VerifyPeerFormat ChangeAddressPrefix
    clispinner_OK c gi w :
  (forall e w1,
     IsHomeDirExist c w = (Err e, w1) ->
     Prepare VerifyPeerFormat ChangeAddressPrefix clispinner_OK c gi w = (Err e, w1)) /\
  (forall w1,
     IsHomeDirExist c w = (Ok false, w1) ->
     exists post,
       new_calls w (Prepare VerifyPeerFormat ChangeAddressPrefix clispinner_OK c gi w).2
       = new_calls w w1 ++ [CInit] ++ post) /\
  (forall w1,
     IsHomeDirExist c w = (Ok true, w1) ->
     (exists post,
        new_calls w (Prepare VerifyPeerFormat ChangeAddressPrefix clispinner_OK c gi w).2
        = new_calls w w1 ++
          [CSend StatusOngoing "Building the blockchain"; CBuild] ++ post) /\
     ~ In CInit
          (new_calls w (Prepare VerifyPeerFormat ChangeAddressPrefix clispinner_OK
                          c gi w).2)).
Proof.
  rewrite IsHomeDirExist_eq.
  destruct (e_fails (w_env w) (w_trace w) CHome) as [e0|] eqn:Hfail.
  { split; [| split]; [| discriminate..].
    intros e w1 [= <- <-]. unfold Prepare. apply bind_Err_intro.
    rewrite chain_Home_eq, Hfail. reflexivity. }
  assert (Hh : (chain_Home w).1 = Ok (e_home (w_env w))).
  { rewrite chain_Home_eq, Hfail. reflexivity. }
  assert (Hrun := Prepare_run VerifyPeerFormat ChangeAddressPrefix clispinner_OK
                    c gi w _ Hh).
  assert (Ht2 : new_calls w (log (CStat (e_home (w_env w))) (log CHome w))
                = [CHome; CStat (e_home (w_env w))]).
  { apply new_calls_app. simpl. rewrite <- app_assoc. reflexivity. }
  cbn zeta. split; [| split].
  - intros e w1 H. rewrite Hrun.
    destruct (w_home_stat w); try discriminate. injection H as <- <-. reflexivity.
  - intros w1 H. destruct (w_home_stat w) eqn:Hst; try discriminate.
    injection H as <-. rewrite Ht2, Hrun.
    destruct (prepareEntry_StatNotExist_prefix c
                (prepareFinish VerifyPeerFormat ChangeAddressPrefix clispinner_OK
                   c gi (e_home (w_env w)))
                (log (CStat (e_home (w_env w))) (log CHome w))) as (post & Hpost).
    { intros b. apply grows_prepareFinish. }
    exists post. apply new_calls_app. etrans; [exact Hpost |].
    simpl. rewrite <- !app_assoc. reflexivity.
  - intros w1 H. destruct (w_home_stat w) eqn:Hst; try discriminate.
    injection H as <-. rewrite Ht2. split.
    + destruct (Prepare_StatOk_calls VerifyPeerFormat ChangeAddressPrefix
                  clispinner_OK c gi w _ Hh Hst) as (post & Hpost).
      exists post. rewrite Hpost. reflexivity.
    + destruct (keeps_Prepare_StatOk VerifyPeerFormat ChangeAddressPrefix
                  clispinner_OK (emits rebuild_calls) (emits_refl _) (emits_trans _)
                  ltac:(emits_hyps) ltac:(emits_hyps) ltac:(emits_hyps)
                  ltac:(emits_hyps) ltac:(emits_hyps) ltac:(emits_hyps)
                  ltac:(emits_hyps) c gi w Hst) as (evs & Hevs & Hall).
      rewrite (new_calls_app _ _ _ Hevs). intros Hin.
      rewrite Forall_forall in Hall. apply list_elem_of_In, Hall in Hin.
      discriminate Hin.
Qed.

Lemma IsHomeDirExist_decides_Prepare_witness :
  Prepare VerifyPeerFormat_topology reprefix "OK" chain0 gi0 world_denied
  = (Err (ErrMsg "permission denied"),
     log (CStat "/spn/1") (log CHome world_denied)).
Proof.
  apply (proj1 (IsHomeDirExist_decides_Prepare VerifyPeerFormat_topology reprefix "OK"
                  chain0 gi0 world_denied)).
  reflexivity.
Defined.

(** ** Building again *)

Lemma checkBinaryCache_frame c w :
  w_env (checkBinaryCache c w).2 = w_env w /\
  w_binaries (checkBinaryCache c w).2 = w_binaries w /\
  w_cache (checkBinaryCache c w).2 = w_cache w.
Proof.
  rewrite checkBinaryCache_eq. destruct (launchID c =? 0)%N; [auto |].
  destruct (e_fails _ _ _); [auto |]. cbn zeta.
  destruct (w_binaries w !! e_binary (w_env w)) as [[s|e]|]; simpl;
    try destruct (errors_Is_ErrNotFound e); destruct (e_cache_err (w_env w)); auto.
Qed.

(** A lookup that was a hit is a hit again. *)
Lemma checkBinaryCache_hit_again c w n w0 :
  checkBinaryCache c w = (Ok (Some n), w0) ->
  e_fails (w_env w0) (w_trace w0) CBinary = None ->
  exists sum,
    checkBinaryCache c w0 =
    (Ok (Some n),
     log (CCheckBinaryCache (launchID c) sum (hash c))
       (log (CBinaryChecksum n) (log CBinary w0))).
Proof.
  intros H Hf.
  destruct (checkBinaryCache_frame c w) as (Henv & Hbin & Hcache).
  rewrite H in Henv, Hbin, Hcache. simpl in Henv, Hbin, Hcache.
  rewrite checkBinaryCache_eq in H |- *. rewrite Hf, Henv, Hbin, Hcache.
  destruct (launchID c =? 0)%N; [discriminate |].
  destruct (e_fails (w_env w) (w_trace w) CBinary); [discriminate |].
  cbn zeta in H |- *.
  destruct (w_binaries w !! e_binary (w_env w)) as [[s|e]|]; simpl in H |- *.
  - destruct (e_cache_err (w_env w)); [discriminate |].
    destruct (bool_decide _); [| discriminate]. injection H as <- _. eauto.
  - destruct (errors_Is_ErrNotFound e); [| discriminate].
    destruct (e_cache_err (w_env w)); [discriminate |].
    destruct (bool_decide _); [| discriminate]. injection H as <- _. eauto.
  - destruct (e_cache_err (w_env w)); [discriminate |].
    destruct (bool_decide _); [| discriminate]. injection H as <- _. eauto.
Qed.

(** The lookup in a world whose cache records, for the chain, the checksum of
    the binary on disk. *)
Lemma checkBinaryCache_recorded c w sum :
  launchID c <> 0%N ->
  e_fails (w_env w) (w_trace w) CBinary = None ->
  e_cache_err (w_env w) = None ->
  w_binaries w !! e_binary (w_env w) = Some (BinSum sum) ->
  w_cache w !! (launchID c, hash c) = Some sum ->
  checkBinaryCache c w =
  (Ok (Some (e_binary (w_env w))),
   log (CCheckBinaryCache (launchID c) sum (hash c))
     (log (CBinaryChecksum (e_binary (w_env w))) (log CBinary w))).
Proof.
  intros Hl Hf Hc Hb Hk. rewrite checkBinaryCache_eq.
  apply N.eqb_neq in Hl. rewrite Hl, Hf. cbn zeta. rewrite Hb, Hc. simpl.
  rewrite bool_decide_eq_true_2 by exact Hk. reflexivity.
Qed.

(** X14: for a chain with a launch id, [Build] called again after a [Build]
    that returned no error makes the lookup and returns the same name: it
    does not build again, and it leaves the binaries and the cache as they
    are. The name the chain gives for its binary is the name of the binary
    a build leaves. *)
Theorem Build_again_hits_cache c w name w1 :
  launchID c <> 0%N ->
  e_binary (w_env w) = (e_built (w_env w)).1 ->
  Build c w = (Ok name, w1) ->
  e_fails (w_env w1) (w_trace w1) CBinary = None ->
  exists sum,
    Build c w1 =
    (Ok name,
     log (CCheckBinaryCache (launchID c) sum (hash c))
       (log (CBinaryChecksum name) (log CBinary w1))).
Proof.
  intros Hl Hname H Hf. unfold Build in H.
  apply bind_Ok in H as (cached & w0 & Hcheck & H).
  destruct cached as [n|].
  - injection H as <- <-.
    destruct (checkBinaryCache_hit_again _ _ _ _ Hcheck Hf) as (sum & Hagain).
    exists sum. apply Build_hit, Hagain.
  - destruct (checkBinaryCache_frame c w) as (Henv & _).
    rewrite Hcheck in Henv. simpl in Henv.
    rewrite buildAndCache_eq in H. rewrite Henv in H.
    destruct (e_fails (w_env w) (w_trace w0) CBuild); [discriminate |].
    cbn zeta in H.
    destruct (e_built (w_env w)).2 as [[sum|e]|] eqn:Hbuilt; try discriminate.
    destruct (e_cache_err (w_env w)) eqn:Hc; [discriminate |].
    injection H as <- <-. exists sum.
    apply Build_hit.
    match goal with |- checkBinaryCache c ?W = _ =>
      pose proof (checkBinaryCache_recorded c W sum Hl Hf) as Hrec end.
    cbn [w_env w_binaries w_cache set_cache log set_trace set_binaries] in Hrec.
    rewrite Henv, Hname in Hrec. apply Hrec.
    + exact Hc.
    + rewrite install_lookup. exact Hbuilt.
    + apply lookup_insert_eq.
Qed.

Lemma Build_again_hits_cache_witness :
  exists sum,
    Build chain0 (Build chain0 world0).2 =
    (Ok "chaind",
     log (CCheckBinaryCache 1%N sum "c0ffee")
       (log (CBinaryChecksum "chaind") (log CBinary (Build chain0 world0).2))).
Proof.
  apply (Build_again_hits_cache chain0 world0 "chaind" (Build chain0 world0).2).
  - discriminate.
  - reflexivity.
  - vm_compute. reflexivity.
  - reflexivity.
Defined.

(** ** The fetch of the source *)

Ltac fetch_cases :=
  repeat match goal with
         | |- context [match g_fails ?g ?t ?c with _ => _ end] =>
             destruct (g_fails g t c); simpl
         | |- context [match g_remote ?g ?o with _ => _ end] =>
             destruct (g_remote g o); simpl
         | |- context [match repo_revisions ?r !! ?h with _ => _ end] =>
             destruct (repo_revisions r !! h); simpl
         end.

(** The calls of a fetch that returns. *)
Lemma fetchSource_Ok_calls url ref customHash g p h g' :
  fetchSource url ref customHash g = (Ok (p, h), g') ->
  exists rest,
    g_trace g' =
    g_trace g ++ [GMkdirTemp; GMkdirAll p; GPlainClone p (cloneOptions url ref)]
              ++ rest /\
    if is_empty_string customHash
    then rest = [GHead]
    else exists commit,
           rest = [GWorktree; GResolveRevision customHash; GCheckout p commit].
Proof.
  intros H. unfold fetchSource in H.
  apply bind_Ok in H as (path0 & g1 & H1 & H).
  apply g_call_Ok in H1. injection H1 as <- <-.
  apply bind_Ok in H as ([] & g2 & H2 & H).
  apply g_call_Ok in H2. injection H2 as <-.
  apply bind_Ok in H as (repo & g3 & H3 & H).
  apply g_call_Ok in H3. simpl in H3.
  destruct (g_remote g (cloneOptions url ref)) as [r|] eqn:Hr; [| discriminate].
  injection H3 as <- <-.
  destruct (is_empty_string customHash); simpl in H.
  - apply bind_Ok in H as (githash & g4 & H4 & H).
    apply g_call_Ok in H4. injection H4 as <- <-.
    injection H as <- <- <-. exists [GHead]. split; [| reflexivity].
    simpl. rewrite <- !app_assoc. reflexivity.
  - apply bind_Ok in H as (wt & g4 & H4 & H).
    apply g_call_Ok in H4. injection H4 as <- <-.
    apply bind_Ok in H as (githash & g5 & H5 & H).
    apply g_call_Ok in H5. simpl in H5.
    destruct (repo_revisions r !! customHash) as [commit|]; [| discriminate].
    injection H5 as <- <-.
    apply bind_Ok in H as ([] & g6 & H6 & H).
    apply g_call_Ok in H6. injection H6 as <-.
    injection H as <- <- <-.
    exists [GWorktree; GResolveRevision customHash; GCheckout (g_temp g) commit].
    split; [| eauto]. simpl. rewrite <- !app_assoc. reflexivity.
Qed.

(** X15: whether it returns an error or not, [fetchSource] changes no work
    tree but the one of the temporary directory it made. When it returns no
    error it has made the directory, cloned into it with the options of the
    reference, and then either asked for the HEAD (no pinned hash) or resolved
    the pinned hash and checked the commit out, in this order. *)
Theorem fetchSource_calls_and_frame url ref customHash g :
  (forall name,
     name <> g_temp g ->
     g_worktrees (fetchSource url ref customHash g).2 !! name = g_worktrees g !! name) /\
  (forall p h g',
     fetchSource url ref customHash g = (Ok (p, h), g') ->
     exists rest,
       g_trace g' =
       g_trace g ++ [GMkdirTemp; GMkdirAll p; GPlainClone p (cloneOptions url ref)]
                 ++ rest /\
       if is_empty_string customHash
       then rest = [GHead]
       else exists commit,
              rest = [GWorktree; GResolveRevision customHash; GCheckout p commit]).
Proof.
  split.
  - intros name Hname.
    unfold fetchSource, bind, os_MkdirTemp, g_MkdirAll, git_PlainCloneContext,
      repo_Worktree, repo_ResolveRevision, wt_Checkout, repo_Head, g_call, ret, fail.
    simpl. destruct (is_empty_string customHash); simpl; fetch_cases;
      rewrite ?lookup_insert_ne by congruence; try reflexivity.
  - intros p h g' H. exact (fetchSource_Ok_calls _ _ _ _ _ _ _ H).
Qed.

Lemma fetchSource_calls_and_frame_witness :
  exists rest,
    g_trace (fetchSource "https://example.com/chain.git" "refs/heads/main" "aaaa" git0).2 =
    g_trace git0 ++
      [GMkdirTemp; GMkdirAll "/tmp/0";
       GPlainClone "/tmp/0"
         (cloneOptions "https://example.com/chain.git" "refs/heads/main")] ++ rest /\
    exists commit,
      rest = [GWorktree; GResolveRevision "aaaa"; GCheckout "/tmp/0" commit].
Proof.
  apply (proj2 (fetchSource_calls_and_frame "https://example.com/chain.git"
                  "refs/heads/main" "aaaa" git0) "/tmp/0" "aaaa").
  vm_compute. reflexivity.
Defined.

(** X16: when the clone succeeds and the pinned hash resolves to no commit of
    it, [fetchSource] returns an error after the attempt to resolve, without a
    checkout; the temporary directory is left behind with the clone at its
    HEAD. *)
Theorem fetchSource_unresolvable_pin url ref customHash g repo :
  (forall t c, g_fails g t c = None) ->
  g_remote g (cloneOptions url ref) = Some repo ->
  is_empty_string customHash = false ->
  repo_revisions repo !! customHash = None ->
  is_Err (fetchSource url ref customHash g).1 /\
  g_trace (fetchSource url ref customHash g).2 =
    g_trace g ++ [GMkdirTemp; GMkdirAll (g_temp g);
                  GPlainClone (g_temp g) (cloneOptions url ref);
                  GWorktree; GResolveRevision customHash] /\
  g_worktrees (fetchSource url ref customHash g).2 !! g_temp g = Some (repo_head repo).
Proof.
  intros Hf Hr He Hrev.
  unfold fetchSource.
  erewrite bind_Ok_intro
    by (unfold os_MkdirTemp; rewrite g_call_no_fail by apply Hf; reflexivity).
  erewrite bind_Ok_intro
    by (unfold g_MkdirAll; rewrite g_call_no_fail by (cbn; apply Hf); reflexivity).
  erewrite bind_Ok_intro
    by (unfold git_PlainCloneContext; rewrite g_call_no_fail by (cbn; apply Hf);
        cbn [g_remote g_log]; rewrite Hr; reflexivity).
  rewrite He. cbn [negb].
  erewrite bind_Ok_intro
    by (unfold repo_Worktree; rewrite g_call_no_fail by (cbn; apply Hf); reflexivity).
  erewrite bind_Err_intro
    by (unfold repo_ResolveRevision; rewrite g_call_no_fail by (cbn; apply Hf);
        cbn [snd]; rewrite Hrev; reflexivity).
  cbn. split; [exact Logic.I |]. split.
  - rewrite <- !app_assoc. reflexivity.
  - apply lookup_insert_eq.
Qed.

Lemma fetchSource_unresolvable_pin_witness :
  is_Err (fetchSource "https://example.com/chain.git" EmptyString "dddd" git0).1 /\
  g_trace (fetchSource "https://example.com/chain.git" EmptyString "dddd" git0).2 =
    g_trace git0 ++
      [GMkdirTemp; GMkdirAll (g_temp git0);
       GPlainClone (g_temp git0) (cloneOptions "https://example.com/chain.git" EmptyString);
       GWorktree; GResolveRevision "dddd"] /\
  g_worktrees (fetchSource "https://example.com/chain.git" EmptyString "dddd" git0).2
    !! g_temp git0 = Some (repo_head repo0).
Proof.
  apply (fetchSource_unresolvable_pin "https://example.com/chain.git" EmptyString
           "dddd" git0 repo0); reflexivity.
Defined.

(** ** New *)

(** What a fetch that returns has done. *)
Lemma fetchSource_Ok url ref customHash g p h g' :
  fetchSource url ref customHash g = (Ok (p, h), g') ->
  exists repo,
    g_remote g (cloneOptions url ref) = Some repo /\ p = g_temp g /\
    if is_empty_string customHash
    then h = repo_head repo /\ g_worktrees g' !! p = Some (repo_head repo)
    else h = customHash /\
         exists commit,
           repo_revisions repo !! customHash = Some commit /\
           g_worktrees g' !! p = Some commit.
Proof.
  intros H. unfold fetchSource in H.
  apply bind_Ok in H as (path0 & g1 & H1 & H).
  apply g_call_Ok in H1. injection H1 as <- <-.
  apply bind_Ok in H as ([] & g2 & H2 & H).
  apply g_call_Ok in H2. injection H2 as <-.
  apply bind_Ok in H as (repo & g3 & H3 & H).
  apply g_call_Ok in H3. simpl in H3.
  destruct (g_remote g (cloneOptions url ref)) as [r|] eqn:Hr; [| discriminate].
  injection H3 as <- <-. exists r. split; [reflexivity |].
  destruct (is_empty_string customHash); simpl in H.
  - apply bind_Ok in H as (githash & g4 & H4 & H).
    apply g_call_Ok in H4. injection H4 as <- <-.
    injection H as <- <- <-. simpl. split; [reflexivity |]. split; [reflexivity |].
    apply lookup_insert_eq.
  - apply bind_Ok in H as (wt & g4 & H4 & H).
    apply g_call_Ok in H4. injection H4 as <- <-.
    apply bind_Ok in H as (githash & g5 & H5 & H).
    apply g_call_Ok in H5. simpl in H5.
    destruct (repo_revisions r !! customHash) as [commit|] eqn:Hrev; [| discriminate].
    injection H5 as <- <-.
    apply bind_Ok in H as ([] & g6 & H6 & H).
    apply g_call_Ok in H6. injection H6 as <-.
    injection H as <- <- <-. simpl. split; [reflexivity |]. split; [reflexivity |].
    exists commit. split; [reflexivity |]. apply lookup_insert_eq.
Qed.

Section NewProperties.

Variable ChainHome : N -> string.
Variable KeyringBackendTest : string.
Variable IsFamily_Stargate : string -> bool.
Variable ErrOnlyStargateSupported : error.

(** [New], once the source is fetched. *)
Lemma New_fetched registry source options s p h g' :
  fetchSource (url (data (configured registry source options)))
              (ref (data (configured registry source options)))
              (hash (data (configured registry source options))) (n_git s)
  = (Ok (p, h), g') ->
  let c0 := configured registry source options in
  let c1 := set_keyringBackend (settled_backend KeyringBackendTest c0 s)
              (set_data (set_hash h) (set_data (set_path p) c0)) in
  let t := n_trace s ++
             [NSend (ev c0) StatusOngoing "Fetching the source code";
              NSend (ev c0) StatusDone "Source code fetched";
              NSend (ev c0) StatusOngoing "Setting up the blockchain";
              NIsOnGitpod; NChainNew p (chain_options KeyringBackendTest c0 s)] in
  New KeyringBackendTest IsFamily_Stargate ErrOnlyStargateSupported registry source options s =
  match n_chain_New s p (chain_options KeyringBackendTest c0 s) with
  | Err e =>
      (Err e, {| n_git := g'; n_trace := t; n_onGitpod := n_onGitpod s;
                 n_chain_New := n_chain_New s |})
  | Ok rt =>
      if IsFamily_Stargate (Version rt)
      then (Ok (set_chain (Some rt) c1),
            {| n_git := g';
               n_trace := t ++ [NSend (ev c0) StatusDone "Blockchain set up"];
               n_onGitpod := n_onGitpod s; n_chain_New := n_chain_New s |})
      else (Err ErrOnlyStargateSupported,
            {| n_git := g'; n_trace := t; n_onGitpod := n_onGitpod s;
               n_chain_New := n_chain_New s |})
  end.
Proof.
  intros Hfetch c0 c1 t. subst c0 c1 t. unfold New.
  unfold bind, n_Send, in_git. cbn [n_git n_log]. rewrite Hfetch.
  cbn [fst snd n_log n_trace n_git n_onGitpod n_chain_New gitpod_IsOnGitpod chain_New].
  unfold chain_options, settled_backend.
  unfold n_log.
  destruct (n_onGitpod s); cbn -[fetchSource configured];
    (destruct (n_chain_New s p _) as [rt|e];
     [destruct (IsFamily_Stargate (Version rt)) |]);
    cbn -[configured]; rewrite <- ?app_assoc; reflexivity.
Qed.

(** [New], when the fetch fails. *)
Lemma New_not_fetched registry source options s e g' :
  fetchSource (url (data (configured registry source options)))
              (ref (data (configured registry source options)))
              (hash (data (configured registry source options))) (n_git s)
  = (Err e, g') ->
  New KeyringBackendTest IsFamily_Stargate ErrOnlyStargateSupported registry source options s =
  (Err e,
   {| n_git := g';
      n_trace := n_trace s ++
        [NSend (ev (configured registry source options)) StatusOngoing
               "Fetching the source code"];
      n_onGitpod := n_onGitpod s; n_chain_New := n_chain_New s |}).
Proof.
  intros Hfetch. unfold New, bind, n_Send, in_git. cbn [n_git n_log].
  rewrite Hfetch. reflexivity.
Qed.

(** [New], when it returns a chain. *)
Lemma New_Ok registry source options s c s' :
  New KeyringBackendTest IsFamily_Stargate ErrOnlyStargateSupported registry source options s
  = (Ok c, s') ->
  exists p h rt,
    fetchSource (url (data (configured registry source options)))
                (ref (data (configured registry source options)))
                (hash (data (configured registry source options))) (n_git s)
    = (Ok (p, h), n_git s') /\
    n_chain_New s p (chain_options KeyringBackendTest (configured registry source options) s)
    = Ok rt /\
    IsFamily_Stargate (Version rt) = true /\
    c = set_chain (Some rt)
          (set_keyringBackend
             (settled_backend KeyringBackendTest (configured registry source options) s)
             (set_data (set_hash h)
                (set_data (set_path p) (configured registry source options)))) /\
    n_trace s' =
      n_trace s ++
      [NSend (ev (configured registry source options)) StatusOngoing "Fetching the source code";
       NSend (ev (configured registry source options)) StatusDone "Source code fetched";
       NSend (ev (configured registry source options)) StatusOngoing
             "Setting up the blockchain";
       NIsOnGitpod;
       NChainNew p (chain_options KeyringBackendTest (configured registry source options) s);
       NSend (ev (configured registry source options)) StatusDone "Blockchain set up"].
Proof.
  intros H.
  destruct (fetchSource (url (data (configured registry source options)))
              (ref (data (configured registry source options)))
              (hash (data (configured registry source options))) (n_git s))
    as [[[p h]|e] g'] eqn:Hfetch.
  - rewrite (New_fetched _ _ _ _ _ _ _ Hfetch) in H. cbn zeta in H.
    destruct (n_chain_New s p _) as [rt|e] eqn:Hnew; [| discriminate].
    destruct (IsFamily_Stargate (Version rt)) eqn:Hfam; [| discriminate].
    injection H as <- <-. exists p, h, rt. cbn [n_git n_trace].
    rewrite <- app_assoc. auto.
  - rewrite (New_not_fetched _ _ _ _ _ _ Hfetch) in H. discriminate.
Qed.

(** X17: the chain [New] returns is the chain the source and the options
    configured, with the temporary directory of the fetch as its path and the
    resolved hash as its source hash: the pinned hash when there is one, whose
    commit is then checked out in the directory, and the hash of the HEAD of
    the clone otherwise. *)
Theorem New_returns_configured_chain registry source options s c s' :
  New KeyringBackendTest IsFamily_Stargate ErrOnlyStargateSupported registry source options s
  = (Ok c, s') ->
  (id (data c) = id (data (configured registry source options)) /\
   launchID (data c) = launchID (data (configured registry source options)) /\
   home (data c) = home (data (configured registry source options)) /\
   SourceURL c = url (data (configured registry source options)) /\
   genesisURL (data c) = genesisURL (data (configured registry source options)) /\
   genesisHash (data c) = genesisHash (data (configured registry source options)) /\
   launchTime (data c) = launchTime (data (configured registry source options)) /\
   ref (data c) = ref (data (configured registry source options)) /\
   ev c = ev (configured registry source options) /\
   ar c = ar (configured registry source options)) /\
  path (data c) = g_temp (n_git s) /\
  exists repo,
    g_remote (n_git s)
      (cloneOptions (url (data (configured registry source options)))
                    (ref (data (configured registry source options)))) = Some repo /\
    if is_empty_string (hash (data (configured registry source options)))
    then SourceHash c = repo_head repo /\
         g_worktrees (n_git s') !! path (data c) = Some (repo_head repo)
    else SourceHash c = hash (data (configured registry source options)) /\
         exists commit,
           repo_revisions repo !! hash (data (configured registry source options))
           = Some commit /\
           g_worktrees (n_git s') !! path (data c) = Some commit.
Proof.
  intros H. apply New_Ok in H as (p & h & rt & Hfetch & _ & _ & -> & _).
  apply fetchSource_Ok in Hfetch as (repo & Hr & -> & Hh).
  split; [cbn; repeat split |]. split; [reflexivity |].
  exists repo. split; [exact Hr |]. exact Hh.
Qed.

(** X18: on Gitpod the keyring backend of the chain [New] returns is the test
    backend, whatever the options asked for; elsewhere it is the configured
    one. [chain.New] was called once, on the fetched source, with the chain
    id, the home, the silent log level and this keyring backend, in this
    order, and the chain holds the handle it returned. *)
Theorem New_keyring_backend registry source options s c s' :
  New KeyringBackendTest IsFamily_Stargate ErrOnlyStargateSupported registry source options s
  = (Ok c, s') ->
  (n_onGitpod s = true -> keyringBackend c = KeyringBackendTest) /\
  (n_onGitpod s = false ->
   keyringBackend c = keyringBackend (configured registry source options)) /\
  filter (fun call => is_chain_New call = true)
         (drop (length (n_trace s)) (n_trace s')) =
    [NChainNew (path (data c))
       [chain_ID (id (data c)); chain_HomePath (home (data c));
        chain_LogLevel LogSilent; chain_KeyringBackend (keyringBackend c)]] /\
  exists rt,
    chain c = Some rt /\
    n_chain_New s (path (data c))
      [chain_ID (id (data c)); chain_HomePath (home (data c));
       chain_LogLevel LogSilent; chain_KeyringBackend (keyringBackend c)] = Ok rt.
Proof.
  intros H. apply New_Ok in H as (p & h & rt & _ & Hnew & _ & -> & Htrace).
  rewrite Htrace, drop_app_length. cbn -[configured].
  unfold chain_options in Hnew. unfold settled_backend in *.
  split; [intros ->; reflexivity |]. split; [intros ->; reflexivity |].
  split; [reflexivity |]. exists rt. split; [reflexivity | exact Hnew].
Qed.

(** X19: the events and calls of [New], by outcome. A chain is returned after
    the four events, with the Gitpod test and the call of [chain.New] before
    the last one. An error is returned either by the fetch, after the first
    event alone, or after the third event, by [chain.New] or because the
    version is not of the Stargate family; the event that reports that the
    blockchain is set up is then not sent. *)
Theorem New_events registry source options s :
  (forall c s',
     New KeyringBackendTest IsFamily_Stargate ErrOnlyStargateSupported registry source
         options s = (Ok c, s') ->
     drop (length (n_trace s)) (n_trace s') =
       [NSend (ev c) StatusOngoing "Fetching the source code";
        NSend (ev c) StatusDone "Source code fetched";
        NSend (ev c) StatusOngoing "Setting up the blockchain";
        NIsOnGitpod;
        NChainNew (path (data c))
          (chain_options KeyringBackendTest (configured registry source options) s);
        NSend (ev c) StatusDone "Blockchain set up"]) /\
  (forall e s',
     New KeyringBackendTest IsFamily_Stargate ErrOnlyStargateSupported registry source
         options s = (Err e, s') ->
     let bus := ev (configured registry source options) in
     ((fetchSource (url (data (configured registry source options)))
                   (ref (data (configured registry source options)))
                   (hash (data (configured registry source options))) (n_git s)).1 = Err e /\
      drop (length (n_trace s)) (n_trace s') =
        [NSend bus StatusOngoing "Fetching the source code"]) \/
     (exists p,
        drop (length (n_trace s)) (n_trace s') =
          [NSend bus StatusOngoing "Fetching the source code";
           NSend bus StatusDone "Source code fetched";
           NSend bus StatusOngoing "Setting up the blockchain";
           NIsOnGitpod;
           NChainNew p
             (chain_options KeyringBackendTest (configured registry source options) s)] /\
        (n_chain_New s p
           (chain_options KeyringBackendTest (configured registry source options) s) = Err e \/
         exists rt,
           n_chain_New s p
             (chain_options KeyringBackendTest (configured registry source options) s)
           = Ok rt /\
           IsFamily_Stargate (Version rt) = false /\ e = ErrOnlyStargateSupported))).
Proof.
  split.
  - intros c s' H. apply New_Ok in H as (p & h & rt & _ & _ & _ & -> & ->).
    rewrite drop_app_length. reflexivity.
  - intros e s' H bus.
    destruct (fetchSource (url (data (configured registry source options)))
                (ref (data (configured registry source options)))
                (hash (data (configured registry source options))) (n_git s))
      as [[[p h]|e0] g'] eqn:Hfetch.
    + right. exists p.
      rewrite (New_fetched _ _ _ _ _ _ _ Hfetch) in H. cbn zeta in H.
      destruct (n_chain_New s p _) as [rt|e1] eqn:Hnew.
      * destruct (IsFamily_Stargate (Version rt)) eqn:Hfam; [discriminate |].
        injection H as <- <-. cbn [n_trace]. rewrite drop_app_length.
        split; [reflexivity |]. right. exists rt. auto.
      * injection H as <- <-. cbn [n_trace]. rewrite drop_app_length.
        split; [reflexivity |]. left. reflexivity.
    + left. rewrite (New_not_fetched _ _ _ _ _ _ Hfetch) in H.
      injection H as <- <-. cbn [n_trace fst]. rewrite drop_app_length.
      split; reflexivity.
Qed.

(** X20: a chain whose version is not of the Stargate family is rejected
    with [ErrOnlyStargateSupported], and only after its source was fetched and
    [chain.New] has run: the temporary directory stays behind with the
    source. *)
Theorem New_rejects_other_families registry source options s p h g' rt :
  fetchSource (url (data (configured registry source options)))
              (ref (data (configured registry source options)))
              (hash (data (configured registry source options))) (n_git s)
  = (Ok (p, h), g') ->
  n_chain_New s p (chain_options KeyringBackendTest (configured registry source options) s)
  = Ok rt ->
  IsFamily_Stargate (Version rt) = false ->
  (New KeyringBackendTest IsFamily_Stargate ErrOnlyStargateSupported registry source
       options s).1 = Err ErrOnlyStargateSupported /\
  n_git (New KeyringBackendTest IsFamily_Stargate ErrOnlyStargateSupported registry source
             options s).2 = g' /\
  is_Some (g_worktrees g' !! p).
Proof.
  intros Hfetch Hnew Hfam.
  rewrite (New_fetched _ _ _ _ _ _ _ Hfetch). cbn zeta. rewrite Hnew, Hfam.
  split; [reflexivity |]. split; [reflexivity |].
  apply fetchSource_Ok in Hfetch as (repo & _ & _ & Hh).
  destruct (is_empty_string _).
  - destruct Hh as (_ & ->). eauto.
  - destruct Hh as (_ & commit & _ & ->). eauto.
Qed.

(** The options are applied in their order, after the source. *)
Lemma configured_snoc registry source options apply :
  configured registry source (options ++ [apply]) = apply (configured registry source options).
Proof. unfold configured. rewrite fold_left_app. reflexivity. Qed.

(** X21: an option given last overrides the source: with [WithHome] last,
    the home of the chain and the home given to [chain.New] are the home of
    the option. Without options, the home of a chain made from a launch is
    [ChainHome] of the launch id, its other data are those of the launch, and
    its source hash is the hash of the launch when the launch pins one. *)
Theorem New_from_launch registry :
  (forall source options home0 s c s',
     New KeyringBackendTest IsFamily_Stargate ErrOnlyStargateSupported registry source
         (options ++ [WithHome home0]) s = (Ok c, s') ->
     home (data c) = home0 /\
     exists p backend,
       In (NChainNew p [chain_ID (id (data c)); chain_HomePath home0;
                        chain_LogLevel LogSilent; chain_KeyringBackend backend])
          (n_trace s')) /\
  (forall launch s c s',
     New KeyringBackendTest IsFamily_Stargate ErrOnlyStargateSupported registry
         (SourceLaunch ChainHome launch) [] s = (Ok c, s') ->
     home (data c) = ChainHome (launch_ID launch) /\
     id (data c) = launch_ChainID launch /\
     launchID (data c) = launch_ID launch /\
     SourceURL c = launch_SourceURL launch /\
     genesisURL (data c) = launch_GenesisURL launch /\
     genesisHash (data c) = launch_GenesisHash launch /\
     launchTime (data c) = launch_LaunchTime launch /\
     (is_empty_string (launch_SourceHash launch) = false ->
      SourceHash c = launch_SourceHash launch)).
Proof.
  split.
  - intros source options home0 s c s' H.
    apply New_Ok in H as (p & h & rt & _ & _ & _ & -> & Htrace).
    rewrite configured_snoc in Htrace |- *. split; [reflexivity |].
    exists p. eexists. rewrite Htrace. apply in_or_app. right.
    do 4 right. left. reflexivity.
  - intros launch s c s' H.
    apply New_Ok in H as (p & h & rt & Hfetch & _ & _ & -> & _).
    cbn. repeat split. intros Hpin.
    apply fetchSource_Ok in Hfetch as (repo & _ & _ & Hh).
    cbn in Hh. rewrite Hpin in Hh. destruct Hh as (-> & _). reflexivity.
Qed.

End NewProperties.

Lemma New_returns_configured_chain_witness :
  exists c s',
    New "test" stargate_from_v040 ErrOnlyStargateSupported0 "keyring"
        (SourceRemoteHash "https://example.com/chain.git" "aaaa")
        [CollectEvents (Some "bus")] new0 = (Ok c, s') /\
    path (data c) = "/tmp/0" /\ SourceHash c = "aaaa".
Proof.
  destruct (New "test" stargate_from_v040 ErrOnlyStargateSupported0 "keyring"
              (SourceRemoteHash "https://example.com/chain.git" "aaaa")
              [CollectEvents (Some "bus")] new0) as [[c|e] s'] eqn:H.
  - exists c, s'. split; [reflexivity |].
    destruct (New_returns_configured_chain "test" stargate_from_v040
                ErrOnlyStargateSupported0 _ _ _ _ _ _ H)
      as (_ & Hpath & repo & _ & Hhash).
    split; [exact Hpath |]. cbn in Hhash. exact (proj1 Hhash).
  - exfalso. vm_compute in H. discriminate H.
Defined.

Lemma New_keyring_backend_witness :
  exists c s',
    New "test" stargate_from_v040 ErrOnlyStargateSupported0 "keyring"
        (SourceRemote "https://example.com/chain.git")
        [WithKeyringBackend "os"] new_gitpod = (Ok c, s') /\
    keyringBackend c = "test".
Proof.
  destruct (New "test" stargate_from_v040 ErrOnlyStargateSupported0 "keyring"
              (SourceRemote "https://example.com/chain.git")
              [WithKeyringBackend "os"] new_gitpod) as [[c|e] s'] eqn:H.
  - exists c, s'. split; [reflexivity |].
    exact (proj1 (New_keyring_backend "test" stargate_from_v040
                    ErrOnlyStargateSupported0 _ _ _ _ _ _ H) eq_refl).
  - exfalso. vm_compute in H. discriminate H.
Defined.

Lemma New_events_witness :
  exists e s',
    New "test" stargate_from_v040 ErrOnlyStargateSupported0 "keyring"
        (SourceRemote "https://example.com/missing.git") [] new0 = (Err e, s') /\
    n_trace s' = [NSend None StatusOngoing "Fetching the source code"].
Proof.
  destruct (New "test" stargate_from_v040 ErrOnlyStargateSupported0 "keyring"
              (SourceRemote "https://example.com/missing.git") [] new0)
    as [[c|e] s'] eqn:H.
  - exfalso. vm_compute in H. discriminate H.
  - exists e, s'. split; [reflexivity |].
    destruct (proj2 (New_events "test" stargate_from_v040 ErrOnlyStargateSupported0
                       "keyring" (SourceRemote "https://example.com/missing.git") []
                       new0) e s' H) as [(_ & Htrace) | (p & Htrace & _)].
    + exact Htrace.
    + exfalso. apply (f_equal length) in Htrace. vm_compute in H.
      injection H as _ <-. discriminate Htrace.
Defined.

Lemma New_rejects_other_families_witness :
  (New "test" stargate_from_v040 ErrOnlyStargateSupported0 "keyring"
       (SourceRemote "https://example.com/chain.git") [] new_launchpad).1
  = Err ErrOnlyStargateSupported0.
Proof.
  refine (proj1 (New_rejects_other_families "test" stargate_from_v040
                   ErrOnlyStargateSupported0 "keyring"
                   (SourceRemote "https://example.com/chain.git") [] new_launchpad
                   "/tmp/0" "bbbb" _ _ _ _ _)).
  - vm_compute. reflexivity.
  - reflexivity.
  - reflexivity.
Defined.

Lemma New_from_launch_witness :
  exists c s',
    New "test" stargate_from_v040 ErrOnlyStargateSupported0 "keyring"
        (SourceLaunch ChainHome0 launch0) [] new0 = (Ok c, s') /\
    home (data c) = "/spn/1" /\ SourceHash c = "aaaa".
Proof.
  destruct (New "test" stargate_from_v040 ErrOnlyStargateSupported0 "keyring"
              (SourceLaunch ChainHome0 launch0) [] new0) as [[c|e] s'] eqn:H.
  - exists c, s'. split; [reflexivity |].
    destruct (proj2 (New_from_launch ChainHome0 "test" stargate_from_v040
                       ErrOnlyStargateSupported0 "keyring") launch0 new0 c s' H)
      as (Hhome & _ & _ & _ & _ & _ & _ & Hhash).
    split; [exact Hhome | exact (Hhash eq_refl)].
  - exfalso. vm_compute in H. discriminate H.
Defined.

(** ** Campaigns *)


Section CampaignProperties.

Variable networktypes_SPN : string.

Lemma UpdateCampaign_eq n campaignID props s :
  UpdateCampaign networktypes_SPN n campaignID props s =
  let msgs := updateMsgs (account_Address n networktypes_SPN) campaignID
                         (proposal props) in
  let s1 := nw_log (NetSend (net_ev n) StatusOngoing
                            ("Updating the campaign " +:+ pretty campaignID)) s in
  let s2 := nw_log (NetBroadcastTx (account_Name n) msgs) s1 in
  match nw_BroadcastTx s (nw_trace s1) (account_Name n) msgs with
  | Ok _ =>
      (Ok tt, nw_log (NetSend (net_ev n) StatusDone
                              ("Campaign " +:+ pretty campaignID +:+ " updated")) s2)
  | Err e => (Err e, s2)
  end.
Proof.
  unfold UpdateCampaign, bind, net_Send, cosmos_BroadcastTx. cbn [nw_log nw_BroadcastTx].
  destruct (nw_BroadcastTx s _ _ _); reflexivity.
Qed.

(** X22: [UpdateCampaign] broadcasts once, whatever the options, one
    transaction with the messages of the update in the order edit, total
    shares, total supply: the edit message is there when the proposal has a
    name or metadata, the message of the total shares when the proposal has
    shares, the one of the total supply when it has a supply, and there is no
    other message. With nothing to update the transaction is broadcast with no
    message. The event that reports the update is sent when the broadcast
    returned no error, and only then. *)
Theorem UpdateCampaign_messages n campaignID props s :
  exists msgs,
    drop (length (nw_trace s))
         (nw_trace (UpdateCampaign networktypes_SPN n campaignID props s).2) =
      [NetSend (net_ev n) StatusOngoing
               ("Updating the campaign " +:+ pretty campaignID);
       NetBroadcastTx (account_Name n) msgs] ++
      match (UpdateCampaign networktypes_SPN n campaignID props s).1 with
      | Ok _ => [NetSend (net_ev n) StatusDone
                         ("Campaign " +:+ pretty campaignID +:+ " updated")]
      | Err _ => []
      end /\
    msgs = filter (fun m => is_edit m = true) msgs ++
           filter (fun m => is_shares m = true) msgs ++
           filter (fun m => is_supply m = true) msgs /\
    filter (fun m => is_edit m = true) msgs =
      (if decide (name (proposal props) = EmptyString /\ metadata (proposal props) = [])
       then []
       else [MsgEditCampaign (account_Address n networktypes_SPN)
               (name (proposal props)) campaignID (metadata (proposal props))]) /\
    filter (fun m => is_shares m = true) msgs =
      (if decide (totalShares (proposal props) = [])
       then []
       else [MsgUpdateTotalShares (account_Address n networktypes_SPN) campaignID
               (totalShares (proposal props))]) /\
    filter (fun m => is_supply m = true) msgs =
      (if decide (totalSupply (proposal props) = [])
       then []
       else [MsgUpdateTotalSupply (account_Address n networktypes_SPN) campaignID
               (totalSupply (proposal props))]).
Proof.
  exists (updateMsgs (account_Address n networktypes_SPN) campaignID (proposal props)).
  split.
  - rewrite UpdateCampaign_eq. cbn zeta.
    destruct (nw_BroadcastTx s _ _ _); cbn [fst snd nw_log nw_trace];
      rewrite <- ?app_assoc, drop_app_length; reflexivity.
  - unfold updateMsgs.
    destruct (proposal props) as [nm md sh su]. cbn [name metadata totalShares totalSupply].
    destruct nm as [|a nm]; destruct md as [|b md]; destruct sh as [|x sh];
      destruct su as [|y su]; cbn;
      repeat (destruct (decide _) as [Hd|Hd];
              [try (destruct Hd; discriminate); try discriminate
              | try (exfalso; apply Hd; auto; fail)]);
      auto.
Qed.


Lemma CreateCampaign_eq n campaignName meta supply s :
  CreateCampaign networktypes_SPN n campaignName meta supply s =
  let msg := MsgCreateCampaign (account_Address n networktypes_SPN) campaignName supply
                               (String.list_byte_of_string meta) in
  let s1 := nw_log (NetSend (net_ev n) StatusOngoing
                            ("Creating campaign " +:+ campaignName)) s in
  let s2 := nw_log (NetBroadcastTx (account_Name n) [msg]) s1 in
  match nw_BroadcastTx s (nw_trace s1) (account_Name n) [msg] with
  | Ok res => (Decode_CampaignID res, s2)
  | Err e => (Err e, s2)
  end.
Proof.
  unfold CreateCampaign, bind, net_Send, cosmos_BroadcastTx, lift.
  cbn [nw_log nw_BroadcastTx].
  destruct (nw_BroadcastTx s _ _ _) as [res|e]; [| reflexivity].
  destruct (Decode_CampaignID res); reflexivity.
Qed.

Lemma InitializeMainnet_eq n campaignID sourceURL sourceHash mainnetChainID s :
  InitializeMainnet networktypes_SPN n campaignID sourceURL sourceHash mainnetChainID s =
  let msg := MsgInitializeMainnet (account_Address n networktypes_SPN) campaignID
                                  sourceURL sourceHash mainnetChainID in
  let s1 := nw_log (NetSend (net_ev n) StatusOngoing
                            "Initializing the mainnet campaign") s in
  let s2 := nw_log (NetBroadcastTx (account_Name n) [msg]) s1 in
  match nw_BroadcastTx s (nw_trace s1) (account_Name n) [msg] with
  | Ok res =>
      match Decode_MainnetID res with
      | Ok mainnetID =>
          (Ok mainnetID,
           nw_log (NetSend (net_ev n) StatusDone
                     ("Campaign " +:+ pretty campaignID +:+ " initialized on mainnet"))
                  s2)
      | Err e => (Err e, s2)
      end
  | Err e => (Err e, s2)
  end.
Proof.
  unfold InitializeMainnet, bind, net_Send, cosmos_BroadcastTx, lift.
  cbn [nw_log nw_BroadcastTx].
  destruct (nw_BroadcastTx s _ _ _) as [res|e]; [| reflexivity].
  destruct (Decode_MainnetID res); reflexivity.
Qed.

(** X24: [CreateCampaign] and [InitializeMainnet] broadcast one transaction
    with one message, whatever they return: an error of the decoding of the
    response comes after the broadcast. They return the id decoded from the
    response, and [InitializeMainnet] reports the initialization when it
    returns an id, and only then. *)
Theorem campaign_broadcast_then_decode n s :
  (forall campaignName meta supply,
     let r := CreateCampaign networktypes_SPN n campaignName meta supply s in
     let msg := MsgCreateCampaign (account_Address n networktypes_SPN) campaignName
                  supply (String.list_byte_of_string meta) in
     drop (length (nw_trace s)) (nw_trace r.2) =
       [NetSend (net_ev n) StatusOngoing ("Creating campaign " +:+ campaignName);
        NetBroadcastTx (account_Name n) [msg]] /\
     r.1 = match nw_BroadcastTx s
                   (nw_trace s ++
                    [NetSend (net_ev n) StatusOngoing
                             ("Creating campaign " +:+ campaignName)])
                   (account_Name n) [msg] with
           | Ok res => Decode_CampaignID res
           | Err e => Err e
           end) /\
  (forall campaignID sourceURL sourceHash mainnetChainID,
     let r := InitializeMainnet networktypes_SPN n campaignID sourceURL sourceHash
                                mainnetChainID s in
     let msg := MsgInitializeMainnet (account_Address n networktypes_SPN) campaignID
                  sourceURL sourceHash mainnetChainID in
     filter (fun c => is_broadcast c = true)
            (drop (length (nw_trace s)) (nw_trace r.2)) =
       [NetBroadcastTx (account_Name n) [msg]] /\
     (In (NetSend (net_ev n) StatusDone
            ("Campaign " +:+ pretty campaignID +:+ " initialized on mainnet"))
         (drop (length (nw_trace s)) (nw_trace r.2)) <->
      exists mainnetID, r.1 = Ok mainnetID)).
Proof.
  split.
  - intros campaignName meta supply r msg. subst r msg. rewrite CreateCampaign_eq.
    cbn zeta. cbn [nw_log nw_trace].
    destruct (nw_BroadcastTx s _ _ _) as [res|e]; cbn [fst snd nw_log nw_trace];
      rewrite <- ?app_assoc, drop_app_length; split; reflexivity.
  - intros campaignID sourceURL sourceHash mainnetChainID r msg. subst r msg.
    rewrite InitializeMainnet_eq. cbn zeta.
    destruct (nw_BroadcastTx s _ _ _) as [res|e]; [destruct (Decode_MainnetID res) |];
      cbn [fst snd nw_log nw_trace]; rewrite <- ?app_assoc, drop_app_length;
      (split; [reflexivity |]); cbn.
    + split; [eauto | intros _; auto].
    + split; [intros [H|[H|[]]]; discriminate | intros [? H]; discriminate].
    + split; [intros [H|[H|[]]]; discriminate | intros [? H]; discriminate].
Qed.

End CampaignProperties.


(** ** The genesis time *)



(** ** A genesis that cannot be built *)

Section UntilGenesis.

Variable VerifyPeerFormat : launchtypes_Peer -> bool.
Variable ChangeAddressPrefix : string -> string -> result string.
Variable clispinner_OK : string.

Variable I : World -> World -> Prop.
Hypothesis I_refl : forall w, I w w.
Hypothesis I_trans : forall w1 w2 w3, I w1 w2 -> I w2 w3 -> I w1 w3.
Hypothesis I_log : forall c w, before_validation c = true -> I w (log c w).
Hypothesis I_state : forall w w',
  w_trace w' = w_trace w -> w_chain_state w' = w_chain_state w -> I w w'.

Ltac until_side :=
  solve [ apply I_refl | apply I_log; reflexivity | apply I_state; reflexivity ].
Ltac until_go := repeat keeps_step I_refl I_trans until_side.

Lemma keeps_until_accounts accs prefix :
  keeps I (applyGenesisAccounts ChangeAddressPrefix accs prefix).
Proof.
  unfold applyGenesisAccounts, chain_Commands. until_go.
  induction accs as [|acc rest IH]; simpl; unfold cmd_AddGenesisAccount; until_go.
  exact IH.
Qed.

Lemma keeps_until_vesting accs prefix :
  keeps I (applyVestingAccounts ChangeAddressPrefix accs prefix).
Proof.
  unfold applyVestingAccounts, chain_Commands. until_go.
  induction accs as [|acc rest IH]; simpl; unfold cmd_AddVestingAccount; until_go.
  exact IH.
Qed.

Lemma keeps_until_writeGentxs dir vals : forall i,
  keeps I (writeGentxs dir i vals).
Proof.
  induction vals as [|val rest IH]; intros i; simpl; unfold ioutil_WriteFile;
    until_go.
  apply IH.
Qed.

Lemma keeps_until_validators c vals :
  keeps I (applyGenesisValidators VerifyPeerFormat c vals).
Proof.
  unfold applyGenesisValidators. destruct vals as [|val rest]; [until_go |].
  unfold chain_GentxsPath, os_RemoveAll, os_MkdirAll, chain_Commands,
    cmd_CollectGentxs.
  until_go.
  - apply keeps_until_writeGentxs.
  - unfold updateConfigFromGenesisValidators, chain_ConfigTOMLPath, toml_LoadFile,
      os_OpenFile, toml_WriteTo, c_SPNConfigPath, SetSPNConfig.
    until_go.
Qed.

Lemma keeps_until_buildGenesis c gi :
  keeps I (buildGenesis VerifyPeerFormat ChangeAddressPrefix c gi).
Proof.
  unfold buildGenesis, ev_Send, c_detectPrefix, chain_GenesisPath,
    cosmosutil_SetGenesisTime.
  until_go.
  - apply keeps_until_accounts.
  - apply keeps_until_vesting.
  - apply keeps_until_validators.
Qed.

Lemma keeps_until_Prepare c gi :
  fails (buildGenesis VerifyPeerFormat ChangeAddressPrefix c gi) ->
  keeps I (Prepare VerifyPeerFormat ChangeAddressPrefix clispinner_OK c gi).
Proof.
  intros Hfails. unfold Prepare, chain_Home, os_Stat.
  apply (keeps_bind I I_trans); [until_go | intros h].
  apply (keeps_bind I I_trans); [until_go | intros st].
  apply (keeps_bind I I_trans); [| intros b].
  - unfold prepareEntry, c_Init, chain_Binary, ev_Send, chain_Build, c_initGenesis.
    until_go.
  - unfold prepareFinish. apply keeps_bind_fails; [| exact Hfails].
    apply keeps_until_buildGenesis.
Qed.

End UntilGenesis.

(** X26: when the genesis cannot be built, [Prepare] returns an error
    without validating a genesis, without resetting the saved state of the
    chain and without printing that the chain is prepared. *)
Theorem Prepare_stops_at_genesis_error VerifyPeerFormat ChangeAddressPrefix
    clispinner_OK c gi w :
  fails (buildGenesis VerifyPeerFormat ChangeAddressPrefix c gi) ->
  is_Err (Prepare VerifyPeerFormat ChangeAddressPrefix clispinner_OK c gi w).1 /\
  w_chain_state (Prepare VerifyPeerFormat ChangeAddressPrefix clispinner_OK c gi w).2
  = w_chain_state w /\
  Forall (fun call => before_validation call = true)
    (new_calls w (Prepare VerifyPeerFormat ChangeAddressPrefix clispinner_OK c gi w).2).
Proof.
  intros Hfails. split; [| split].
  - unfold Prepare. do 3 (apply fails_bind_r; intros ?).
    unfold prepareFinish. apply fails_bind_l, Hfails.
  - apply (keeps_until_Prepare VerifyPeerFormat ChangeAddressPrefix clispinner_OK
             (same w_chain_state) (same_refl _) (same_trans _)).
    + intros; reflexivity.
    + intros w0 w' _ Hs. exact Hs.
    + exact Hfails.
  - destruct (keeps_until_Prepare VerifyPeerFormat ChangeAddressPrefix clispinner_OK
                (emits before_validation) (emits_refl _) (emits_trans _)
                (fun call w0 H => emits_log before_validation call w0 H)
                (fun w0 w' Ht _ => emits_same_trace before_validation w0 w' Ht)
                c gi Hfails w) as (calls & Htrace & Hcalls).
    rewrite (new_calls_app _ _ _ Htrace). exact Hcalls.
Qed.

Lemma Prepare_stops_at_genesis_error_witness :
  is_Err (Prepare VerifyPeerFormat_topology reprefix "OK" chain0 gi_malformed
            world_running).1 /\
  w_chain_state (Prepare VerifyPeerFormat_topology reprefix "OK" chain0 gi_malformed
                   world_running).2 = 42%N /\
  Forall (fun call => before_validation call = true)
    (new_calls world_running
       (Prepare VerifyPeerFormat_topology reprefix "OK" chain0 gi_malformed
          world_running).2).
Proof.
  apply (Prepare_stops_at_genesis_error VerifyPeerFormat_topology reprefix "OK" chain0
           gi_malformed world_running).
  apply buildGenesis_malformed_fails. right. left. left. reflexivity.
Defined.

(** ** The source of the clone *)

(** The options networkchain.go provides leave the source as it is. *)
Lemma provided_options_keep_source registry source options :
  Forall provided_Option options ->
  url (data (configured registry source options))
  = url (data (source (zero_ChainHandle registry))) /\
  ref (data (configured registry source options))
  = ref (data (source (zero_ChainHandle registry))) /\
  hash (data (configured registry source options))
  = hash (data (source (zero_ChainHandle registry))).
Proof.
  unfold configured. generalize (source (zero_ChainHandle registry)) as c0.
  induction options as [|apply options IH] using rev_ind; intros c0 Hall.
  - auto.
  - apply Forall_app in Hall as (Hall & Happly).
    rewrite fold_left_app. simpl.
    destruct (IH c0 Hall) as (Hu & Hr & Hh).
    inversion Happly as [|? ? Hp _]; subst.
    destruct Hp; cbn; auto.
Qed.

(** X27: with the options networkchain.go provides, [New] clones the URL of
    the source into the path of the chain: the default branch for
    [SourceRemote] and [SourceRemoteHash], the branch alone for
    [SourceRemoteBranch] and the tag alone for [SourceRemoteTag], a reference
    that is never empty, whatever the name; no option changes the source. *)
Theorem New_clone_options KeyringBackendTest IsFamily_Stargate
    ErrOnlyStargateSupported registry source options s c s' :
  Forall provided_Option options ->
  New KeyringBackendTest IsFamily_Stargate ErrOnlyStargateSupported registry source
      options s = (Ok c, s') ->
  In (GPlainClone (path (data c))
        (cloneOptions (url (data (source (zero_ChainHandle registry))))
                      (ref (data (source (zero_ChainHandle registry))))))
     (g_trace (n_git s')) /\
  SourceURL c = url (data (source (zero_ChainHandle registry))) /\
  (forall u, source = SourceRemote u ->
     cloneOptions (url (data (source (zero_ChainHandle registry))))
                  (ref (data (source (zero_ChainHandle registry))))
     = {| URL := u; ReferenceName := EmptyString; SingleBranch := false |}) /\
  (forall u branch, source = SourceRemoteBranch u branch ->
     cloneOptions (url (data (source (zero_ChainHandle registry))))
                  (ref (data (source (zero_ChainHandle registry))))
     = {| URL := u; ReferenceName := "refs/heads/" +:+ branch; SingleBranch := true |}) /\
  (forall u tag, source = SourceRemoteTag u tag ->
     cloneOptions (url (data (source (zero_ChainHandle registry))))
                  (ref (data (source (zero_ChainHandle registry))))
     = {| URL := u; ReferenceName := "refs/tags/" +:+ tag; SingleBranch := true |}) /\
  (forall u pinned, source = SourceRemoteHash u pinned ->
     cloneOptions (url (data (source (zero_ChainHandle registry))))
                  (ref (data (source (zero_ChainHandle registry))))
     = {| URL := u; ReferenceName := EmptyString; SingleBranch := false |}).
Proof.
  intros Hall H.
  destruct (provided_options_keep_source registry source options Hall)
    as (Hu & Hr & _).
  apply New_Ok in H as (p & h & rt & Hfetch & _ & _ & -> & _).
  apply fetchSource_Ok_calls in Hfetch as (rest & Htrace & _).
  rewrite Hu, Hr in Htrace.
  split; [| split; [exact Hu |]].
  - rewrite Htrace. cbn [data set_chain set_keyringBackend set_data path set_hash set_path].
    apply in_or_app. right. right. right. left. reflexivity.
  - repeat split; intros; subst source; reflexivity.
Qed.

Lemma New_clone_options_witness :
  exists c s',
    New "test" stargate_from_v040 ErrOnlyStargateSupported0 "keyring"
        (SourceRemoteBranch "https://example.com/chain.git" "develop")
        [WithHome "/home/chain"; CollectEvents (Some "bus")] new0 = (Ok c, s') /\
    In (GPlainClone (path (data c))
          {| URL := "https://example.com/chain.git";
             ReferenceName := "refs/heads/develop"; SingleBranch := true |})
       (g_trace (n_git s')).
Proof.
  destruct (New "test" stargate_from_v040 ErrOnlyStargateSupported0 "keyring"
              (SourceRemoteBranch "https://example.com/chain.git" "develop")
              [WithHome "/home/chain"; CollectEvents (Some "bus")] new0)
    as [[c|e] s'] eqn:H.
  - exists c, s'. split; [reflexivity |].
    assert (Hall : Forall provided_Option
                     [WithHome "/home/chain"; CollectEvents (Some "bus")])
      by (repeat constructor).
    destruct (New_clone_options "test" stargate_from_v040 ErrOnlyStargateSupported0
                _ _ _ _ _ _ Hall H) as (Hin & _).
    exact Hin.
  - exfalso. vm_compute in H. discriminate H.
Defined.

(** * Properties of the analysis *)

(** ** The module file *)

Lemma fold_delete_lookup (requires : list string) : forall (mc : gmap string bool) k,
  fold_left (fun mc r => delete r mc) requires mc !! k =
  if decide (k ∈ requires) then None else mc !! k.
Proof.
  induction requires as [|r requires IH]; intros mc k; simpl.
  - destruct (decide (k ∈ [])) as [Hin|_]; [inversion Hin | reflexivity].
  - rewrite IH. destruct (decide (k ∈ requires)) as [Hin|Hnin].
    + rewrite decide_True by (right; exact Hin). reflexivity.
    + destruct (decide (k = r)) as [->|Hne].
      * rewrite decide_True by left. apply lookup_delete_eq.
      * rewrite decide_False by (intros Hin; apply elem_of_cons in Hin as [?|?]; auto).
        apply lookup_delete_ne. congruence.
Qed.

(** X28: [ValidateGoMod] returns no error exactly when the module file
    requires both the Cosmos SDK and Tendermint; the error it returns
    otherwise names one of the two that is not required. *)
Theorem ValidateGoMod_required requires :
  (ValidateGoMod requires = Ok tt <->
   cosmosModulePath ∈ requires /\ tendermintModulePath ∈ requires) /\
  (forall e,
     ValidateGoMod requires = Err e ->
     exists m,
       (m = cosmosModulePath \/ m = tendermintModulePath) /\
       (m ∉ requires) /\
       e = ErrMsg ("invalid go module, missing " +:+ m +:+ " package dependency")).
Proof.
  unfold ValidateGoMod.
  set (base := <[cosmosModulePath := true]> (<[tendermintModulePath := true]> ∅)
               : gmap string bool).
  set (mc := fold_left (fun mc r => delete r mc) requires base).
  assert (Hlook : forall k, mc !! k = if decide (k ∈ requires) then None else base !! k)
    by (intros k; apply fold_delete_lookup).
  assert (Hbase : forall k b, base !! k = Some b ->
                    k = cosmosModulePath \/ k = tendermintModulePath).
  { intros k b Hk. unfold base in Hk.
    apply lookup_insert_Some in Hk as [[<- _] | [_ Hk]]; [auto |].
    apply lookup_insert_Some in Hk as [[<- _] | [_ Hk]]; [auto |].
    rewrite lookup_empty in Hk. discriminate. }
  split.
  - destruct (map_to_list mc) as [|[m b] l] eqn:Hl.
    + apply map_to_list_empty_iff in Hl. split; [intros _ | reflexivity].
      split.
      * pose proof (Hlook cosmosModulePath) as Hc. rewrite Hl, lookup_empty in Hc.
        destruct (decide (cosmosModulePath ∈ requires)); [assumption |].
        unfold base in Hc. rewrite lookup_insert_eq in Hc. discriminate.
      * pose proof (Hlook tendermintModulePath) as Hc. rewrite Hl, lookup_empty in Hc.
        destruct (decide (tendermintModulePath ∈ requires)); [assumption |].
        unfold base in Hc. rewrite lookup_insert_ne, lookup_insert_eq in Hc
          by discriminate. discriminate.
    + split; [discriminate |]. intros (Hc & Ht). exfalso.
      assert (Hm : mc !! m = Some b).
      { apply elem_of_map_to_list. rewrite Hl. left. }
      rewrite Hlook in Hm. destruct (decide (m ∈ requires)) as [|Hnin]; [discriminate |].
      apply Hbase in Hm as [-> | ->]; contradiction.
  - intros e He. destruct (map_to_list mc) as [|[m b] l] eqn:Hl; [discriminate |].
    injection He as <-. exists m.
    assert (Hm : mc !! m = Some b).
    { apply elem_of_map_to_list. rewrite Hl. left. }
    rewrite Hlook in Hm. destruct (decide (m ∈ requires)) as [|Hnin]; [discriminate |].
    split; [exact (Hbase _ _ Hm) |]. split; [exact Hnin | reflexivity].
Qed.

Lemma ValidateGoMod_required_witness :
  ValidateGoMod ["github.com/spf13/cobra"; "github.com/tendermint/tendermint";
                 "github.com/cosmos/cosmos-sdk"] = Ok tt.
Proof.
  apply (proj1 (ValidateGoMod_required _)). split.
  - right. right. left.
  - right. left.
Defined.

(** ** The types that implement an interface *)

Lemma fold_insert_false_lookup (interfaceList : list string) :
  forall (impl : implementation) m,
    fold_left (fun impl m => <[m := false]> impl) interfaceList impl !! m =
    if decide (m ∈ interfaceList) then Some false else impl !! m.
Proof.
  induction interfaceList as [|x l IH]; intros impl m; simpl.
  - destruct (decide (m ∈ [])) as [Hin|_]; [inversion Hin | reflexivity].
  - rewrite IH. destruct (decide (m ∈ l)) as [Hin|Hnin].
    + rewrite decide_True by (right; exact Hin). reflexivity.
    + destruct (decide (m = x)) as [->|Hne].
      * rewrite decide_True by left. apply lookup_insert_eq.
      * rewrite decide_False by (intros Hin; apply elem_of_cons in Hin as [?|?]; auto).
        apply lookup_insert_ne. congruence.
Qed.

Lemma newImplementation_lookup interfaceList m :
  newImplementation interfaceList !! m =
  if decide (m ∈ interfaceList) then Some false else None.
Proof.
  unfold newImplementation. rewrite fold_insert_false_lookup.
  destruct (decide (m ∈ interfaceList)); [reflexivity | apply lookup_empty].
Qed.

Lemma checkImplementation_true (r : implementation) :
  checkImplementation r = true <-> forall m b, r !! m = Some b -> b = true.
Proof.
  unfold checkImplementation. rewrite forallb_forall. split.
  - intros H m b Hm. apply (H (m, b)).
    apply list_elem_of_In, elem_of_map_to_list, Hm.
  - intros H [m b] Hin. apply list_elem_of_In, elem_of_map_to_list in Hin.
    apply (H m b Hin).
Qed.

Lemma if_decide_iff {A} (P Q : Prop) `{Decision P, Decision Q} (x y : A) :
  (P <-> Q) -> (if decide P then x else y) = (if decide Q then x else y).
Proof. intros HPQ. destruct (decide P), (decide Q); tauto. Qed.

Lemma has_method_snoc decls d structName :
  has_method (decls ++ [d]) structName <->
  has_method decls structName \/ receiverName d = Some structName.
Proof.
  unfold has_method. rewrite Exists_app, Exists_cons, Exists_nil. tauto.
Qed.

Lemma declares_snoc decls d structName methodName :
  declares (decls ++ [d]) structName methodName <->
  declares decls structName methodName \/
  (receiverName d = Some structName /\ FuncName d = methodName).
Proof.
  unfold declares. rewrite Exists_app, Exists_cons, Exists_nil. tauto.
Qed.

Lemma declares_has_method decls structName methodName :
  declares decls structName methodName -> has_method decls structName.
Proof.
  unfold declares, has_method. intros H. apply (Exists_impl _ _ _ H). tauto.
Qed.

Lemma implementation_of_ext interfaceList l1 l2 structName entry :
  (has_method l1 structName <-> has_method l2 structName) ->
  (forall m, declares l1 structName m <-> declares l2 structName m) ->
  implementation_of interfaceList l1 structName entry ->
  implementation_of interfaceList l2 structName entry.
Proof.
  intros Hh Hd. destruct entry as [impl|]; simpl.
  - intros (Hm & Himpl). split; [apply Hh, Hm |].
    intros m. rewrite Himpl. apply if_decide_iff, Hd.
  - rewrite Hh. auto.
Qed.

(** The function given to [ast.Inspect], on a method of a struct. *)
Lemma inspectFuncDecl_method interfaceList si d structName :
  receiverName d = Some structName ->
  inspectFuncDecl interfaceList si d =
  Some (<[structName :=
            <[FuncName d := true]>
              (default (newImplementation interfaceList) (si !! structName))]> si).
Proof.
  unfold receiverName, inspectFuncDecl. intros Hr.
  assert (Hmark :
    <[structName :=
        <[FuncName d := true]>
          (default ∅
             (match si !! structName with
              | Some _ => si
              | None => <[structName := newImplementation interfaceList]> si
              end !! structName))]>
      match si !! structName with
      | Some _ => si
      | None => <[structName := newImplementation interfaceList]> si
      end
    = <[structName :=
          <[FuncName d := true]>
            (default (newImplementation interfaceList) (si !! structName))]> si).
  { destruct (si !! structName) as [impl|] eqn:Hs.
    - rewrite Hs. reflexivity.
    - rewrite lookup_insert_eq, insert_insert_eq. reflexivity. }
  destruct (Recv d) as [[n|[n| |]|]|]; try discriminate;
    injection Hr as ->; rewrite Hmark; reflexivity.
Qed.

(** On any other declaration it changes nothing, or panics. *)
Lemma inspectFuncDecl_other interfaceList si d :
  receiverName d = None ->
  inspectFuncDecl interfaceList si d = if panicking d then None else Some si.
Proof.
  unfold receiverName, inspectFuncDecl, panicking.
  destruct (Recv d) as [[n|[n| |]|]|]; try discriminate; reflexivity.
Qed.


Lemma inspectFuncDecl_step interfaceList seen si d si1 :
  (forall s, implementation_of interfaceList seen s (si !! s)) ->
  inspectFuncDecl interfaceList si d = Some si1 ->
  forall s, implementation_of interfaceList (seen ++ [d]) s (si1 !! s).
Proof.
  intros Hinv Hstep s.
  destruct (receiverName d) as [n|] eqn:Hr.
  - rewrite (inspectFuncDecl_method _ _ _ _ Hr) in Hstep. injection Hstep as <-.
    destruct (decide (s = n)) as [->|Hne].
    + rewrite lookup_insert_eq. unfold implementation_of.
      split; [apply has_method_snoc; auto |].
      intros m. destruct (decide (m = FuncName d)) as [->|Hm].
      * rewrite lookup_insert_eq, decide_True; [reflexivity |].
        apply declares_snoc. auto.
      * rewrite lookup_insert_ne by congruence.
        rewrite (if_decide_iff (declares (seen ++ [d]) n m) (declares seen n m))
          by (rewrite declares_snoc; intuition congruence).
        specialize (Hinv n). unfold implementation_of in Hinv.
        destruct (si !! n) as [impl|]; cbn [default from_option id].
        -- apply Hinv.
        -- rewrite newImplementation_lookup.
           rewrite (decide_False (P := declares seen n m)); [reflexivity |].
           intros Hd. apply Hinv. eapply declares_has_method, Hd.
    + rewrite lookup_insert_ne by congruence.
      apply (implementation_of_ext interfaceList seen); [| | apply Hinv].
      * rewrite has_method_snoc. intuition congruence.
      * intros m. rewrite declares_snoc. intuition congruence.
  - rewrite (inspectFuncDecl_other _ _ _ Hr) in Hstep.
    destruct (panicking d); [discriminate |]. injection Hstep as <-.
    apply (implementation_of_ext interfaceList seen); [| | apply Hinv].
    + rewrite has_method_snoc. intuition congruence.
    + intros m. rewrite declares_snoc. intuition congruence.
Qed.

Lemma inspectDecls_inv interfaceList decls : forall seen si si',
  (forall s, implementation_of interfaceList seen s (si !! s)) ->
  inspectDecls interfaceList decls si = Some si' ->
  forall s, implementation_of interfaceList (seen ++ decls) s (si' !! s).
Proof.
  induction decls as [|d decls IH]; intros seen si si' Hinv H; simpl in H.
  - injection H as <-. rewrite app_nil_r. exact Hinv.
  - destruct (inspectFuncDecl interfaceList si d) as [si1|] eqn:Hstep; [| discriminate].
    replace (seen ++ d :: decls) with ((seen ++ [d]) ++ decls)
      by (rewrite <- app_assoc; reflexivity).
    apply (IH _ si1); [| exact H].
    apply (inspectFuncDecl_step _ _ si); assumption.
Qed.


Lemma NoDup_filter_fst {A B} (P : A * B -> Prop) `{!forall x, Decision (P x)}
    (l : list (A * B)) :
  NoDup l.*1 -> NoDup (filter P l).*1.
Proof.
  induction l as [|x l IH]; intros Hnd; [constructor |].
  rewrite fmap_cons in Hnd. apply NoDup_cons in Hnd as (Hx & Hnd).
  destruct (decide (P x)).
  - rewrite filter_cons_True by assumption. rewrite fmap_cons.
    apply NoDup_cons. split; [| apply IH, Hnd].
    intros Hin. apply Hx. apply list_elem_of_fmap in Hin as (y & -> & Hy).
    apply list_elem_of_fmap. exists y. split; [reflexivity |].
    apply list_elem_of_filter in Hy. tauto.
  - rewrite filter_cons_False by assumption. apply IH, Hnd.
Qed.


Lemma findImplementationInFiles_Some files interfaceList found :
  findImplementationInFiles files interfaceList = Some found ->
  NoDup found /\
  forall structName,
    structName ∈ found <->
    has_method (concat files) structName /\
    forall m, m ∈ interfaceList -> declares (concat files) structName m.
Proof.
  unfold findImplementationInFiles. intros H.
  destruct (inspectDecls interfaceList (concat files) ∅) as [si|] eqn:Hsi;
    [| discriminate].
  injection H as <-.
  assert (Hinv : forall s, implementation_of interfaceList (concat files) s (si !! s)).
  { apply (inspectDecls_inv interfaceList (concat files) [] ∅); [| exact Hsi].
    intros s. rewrite lookup_empty. simpl. unfold has_method.
    rewrite Exists_nil. tauto. }
  split; [apply NoDup_filter_fst, NoDup_fst_map_to_list |].
  intros structName. rewrite list_elem_of_fmap. split.
  - intros ([s impl] & -> & Hin). apply list_elem_of_filter in Hin as (Hcheck & Hin).
    apply elem_of_map_to_list in Hin. simpl in *.
    specialize (Hinv s). rewrite Hin in Hinv. destruct Hinv as (Hm & Himpl).
    split; [exact Hm |]. intros m Hil.
    destruct (decide (declares (concat files) s m)) as [Hd|Hd]; [exact Hd |].
    exfalso. pose proof (Himpl m) as Hl.
    rewrite decide_False, decide_True in Hl by assumption.
    apply checkImplementation_true with (m := m) (b := false) in Hcheck;
      [discriminate | exact Hl].
  - intros (Hm & Hall). specialize (Hinv structName).
    destruct (si !! structName) as [impl|] eqn:Hs; [| contradiction].
    destruct Hinv as (_ & Himpl).
    exists (structName, impl). split; [reflexivity |].
    apply list_elem_of_filter. split; [| apply elem_of_map_to_list, Hs].
    simpl. apply checkImplementation_true. intros m b Hb.
    rewrite Himpl in Hb.
    destruct (decide (declares (concat files) structName m)) as [Hd|Hd];
      [congruence |].
    destruct (decide (m ∈ interfaceList)) as [Hil|Hil]; [| discriminate].
    exfalso. apply Hd, Hall, Hil.
Qed.



(** ** The app file *)

Lemma walkAppFiles_found entries : forall acc found,
  walkAppFiles entries acc = Some (Ok found) ->
  found = acc ++ (walk_path <$> filter (fun e => appEntry e = true) entries).
Proof.
  induction entries as [|e entries IH]; intros acc found H; simpl in H.
  - injection H as <-. rewrite app_nil_r. reflexivity.
  - unfold visitAppFile in H.
    destruct (walk_err e); [discriminate H |].
    destruct (walk_IsDir e) eqn:Hdir; simpl in H.
    { rewrite filter_cons_False
        by (unfold appEntry; rewrite Hdir; simpl; discriminate).
      apply IH, H. }
    destruct (bool_decide (walk_Ext e = ".go")) eqn:Hext; simpl in H;
      [| rewrite filter_cons_False
           by (unfold appEntry; rewrite Hdir, Hext; simpl; discriminate);
         apply IH, H].
    destruct (walk_ParseFile e) as [f|err] eqn:Hparse; [| discriminate H].
    destruct (findImplementationInFiles [f] appImplementation) as [[|s l]|] eqn:Hfind;
      simpl in H; [| | discriminate H].
    + rewrite filter_cons_False
        by (unfold appEntry; rewrite Hdir, Hext, Hparse, Hfind; simpl; discriminate).
      apply IH, H.
    + rewrite filter_cons_True
        by (unfold appEntry; rewrite Hdir, Hext, Hparse, Hfind; reflexivity).
      rewrite (IH _ _ H), fmap_cons, <- app_assoc. reflexivity.
Qed.

Section AppFile.

Variable filepath_Base : string -> string.
Hypothesis Base_empty : filepath_Base EmptyString <> appFileName.

Lemma pickAppGo_filter found : forall appFilePath,
  pickAppGo filepath_Base found appFilePath =
  match filter (fun p => filepath_Base p = appFileName) found with
  | [] => Ok appFilePath
  | [p] => if is_empty_string appFilePath then Ok p
           else Err (ErrMsg "multiple app.go files found")
  | _ :: _ :: _ => Err (ErrMsg "multiple app.go files found")
  end.
Proof.
  induction found as [|p found IH]; intros acc; simpl; [reflexivity |].
  case_bool_decide as Hp.
  - rewrite filter_cons_True by exact Hp.
    destruct (is_empty_string acc) eqn:Hacc; simpl.
    + rewrite IH.
      assert (Hne : is_empty_string p = false).
      { destruct p; [contradiction | reflexivity]. }
      rewrite Hne.
      destruct (filter (fun p => filepath_Base p = appFileName) found) as [|q [|r l]];
        reflexivity.
    + destruct (filter (fun p => filepath_Base p = appFileName) found) as [|q [|r l]];
        reflexivity.
  - rewrite filter_cons_False by exact Hp. apply IH.
Qed.

Lemma chooseAppFile_Ok found p :
  chooseAppFile filepath_Base found = Ok p <->
  found = [p] \/
  ((1 < length found)%nat /\
   filter (fun q => filepath_Base q = appFileName) found = [p]).
Proof.
  unfold chooseAppFile. destruct found as [|a [|b l]].
  - split; [discriminate |]. intros [H | (H & _)]; [discriminate | simpl in H; lia].
  - split.
    + intros [= ->]. auto.
    + intros [[= ->] | (H & _)]; [reflexivity | simpl in H; lia].
  - rewrite pickAppGo_filter. cbn [is_empty_string].
    destruct (filter (fun q => filepath_Base q = appFileName) (a :: b :: l))
      as [|q [|r l']] eqn:Hf.
    + cbn. split; [discriminate |]. intros [H | (_ & H)]; discriminate.
    + assert (Hq : is_empty_string q = false).
      { assert (Hin : q ∈ filter (fun q => filepath_Base q = appFileName) (a :: b :: l))
          by (rewrite Hf; left).
        apply list_elem_of_filter in Hin as (Hb & _).
        destruct q; [contradiction | reflexivity]. }
      rewrite Hq. cbn. split.
      * intros [= ->]. right. split; [simpl; lia | reflexivity].
      * intros [H | (_ & [= ->])]; [discriminate | reflexivity].
    + split; [discriminate |]. intros [H | (_ & H)]; discriminate.
Qed.

(** X30: [FindAppFilePath] looks at each Go file of the walk on its own.
    When the walk ends without an error, the files found are the Go files in
    which one struct has all the methods Name, BeginBlocker and EndBlocker,
    in the order of the walk; a path is returned exactly when it is the only
    file found, or several were found and it is the only one of them named
    app.go. The methods of the struct are then all declared in that file. *)
Theorem FindAppFilePath_choice entries found :
  walkAppFiles entries [] = Some (Ok found) ->
  found = walk_path <$> filter (fun e => appEntry e = true) entries /\
  forall p,
    (FindAppFilePath filepath_Base entries = Some (Ok p) <->
     found = [p] \/
     ((1 < length found)%nat /\
      filter (fun q => filepath_Base q = appFileName) found = [p])) /\
    (FindAppFilePath filepath_Base entries = Some (Ok p) ->
     exists e f structName,
       e ∈ entries /\ walk_path e = p /\ walk_IsDir e = false /\
       walk_Ext e = ".go" /\ walk_ParseFile e = Ok f /\
       forall m, m ∈ appImplementation -> declares f structName m).
Proof.
  intros Hwalk. pose proof (walkAppFiles_found _ _ _ Hwalk) as Hfound.
  simpl in Hfound. split; [exact Hfound |]. intros p.
  assert (Hiff : FindAppFilePath filepath_Base entries = Some (Ok p) <->
                 found = [p] \/
                 ((1 < length found)%nat /\
                  filter (fun q => filepath_Base q = appFileName) found = [p])).
  { unfold FindAppFilePath. rewrite Hwalk. rewrite <- chooseAppFile_Ok.
    split; [intros [= H]; exact H | intros ->; reflexivity]. }
  split; [exact Hiff |]. intros H. apply Hiff in H.
  assert (Hin : p ∈ found).
  { destruct H as [-> | (_ & Hf)]; [left |].
    assert (Hp : p ∈ filter (fun q => filepath_Base q = appFileName) found)
      by (rewrite Hf; left).
    apply list_elem_of_filter in Hp. tauto. }
  rewrite Hfound in Hin. apply list_elem_of_fmap in Hin as (e & -> & He).
  apply list_elem_of_filter in He as (Happ & He).
  unfold appEntry in Happ.
  destruct (walk_IsDir e) eqn:Hdir; [discriminate |].
  destruct (bool_decide (walk_Ext e = ".go")) eqn:Hext; [| discriminate].
  apply bool_decide_eq_true in Hext.
  destruct (walk_ParseFile e) as [f|err] eqn:Hparse; [| discriminate].
  destruct (findImplementationInFiles [f] appImplementation) as [[|s l]|] eqn:Hfind;
    try discriminate.
  apply findImplementationInFiles_Some in Hfind as (_ & Hs).
  destruct (proj1 (Hs s) (list_elem_of_here _ _)) as (_ & Hall).
  simpl in Hall. rewrite app_nil_r in Hall.
  exists e, f, s. auto 10.
Qed.

End AppFile.

Lemma FindAppFilePath_choice_witness :
  FindAppFilePath Base0 walk0 = Some (Ok "/chain/app/app.go") <->
  ["/chain/app/app.go"; "/chain/testutil/simapp.go"] = ["/chain/app/app.go"] \/
  ((1 < length ["/chain/app/app.go"; "/chain/testutil/simapp.go"])%nat /\
   filter (fun q => Base0 q = appFileName)
          ["/chain/app/app.go"; "/chain/testutil/simapp.go"] = ["/chain/app/app.go"]).
Proof.
  refine (proj1 (proj2 (FindAppFilePath_choice Base0 _ walk0
                          ["/chain/app/app.go"; "/chain/testutil/simapp.go"] _)
                   "/chain/app/app.go")).
  - vm_compute. discriminate.
  - vm_compute. reflexivity.
Defined.
